(** * dentaldb: the Streamlit business-directory browser ([app.py])

    A shallow embedding of the query, filter and pagination logic of
    [app.py], and the properties of its specification proved (or refuted)
    on that embedding.

    Conventions.
    - Python [str] values are Rocq [string]s; one [ascii] stands for one
      code point, so the model covers text whose code points are below 256.
    - Python [int]s are [Z]; [//] with a non-zero divisor is [Z.div] (both
      round towards minus infinity).
    - The column set [existing] (a Python [set]) is a [gset string];
      [st.session_state] (a dict-like object) is a [gmap string Z].
    - [pd.read_sql] either returns a frame or raises; a script run ends
      normally, by [st.stop()], or with the exception nobody caught.
    - Streamlit draws as the script goes: what a run has put on the page
      is a list of elements, oldest first, and stays whatever happens
      next. *)

From Stdlib Require Import ZArith QArith Qround Lia.
From Stdlib Require Import Strings.String Strings.Ascii Lists.List.
From stdpp Require Import gmap strings list sorting.

Local Open Scope string_scope.
Local Open Scope list_scope.
Local Open Scope Z_scope.

(** ** Pagination (lines 204-222 of [app.py]) *)

Module Pager.

(** [max_page = max(1, (filtered_rows + page_size - 1) // page_size)] *)
Definition max_page (filtered_rows page_size : Z) : Z :=
  Z.max 1 ((filtered_rows + page_size - 1) / page_size).

(** [if "page" not in st.session_state: st.session_state.page = 1] *)
Definition init_page (ss : gmap string Z) : gmap string Z :=
  match ss !! "page" with
  | None => <["page" := 1]> ss
  | Some _ => ss
  end.

(** The two guarded assignments of lines 208-209, in source order. *)
Definition clamp_page (ss : gmap string Z) (maxp : Z) : gmap string Z :=
  let ss1 := if ss !!! "page" >? maxp then <["page" := maxp]> ss else ss in
  if ss1 !!! "page" <? 1 then <["page" := 1]> ss1 else ss1.

(** [offset = (st.session_state.page - 1) * page_size] *)
Definition offset_of (ss : gmap string Z) (page_size : Z) : Z :=
  (ss !!! "page" - 1) * page_size.

(** [st.button("Prev") and page > 1], then [st.button("Next") and
    page < max_page]; [prev] and [next] are what the two buttons return. *)
Definition press_prev (ss : gmap string Z) (prev : bool) : gmap string Z :=
  if prev && (ss !!! "page" >? 1) then <["page" := ss !!! "page" - 1]> ss else ss.

Definition press_next (ss : gmap string Z) (maxp : Z) (next : bool) : gmap string Z :=
  if next && (ss !!! "page" <? maxp) then <["page" := ss !!! "page" + 1]> ss else ss.

(** What the pagination block hands to the rest of the script. *)
Record pager := {
  pg_max_page : Z;
  pg_page_used : Z;     (* the page the offset was computed from *)
  pg_offset : Z;
  pg_start_row : Z;
  pg_end_row : Z;
  pg_page_shown : Z     (* the page number printed in the info line *)
}.

Definition paginate (ss : gmap string Z) (filtered_rows page_size : Z)
    (prev next : bool) : gmap string Z * pager :=
  let ss0 := init_page ss in
  let maxp := max_page filtered_rows page_size in
  let ss1 := clamp_page ss0 maxp in
  let offset := offset_of ss1 page_size in
  let ss2 := press_prev ss1 prev in
  let ss3 := press_next ss2 maxp next in
  let start_row := if filtered_rows =? 0 then 0 else offset + 1 in
  let end_row := Z.min filtered_rows (offset + page_size) in
  (ss3, {| pg_max_page := maxp;
           pg_page_used := ss1 !!! "page";
           pg_offset := offset;
           pg_start_row := start_row;
           pg_end_row := end_row;
           pg_page_shown := ss3 !!! "page" |}).

(** One interaction: the widget values that reach the pagination block. *)
Record interaction := {
  i_filtered_rows : Z;
  i_page_size : Z;
  i_prev : bool;
  i_next : bool
}.

Definition plausible (i : interaction) : Prop :=
  0 <= i_filtered_rows i /\ 1 <= i_page_size i.

Definition step (ss : gmap string Z) (i : interaction) : gmap string Z :=
  fst (paginate ss (i_filtered_rows i) (i_page_size i) (i_prev i) (i_next i)).

(** Session states a run can start from: a fresh session has no ["page"]
    key; every later run starts from what the previous one stored. *)
Inductive reachable : gmap string Z -> Prop :=
| reach_fresh : reachable ∅
| reach_step ss i : reachable ss -> plausible i -> reachable (step ss i).

(** The same steps as arithmetic on the page number alone. *)
Definition clamped (p m : Z) : Z :=
  let p1 := if p >? m then m else p in if p1 <? 1 then 1 else p1.

Definition after_prev (p : Z) (prev : bool) : Z :=
  if prev && (p >? 1) then p - 1 else p.

Definition after_next (p m : Z) (next : bool) : Z :=
  if next && (p <? m) then p + 1 else p.

(** The page a run uses for its query, as a function of the stored state. *)
Definition page_used (ss : gmap string Z) (filtered_rows page_size : Z) : Z :=
  pg_page_used (snd (paginate ss filtered_rows page_size false false)).

(** A sample interaction: 105 filtered rows, 50 per page, Next pressed. *)
Definition sample_interaction : interaction :=
  {| i_filtered_rows := 105; i_page_size := 50; i_prev := false; i_next := true |}.

End Pager.

(** ** Python string operations used by the script *)

Module Py.

(** The double-quote character, for the SQL labels and the HTML attributes. *)
Definition dq : string := String "034"%char EmptyString.

(** [sep.join(parts)] *)
Definition join (sep : string) (parts : list string) : string :=
  String.concat sep parts.

(** Truth value of a [str]: non-empty. *)
Definition truthy (s : string) : bool :=
  match s with EmptyString => false | String _ _ => true end.

(** [s.startswith(p)] *)
Definition startswith (p s : string) : bool := String.prefix p s.

(** [str.isspace] on one code point below 256: TAB..CR, FS..US, SPACE,
    NEL (0x85) and NBSP (0xA0). *)
Definition isspace (c : ascii) : bool :=
  let n := N_of_ascii c in
  ((9 <=? n) && (n <=? 13) || (28 <=? n) && (n <=? 32)
   || (n =? 133) || (n =? 160))%N.

Fixpoint lstrip (s : string) : string :=
  match s with
  | EmptyString => EmptyString
  | String c s' => if isspace c then lstrip s' else s
  end.

(** [rstrip] keeps a character when it is not a space or when something
    survives to its right. *)
Fixpoint rstrip (s : string) : string :=
  match s with
  | EmptyString => EmptyString
  | String c s' =>
      match rstrip s' with
      | EmptyString => if isspace c then EmptyString else String c EmptyString
      | r => String c r
      end
  end.

(** [s.strip()] *)
Definition strip (s : string) : string := rstrip (lstrip s).

(** [s.split(sep)[0]]: the text before the first occurrence of [sep], the
    whole of [s] when there is none. *)
Fixpoint split_head (sep s : string) : string :=
  if String.prefix sep s then EmptyString
  else match s with
       | EmptyString => EmptyString
       | String c s' => String c (split_head sep s')
       end.

(** Number of occurrences of a character. *)
Fixpoint count_char (c : ascii) (s : string) : nat :=
  match s with
  | EmptyString => O
  | String d s' => ((if Ascii.eqb c d then 1 else 0) + count_char c s')%nat
  end.

End Py.

(** ** Schema inspection (lines 140-146, 157, 179) *)

Module Schema.

Definition has (existing : gset string) (c : string) : bool :=
  bool_decide (c ∈ existing).

(** [name_col = "name_std" if "name_std" in existing else
    ("name" if "name" in existing else None)] and its two siblings. *)
Definition prefer (existing : gset string) (std raw : string) : option string :=
  if has existing std then Some std
  else if has existing raw then Some raw else None.

Definition name_col (existing : gset string) : option string :=
  prefer existing "name_std" "name".

Definition state_field (existing : gset string) : option string :=
  prefer existing "state_std" "state".

Definition zip_field (existing : gset string) : option string :=
  prefer existing "postal_code_std" "postal_code".

(** [c and c in existing] for an entry that may be [None]. *)
Definition present (existing : gset string) (oc : option string) : bool :=
  match oc with
  | Some c => Py.truthy c && has existing c
  | None => false
  end.

(** [kw_fields = [c for c in [name_col, "full_address", "site"]
                  if c and c in existing]] *)
Definition kw_fields (existing : gset string) : list string :=
  omap (fun oc => if present existing oc then oc else None)
       [name_col existing; Some "full_address"; Some "site"].

End Schema.

(** ** The filter builder (lines 165-183) *)

Module Filter.
Import Schema.

(** The four filter widgets' values as the script reads them. *)
Record filters := {
  q : string;          (* keyword text input *)
  city : string;       (* city select box, "(any)" when nothing is chosen *)
  state : string;      (* state select box, "(any)" when nothing is chosen *)
  zip_like : string    (* ZIP prefix text input *)
}.

Definition any : string := "(any)".

Definition differs (a b : string) : bool := negb (String.eqb a b).

(** Truth value of an optional column name: not [None], not empty. *)
Definition truthy_field (oc : option string) : bool :=
  match oc with Some c => Py.truthy c | None => false end.

Definition field_name (oc : option string) : string := default EmptyString oc.

(** The four [if] blocks, each extending [(where, params)] in place;
    [params] holds the bound values, all of them [str]. *)
Definition add_keyword (existing : gset string) (f : filters)
    (acc : list string * list string) : list string * list string :=
  let kw := kw_fields existing in
  if Py.truthy (q f) && negb (bool_decide (kw = [])) then
    let like_clause := Py.join " OR " (map (fun c => c +:+ " LIKE ?") kw) in
    (fst acc ++ ["(" +:+ like_clause +:+ ")"],
     snd acc ++ repeat ("%" +:+ q f +:+ "%") (length kw))
  else acc.

Definition add_city (existing : gset string) (f : filters)
    (acc : list string * list string) : list string * list string :=
  if has existing "city" && differs (city f) any then
    (fst acc ++ ["city = ?"], snd acc ++ [city f])
  else acc.

Definition add_state (existing : gset string) (f : filters)
    (acc : list string * list string) : list string * list string :=
  let sf := state_field existing in
  if truthy_field sf && differs (state f) any then
    (fst acc ++ [field_name sf +:+ " = ?"], snd acc ++ [state f])
  else acc.

Definition add_zip (existing : gset string) (f : filters)
    (acc : list string * list string) : list string * list string :=
  let zf := zip_field existing in
  if truthy_field zf && Py.truthy (Py.strip (zip_like f)) then
    (fst acc ++ [field_name zf +:+ " LIKE ?"],
     snd acc ++ [Py.strip (zip_like f) +:+ "%"])
  else acc.

(** [(where, params)] after line 181. *)
Definition build_where (existing : gset string) (f : filters)
    : list string * list string :=
  add_zip existing f
    (add_state existing f
       (add_city existing f
          (add_keyword existing f ([], [])))).

(** [where_sql = ("WHERE " + " AND ".join(where)) if where else ""] *)
Definition where_sql_of (where_ : list string) : string :=
  match where_ with
  | [] => EmptyString
  | _ => "WHERE " +:+ Py.join " AND " where_
  end.

Definition where_sql (existing : gset string) (f : filters) : string :=
  where_sql_of (fst (build_where existing f)).

Definition params (existing : gset string) (f : filters) : list string :=
  snd (build_where existing f).

(** Which of the four blocks fire: the only thing about the user's values
    that the guards look at. *)
Record activation := {
  kw_on : bool; city_on : bool; state_on : bool; zip_on : bool
}.

Definition active (existing : gset string) (f : filters) : activation :=
  {| kw_on := Py.truthy (q f) && negb (bool_decide (kw_fields existing = []));
     city_on := has existing "city" && differs (city f) any;
     state_on := truthy_field (state_field existing) && differs (state f) any;
     zip_on := truthy_field (zip_field existing)
               && Py.truthy (Py.strip (zip_like f)) |}.

(** A filter set with one filter left unset. *)
Definition without_keyword (f : filters) : filters :=
  {| q := EmptyString; city := city f; state := state f; zip_like := zip_like f |}.
Definition without_city (f : filters) : filters :=
  {| q := q f; city := any; state := state f; zip_like := zip_like f |}.
Definition without_state (f : filters) : filters :=
  {| q := q f; city := city f; state := any; zip_like := zip_like f |}.
Definition without_zip (f : filters) : filters :=
  {| q := q f; city := city f; state := state f; zip_like := EmptyString |}.

(** The filter set with nothing but a ZIP prefix typed in. *)
Definition only_zip (z : string) : filters :=
  {| q := EmptyString; city := any; state := any; zip_like := z |}.

(** *** The same clauses as syntax

    SQLite sees the text; to say what the text selects, the conditions are
    also kept as terms.  [render_clause] prints a term the way the f-strings
    of the script do, and [where_clauses] mirrors [build_where]. *)

Inductive atom :=
| Like (col : string)     (* col LIKE ? *)
| Equals (col : string).  (* col = ? *)

Inductive clause :=
| AnyOf (alts : list atom)   (* (a1 OR a2 OR ...) *)
| Only (a : atom).

Definition atom_col (a : atom) : string :=
  match a with Like c => c | Equals c => c end.

Definition clause_atoms (c : clause) : list atom :=
  match c with AnyOf l => l | Only a => [a] end.

Definition render_atom (a : atom) : string :=
  match a with
  | Like c => c +:+ " LIKE ?"
  | Equals c => c +:+ " = ?"
  end.

Definition render_clause (c : clause) : string :=
  match c with
  | AnyOf l => "(" +:+ Py.join " OR " (map render_atom l) +:+ ")"
  | Only a => render_atom a
  end.

Definition where_clauses (existing : gset string) (f : filters) : list clause :=
  let a := active existing f in
  (if kw_on a then [AnyOf (map Like (kw_fields existing))] else [])
  ++ (if city_on a then [Only (Equals "city")] else [])
  ++ (if state_on a then [Only (Equals (field_name (state_field existing)))] else [])
  ++ (if zip_on a then [Only (Like (field_name (zip_field existing)))] else []).

(** Columns a WHERE clause names, and the placeholders it holds. *)
Definition where_columns (w : list clause) : list string :=
  flat_map (fun c => map atom_col (clause_atoms c)) w.

Definition placeholders (w : list clause) : nat :=
  length (where_columns w).

End Filter.

(** ** Column selection, ordering and the SQL texts (lines 103-120, 224-250, 271) *)

Module Sql.
Import Schema Filter.

Definition nl : string := String "010"%char EmptyString.

(** [select_schema]: (column, label) pairs; an absent state or ZIP field
    contributes [(None, None)]. *)
Definition select_schema (existing : gset string)
    : list (option string * option string) :=
  [ (if truthy_field (name_col existing)
     then Some (if has existing "name_std" then "name_std" else "name")
     else None, Some "Name");
    (Some "phone", Some "Phone");
    (Some "full_address", Some "Address");
    (Some "city", Some "City");
    (if truthy_field (state_field existing)
     then (state_field existing, Some "State") else (None, None));
    (if truthy_field (zip_field existing)
     then (zip_field existing, Some "ZIP") else (None, None));
    (Some "country", Some "Country");
    (Some "location_link", Some "Map");
    (Some "site", Some "Website") ].

(** The pairs that pass [if col and col in existing]; a [None] label would
    print as the text None. *)
Definition selected (existing : gset string) : list (string * string) :=
  omap (fun cl => if present existing (fst cl)
                  then Some (field_name (fst cl), default "None" (snd cl))
                  else None)
       (select_schema existing).

(** [f'{col} AS "{label}"'] *)
Definition render_sel (cl : string * string) : string :=
  fst cl +:+ " AS " +:+ Py.dq +:+ snd cl +:+ Py.dq.

Definition select_list (existing : gset string) : list string :=
  map render_sel (selected existing).

(** [order_expr]; the script has stopped before this line when
    [select_list] is empty, so the head exists whenever it is read. *)
Definition order_expr (existing : gset string) (select_list_ : list string) : string :=
  if has existing "name_std" || has existing "name"
  then "COALESCE(name_std, name)"
  else Py.split_head " AS " (hd EmptyString select_list_).

(** The ORDER BY expression as syntax. *)
Inductive order_by :=
| Coalesce (cols : list string)
| Column (col : string).

Definition render_order (o : order_by) : string :=
  match o with
  | Coalesce cols => "COALESCE(" +:+ Py.join ", " cols +:+ ")"
  | Column c => c
  end.

Definition order_columns (o : order_by) : list string :=
  match o with Coalesce cols => cols | Column c => [c] end.

Definition order_of (existing : gset string) (sel : list (string * string)) : order_by :=
  if has existing "name_std" || has existing "name"
  then Coalesce ["name_std"; "name"]
  else Column (hd EmptyString (map fst sel)).

(** The statements the script sends through [pd.read_sql], each with the
    values bound to its placeholders. *)
Inductive statement :=
| TableNames
| TableInfo (table : string)
| CountRows (table : string) (w : list clause) (bound : list string)
| CountDistinct (table col : string)
| DistinctValues (table col : string)
| SelectRows (sel : list (string * string)) (table : string)
             (w : list clause) (bound : list string) (ord : order_by)
             (window : option (Z * Z)).   (* LIMIT, OFFSET of the page query *)

(** The f-strings, over already rendered parts. *)
Definition count_sql (table where_sql_ : string) : string :=
  "SELECT COUNT(*) AS c FROM " +:+ table +:+ " " +:+ where_sql_.

Definition page_sql (select_list_ : list string) (table where_sql_ order_expr_ : string)
    : string :=
  nl +:+ "SELECT " +:+ Py.join ", " select_list_ +:+ nl
  +:+ "FROM " +:+ table +:+ nl
  +:+ where_sql_ +:+ nl
  +:+ "ORDER BY " +:+ order_expr_ +:+ nl
  +:+ "LIMIT ? OFFSET ?;" +:+ nl.

Definition full_sql (select_list_ : list string) (table where_sql_ order_expr_ : string)
    : string :=
  "SELECT " +:+ Py.join ", " select_list_ +:+ " FROM " +:+ table +:+ " "
  +:+ where_sql_ +:+ " ORDER BY " +:+ order_expr_.

Definition sql_text (s : statement) : string :=
  match s with
  | TableNames => "SELECT name FROM sqlite_master WHERE type='table'"
  | TableInfo t => "PRAGMA table_info(" +:+ t +:+ ");"
  | CountRows t w _ => count_sql t (where_sql_of (map render_clause w))
  | CountDistinct t c =>
      "SELECT COUNT(DISTINCT " +:+ c +:+ ") AS c FROM " +:+ t
      +:+ " WHERE " +:+ c +:+ " IS NOT NULL"
  | DistinctValues t c =>
      "SELECT DISTINCT " +:+ c +:+ " AS v FROM " +:+ t
      +:+ " WHERE " +:+ c +:+ " IS NOT NULL ORDER BY 1"
  | SelectRows sel t w _ ord (Some _) =>
      page_sql (map render_sel sel) t (where_sql_of (map render_clause w))
               (render_order ord)
  | SelectRows sel t w _ ord None =>
      full_sql (map render_sel sel) t (where_sql_of (map render_clause w))
               (render_order ord)
  end.

(** Placeholders in a piece of SQL text. *)
Definition qmarks (s : string) : nat := Py.count_char "?" s.

(** A value handed to [pd.read_sql] in [params]. *)
Inductive pyval := PStr (s : string) | PInt (z : Z).

(** [params] for the count and export queries, [params2 = params +
    [int(page_size), int(offset)]] for the page query. *)
Definition sql_params (s : statement) : list pyval :=
  match s with
  | CountRows _ _ bound => map PStr bound
  | SelectRows _ _ _ bound _ (Some (limit, offset)) =>
      map PStr bound ++ [PInt limit; PInt offset]
  | SelectRows _ _ _ bound _ None => map PStr bound
  | _ => []
  end.

(** The page query and the export query of one run. *)
Definition page_query (table : string) (existing : gset string) (f : filters)
    (page_size offset : Z) : statement :=
  SelectRows (selected existing) table (where_clauses existing f)
             (params existing f) (order_of existing (selected existing))
             (Some (page_size, offset)).

Definition export_query (table : string) (existing : gset string) (f : filters)
    : statement :=
  SelectRows (selected existing) table (where_clauses existing f)
             (params existing f) (order_of existing (selected existing)) None.

Definition count_query (table : string) (existing : gset string) (f : filters)
    : statement :=
  CountRows table (where_clauses existing f) (params existing f).

(** The page query text exactly as lines 243-249 assemble it from strings. *)
Definition sql (table : string) (existing : gset string) (f : filters) : string :=
  page_sql (select_list existing) table (where_sql existing f)
           (order_expr existing (select_list existing)).

End Sql.

(** ** Values, frames and outcomes on the Python side *)

Module Frame.

(** A cell of a [DataFrame]: [None], a [str] or an [int]. *)
Inductive cell := CNone | CStr (s : string) | CInt (z : Z).

(** A frame: its columns in order, each a label and the values by row. *)
Definition frame := list (string * list cell).

Inductive exn :=
| DatabaseError (reason : string)   (* what pandas raises when execution fails *)
| KeyError (key : string)
| IndexError
| TypeError.

(** How a computation of the script ends: with a value, with an exception
    that nothing catches, or by [st.stop()] after a message. *)
Inductive result (A : Type) :=
| Ok (a : A)
| Raise (e : exn)
| Halt (message : string).
Arguments Ok {A} a.
Arguments Raise {A} e.
Arguments Halt {A} message.

(** [df[label]]: the first column with that label, [KeyError] without one. *)
Fixpoint column (label : string) (fr : frame) : result (list cell) :=
  match fr with
  | [] => Raise (KeyError label)
  | (l, vs) :: fr' => if String.eqb l label then Ok vs else column label fr'
  end.

Definition labels (fr : frame) : list string := map fst fr.

(** [df.empty]: no column, or no row. *)
Definition empty (fr : frame) : bool :=
  match fr with
  | [] => true
  | (_, vs) :: _ => bool_decide (vs = [])
  end.

(** The [str] entries of a column. *)
Definition strings (vs : list cell) : list string :=
  omap (fun c => match c with CStr s => Some s | _ => None end) vs.

End Frame.

(** ** The part of SQLite the statements exercise *)

Module Sqlite.
Import Filter Sql Frame.

(** A table: its column names in declaration order and its rows.  A row
    maps a column to its text; a column without an entry is NULL there.
    (Other storage classes are not modelled.) *)
Record table := { t_cols : list string; t_rows : list (gmap string string) }.

(** ASCII upper case to lower case; LIKE folds case for ASCII only. *)
Definition fold_case (c : ascii) : ascii :=
  let n := N_of_ascii c in
  if ((65 <=? n) && (n <=? 90))%N then ascii_of_N (n + 32) else c.

Definition same_char (c d : ascii) : bool := Ascii.eqb (fold_case c) (fold_case d).

(** [text LIKE pattern] without ESCAPE: [%] stands for any run of
    characters, [_] for any one character, anything else for itself up to
    ASCII case. *)
Fixpoint like (pattern : string) : string -> bool :=
  match pattern with
  | EmptyString => fun text => negb (Py.truthy text)
  | String p pattern' =>
      if Ascii.eqb p "%" then
        fix star (text : string) : bool :=
          like pattern' text
          || match text with
             | EmptyString => false
             | String _ text' => star text'
             end
      else if Ascii.eqb p "_" then
        fun text => match text with
                    | EmptyString => false
                    | String _ text' => like pattern' text'
                    end
      else
        fun text => match text with
                    | EmptyString => false
                    | String d text' => same_char p d && like pattern' text'
                    end
  end.

(** Reading aids for [like]: a pattern free of wild cards, and a text
    that begins with a given string up to ASCII case. *)
Fixpoint has_wildcard (s : string) : bool :=
  match s with
  | EmptyString => false
  | String c s' => Ascii.eqb c "%" || Ascii.eqb c "_" || has_wildcard s'
  end.

Fixpoint begins_with (p text : string) : bool :=
  match p, text with
  | EmptyString, _ => true
  | String _ _, EmptyString => false
  | String c p', String d text' => same_char c d && begins_with p' text'
  end.

(** Three-valued truth: [None] is SQL's NULL. *)
Definition or3 (a b : option bool) : option bool :=
  match a, b with
  | Some true, _ | _, Some true => Some true
  | Some false, Some false => Some false
  | _, _ => None
  end.

Definition and3 (a b : option bool) : option bool :=
  match a, b with
  | Some false, _ | _, Some false => Some false
  | Some true, Some true => Some true
  | _, _ => None
  end.

Definition eval_atom (row : gmap string string) (a : atom) (v : string)
    : option bool :=
  match a with
  | Like c => (fun text => like v text) <$> row !! c
  | Equals c => (fun text => String.eqb text v) <$> row !! c
  end.

(** A clause takes as many bound values as it has placeholders, in order. *)
Definition eval_clause (row : gmap string string) (c : clause) (vs : list string)
    : option bool :=
  match c with
  | Only a => eval_atom row a (hd EmptyString vs)
  | AnyOf alts =>
      fold_right or3 (Some false)
        (map (fun av => eval_atom row (fst av) (snd av)) (combine alts vs))
  end.

Fixpoint eval_where (row : gmap string string) (w : list clause) (vs : list string)
    : option bool :=
  match w with
  | [] => Some true
  | c :: w' =>
      let n := length (clause_atoms c) in
      and3 (eval_clause row c (take n vs)) (eval_where row w' (drop n vs))
  end.

(** WHERE keeps the rows on which the condition is true (not NULL). *)
Definition keeps (w : list clause) (vs : list string) (row : gmap string string)
    : bool :=
  bool_decide (eval_where row w vs = Some true).

(** ASC order of keys under the BINARY collation: NULL first, then text by
    code point. *)
Definition key_leb (a b : option string) : bool :=
  match a, b with
  | None, _ => true
  | Some _, None => false
  | Some x, Some y => String.leb x y
  end.

Definition sort_key (o : order_by) (row : gmap string string) : option string :=
  match o with
  | Column c => row !! c
  | Coalesce cols => list_find is_Some ((fun c => row !! c) <$> cols) ≫= snd
  end.

Definition row_le (o : order_by) (r1 r2 : gmap string string) : Prop :=
  Is_true (key_leb (sort_key o r1) (sort_key o r2)).

#[local] Instance row_le_dec o r1 r2 : Decision (row_le o r1 r2) := _.

Definition order_rows (o : order_by) (rows : list (gmap string string))
    : list (gmap string string) :=
  merge_sort (row_le o) rows.

(** LIMIT and OFFSET: a negative OFFSET counts as 0, a negative LIMIT as
    no limit. *)
Definition window_rows {A} (window : option (Z * Z)) (rows : list A) : list A :=
  match window with
  | None => rows
  | Some (limit, offset) =>
      let rest := drop (Z.to_nat offset) rows in
      if limit <? 0 then rest else take (Z.to_nat limit) rest
  end.

Definition cell_of (v : option string) : cell :=
  match v with Some s => CStr s | None => CNone end.

Definition project (sel : list (string * string)) (rows : list (gmap string string))
    : frame :=
  map (fun cl => (snd cl, map (fun row => cell_of (row !! fst cl)) rows)) sel.

(** Name resolution in the select list and the WHERE clause: the first
    column of the statement the table lacks.  The script writes there only
    names it has read from [PRAGMA table_info], so they are looked up as
    they are spelled. *)
Definition unknown_column (t : table) (cols : list string) : option string :=
  find (fun c => negb (bool_decide (c ∈ t_cols t))) cols.

(** Name resolution in the ORDER BY expression, whose names the script
    writes without looking at the table.  Identifiers compare without
    regard to ASCII case. *)
Fixpoint same_name (a b : string) : bool :=
  match a, b with
  | EmptyString, EmptyString => true
  | String c a', String d b' => same_char c d && same_name a' b'
  | _, _ => false
  end.

(** The column of the table a name stands for (no two columns of a table
    are equal up to case), and the column the select list gives that name
    to as its label. *)
Definition table_column (t : table) (c : string) : option string :=
  if bool_decide (c ∈ t_cols t) then Some c else find (same_name c) (t_cols t).

Definition aliased (sel : list (string * string)) (c : string) : option string :=
  fst <$> find (fun cl => same_name c (snd cl)) sel.

(** A name inside a function call is a column of the table if there is
    one, else a label of the result; a name that is the whole expression
    is a label of the result if there is one, else a column of the table. *)
Definition resolve (t : table) (sel : list (string * string)) (o : order_by)
    (c : string) : option string :=
  match o with
  | Coalesce _ =>
      match table_column t c with Some c' => Some c' | None => aliased sel c end
  | Column _ =>
      match aliased sel c with Some c' => Some c' | None => table_column t c end
  end.

Definition unresolved (t : table) (sel : list (string * string)) (o : order_by)
    : option string :=
  find (fun c => negb (bool_decide (is_Some (resolve t sel o c)))) (order_columns o).

(** The ORDER BY expression over the columns its names stand for. *)
Definition resolved_order (t : table) (sel : list (string * string)) (o : order_by)
    : order_by :=
  match o with
  | Coalesce cols => Coalesce (omap (resolve t sel o) cols)
  | Column c => Column (default c (resolve t sel o c))
  end.

(** The first name of a SELECT that stands for nothing: select list, then
    WHERE, then ORDER BY. *)
Definition missing_name (t : table) (sel : list (string * string)) (w : list clause)
    (o : order_by) : option string :=
  match unknown_column t (map fst sel ++ where_columns w) with
  | Some c => Some c
  | None => unresolved t sel o
  end.

Definition no_such_table (name : string) : exn :=
  DatabaseError ("no such table: " +:+ name).
Definition no_such_column (name : string) : exn :=
  DatabaseError ("no such column: " +:+ name).
Definition bad_bindings : exn :=
  DatabaseError "Incorrect number of bindings supplied".

(** Preparing a statement over one table: the table must exist, every name
    must stand for something ([missing] finds one that does not), and the
    bound values must fill the placeholders. *)
Definition prepare (db : gmap string table) (name : string)
    (missing : table -> option string) (holes given : nat) : result table :=
  match db !! name with
  | None => Raise (no_such_table name)
  | Some t =>
      match missing t with
      | Some c => Raise (no_such_column c)
      | None => if bool_decide (holes = given) then Ok t else Raise bad_bindings
      end
  end.

Definition non_null (c : string) (rows : list (gmap string string)) : list string :=
  omap (fun row : gmap string string => row !! c) rows.

Definition text_le (a b : string) : Prop := Is_true (String.leb a b).
#[local] Instance text_le_dec a b : Decision (text_le a b) := _.

(** What SQLite answers, as the frame [pd.read_sql] builds from it.  Of
    [PRAGMA table_info] only the [name] column is kept; it answers with no
    row for a table that does not exist. *)
Definition eval (db : gmap string table) (s : statement) : result frame :=
  match s with
  | TableNames => Ok [("name", CStr <$> (map_to_list db).*1)]
  | TableInfo name =>
      Ok [("name", CStr <$> from_option t_cols [] (db !! name))]
  | CountRows name w bound =>
      match prepare db name (fun t => unknown_column t (where_columns w))
                    (placeholders w) (length bound) with
      | Ok t => Ok [("c", [CInt (Z.of_nat (length (filter (fun r => Is_true (keeps w bound r)) (t_rows t))))])]
      | Raise e => Raise e
      | Halt m => Halt m
      end
  | CountDistinct name c =>
      match prepare db name (fun t => unknown_column t [c]) 0 0 with
      | Ok t => Ok [("c", [CInt (Z.of_nat (size (list_to_set (C := gset string) (non_null c (t_rows t)))))])]
      | Raise e => Raise e
      | Halt m => Halt m
      end
  | DistinctValues name c =>
      match prepare db name (fun t => unknown_column t [c]) 0 0 with
      | Ok t => Ok [("v", CStr <$> merge_sort text_le
                            (elements (list_to_set (C := gset string) (non_null c (t_rows t)))))]
      | Raise e => Raise e
      | Halt m => Halt m
      end
  | SelectRows sel name w bound ord window =>
      match prepare db name (fun t => missing_name t sel w ord)
                    (placeholders w) (length bound) with
      | Ok t =>
          Ok (project sel
                (window_rows window
                   (order_rows (resolved_order t sel ord)
                      (filter (fun r => Is_true (keeps w bound r)) (t_rows t)))))
      | Raise e => Raise e
      | Halt m => Halt m
      end
  end.

(** The database behind a connection: its tables, and the statements whose
    execution fails for a reason outside the statement (an unreadable or
    locked file), with the exception raised. *)
Record connection := {
  db : gmap string table;
  fault : statement -> option exn
}.

Definition read_sql (con : connection) (s : statement) : result frame :=
  match fault con s with
  | Some e => Raise e
  | None => eval (db con) s
  end.

Definition healthy (tables : gmap string table) : connection :=
  {| db := tables; fault := fun _ => None |}.

End Sqlite.

(** ** Link formatting (lines 122-125, 255-262) *)

Module Render.
Import Frame.

(** [f'<a href="{u}" target="_blank">Open</a>'] *)
Definition anchor (u : string) : string :=
  "<a href=" +:+ Py.dq +:+ u +:+ Py.dq +:+ " target=" +:+ Py.dq +:+ "_blank"
  +:+ Py.dq +:+ ">Open</a>".

Definition is_http (u : string) : bool :=
  Py.startswith "http://" u || Py.startswith "https://" u.

(** [make_link(url)], and the lambda of [linkify], which is the same
    expression written inline. *)
Definition make_link (url : cell) : string :=
  match url with
  | CStr u => if is_http u then anchor u else EmptyString
  | _ => EmptyString
  end.

Definition link_cell (u : cell) : cell :=
  CStr (match u with
        | CStr s => if is_http s then anchor s else EmptyString
        | _ => EmptyString
        end).

(** [df_[col] = df_[col].apply(f)] on a frame whose labels are distinct. *)
Definition apply_column (f : cell -> cell) (col : string) (fr : frame) : frame :=
  map (fun lv => if String.eqb (fst lv) col then (fst lv, map f (snd lv)) else lv) fr.

Definition linkify_column (fr : frame) (col : string) : frame :=
  if bool_decide (col ∈ labels fr) then apply_column link_cell col fr else fr.

(** The loop of [linkify] over ["Map", "Website"], on the frame's content. *)
Definition linkify_frame (fr : frame) : frame :=
  fold_left linkify_column ["Map"; "Website"] fr.

(** What the loop amounts to, column by column. *)
Definition linked_column (lv : string * list cell) : string * list cell :=
  if bool_decide (fst lv ∈ ["Map"; "Website"])
  then (fst lv, map link_cell (snd lv)) else lv.

(** Frames are objects: a name holds a reference, [linkify] writes through
    the reference it is given and returns that same reference, [copy]
    makes a new object. *)
Definition copy (h : gmap nat frame) (df : nat) : gmap nat frame * nat :=
  let fresh_ref := fresh (dom h) in
  (<[fresh_ref := h !!! df]> h, fresh_ref).

Definition linkify (h : gmap nat frame) (df_ : nat) : gmap nat frame * nat :=
  (alter linkify_frame df_ h, df_).

(** [df = linkify(df.copy())] *)
Definition linkify_copy (h : gmap nat frame) (df : nat) : gmap nat frame * nat :=
  let (h1, c) := copy h df in linkify h1 c.

End Render.

(** ** The script, from table selection to the results block (lines 103-120, 127-275)

    The password gate and the one-time download come before and touch none
    of what follows; a run starts with the database file in place. *)

Module App.
Import Schema Filter Sql Frame Sqlite.

(** What the script puts on the page, one element for each call or group
    of calls that draws (the style sheet, widths and captions of buttons
    are left out). *)
Inductive element :=
| Heading                                   (* title and subtitle, lines 151-152 *)
| Sidebar (cities states : list string)     (* the filter widgets, lines 155-163 *)
| Kpis (total filtered cities zips : Z)     (* the four cards, lines 192-200 *)
| Divider                                   (* line 202 *)
| PagerLine (pg : Pager.pager)              (* Prev, Next and the info line, lines 212-222 *)
| ResultsHeading                            (* subheader and caption, lines 263-264 *)
| Table (shown : frame)                     (* [st.write(df.to_html(...))], line 265 *)
| PageCsv (data : frame)                    (* first download button, lines 267-268 *)
| FullCsv (data : frame)                    (* second download button, lines 272-273 *)
| Info (message : string)                   (* [st.info], line 275 *)
| Error (message : string)                  (* [st.error], lines 137 and 238 *)
| Footer.                                   (* line 278 *)

(** What a run reads and writes besides the database: the session state,
    the frame objects it has created, the page as drawn so far, oldest
    element first, and (for the record) the statements it has sent so far,
    oldest first. *)
Record world := {
  session : gmap string Z;
  frames : gmap nat frame;
  issued : list statement;
  display : list element
}.

Definition M (A : Type) : Type := world -> world * result A.

#[export] Instance M_ret : MRet M := fun A a w => (w, Ok a).
#[export] Instance M_bind : MBind M := fun A B k m w =>
  match m w with
  | (w', Ok a) => k a w'
  | (w', Raise e) => (w', Raise e)
  | (w', Halt msg) => (w', Halt msg)
  end.

Definition raise {A} (e : exn) : M A := fun w => (w, Raise e).

(** The world once more elements have been drawn. *)
Definition drew (w : world) (xs : list element) : world :=
  {| session := session w; frames := frames w; issued := issued w;
     display := display w ++ xs |}.

(** A call that draws: the element is on the page from then on, whatever
    happens next. *)
Definition draw (x : element) : M unit := fun w => (drew w [x], Ok tt).

(** [st.error(msg); st.stop()] *)
Definition stop {A} (msg : string) : M A := fun w => (drew w [Error msg], Halt msg).
Definition lift {A} (r : result A) : M A := fun w => (w, r).

(** [pd.read_sql(sql, con, params=...)]: the statement goes out, and either
    a new frame object comes back or the exception does. *)
Definition query (con : connection) (s : statement) : M nat := fun w =>
  let w1 := {| session := session w; frames := frames w;
               issued := issued w ++ [s]; display := display w |} in
  match read_sql con s with
  | Ok fr =>
      let r := fresh (dom (frames w1)) in
      ({| session := session w1; frames := <[r := fr]> (frames w1);
          issued := issued w1; display := display w1 |}, Ok r)
  | Raise e => (w1, Raise e)
  | Halt msg => (w1, Halt msg)
  end.

Definition deref (r : nat) : M frame := fun w => (w, Ok (frames w !!! r)).

Definition on_frames (f : gmap nat frame -> gmap nat frame * nat) : M nat := fun w =>
  let (h, r) := f (frames w) in
  ({| session := session w; frames := h; issued := issued w;
      display := display w |}, Ok r).

Definition on_session {A} (f : gmap string Z -> gmap string Z * A) : M A := fun w =>
  let (ss, a) := f (session w) in
  ({| session := ss; frames := frames w; issued := issued w;
      display := display w |}, Ok a).

(** [df[label].tolist()] *)
Definition tolist (label : string) (df : nat) : M (list cell) :=
  fr ← deref df; lift (column label fr).

(** [int(df["c"].iat[0])]; a count comes back as an integer, anything else
    is refused here. *)
Definition first_int (df : nat) : M Z :=
  vs ← tolist "c" df;
  match vs with
  | [] => raise IndexError
  | CInt z :: _ => mret z
  | _ :: _ => raise TypeError
  end.

Definition get_columns (con : connection) (table : string) : M (gset string) :=
  df ← query con (TableInfo table);
  names ← tolist "name" df;
  mret (list_to_set (strings names)).

Definition list_tables (con : connection) : M (list string) :=
  df ← query con TableNames;
  names ← tolist "name" df;
  mret (strings names).

Definition count_all (con : connection) (table : string) (w : list clause)
    (bound : list string) : M Z :=
  df ← query con (CountRows table w bound);
  first_int df.

Definition distinct_count (con : connection) (table col : string) : M Z :=
  cols ← get_columns con table;
  if has cols col then
    df ← query con (CountDistinct table col); first_int df
  else mret 0.

(** [...["v"].dropna().tolist()]; the values are the column's texts. *)
Definition value_list (con : connection) (table col : string) : M (list string) :=
  cols ← get_columns con table;
  if has cols col then
    df ← query con (DistinctValues table col);
    vs ← tolist "v" df;
    mret (strings vs)
  else mret [].

(** The widgets of one run: what the user has typed, picked and pressed. *)
Record widgets := {
  keyword : string;
  city_choice : string;
  state_choice : string;
  zip_text : string;
  page_size : Z;          (* number input, between 10 and 200 *)
  prev_pressed : bool;
  next_pressed : bool
}.

(** [st.selectbox(label, options)]: the chosen option, the first one until
    the user picks. *)
Definition selectbox (options : list string) (choice : string) : string :=
  if bool_decide (choice ∈ options) then choice else hd EmptyString options.

Definition pick (values : list string) (choice : string) : string :=
  match values with
  | [] => any
  | _ => selectbox (any :: values) choice
  end.

Inductive body :=
| Results (table_shown page_csv full_csv : frame)
| NoResults (message : string).

Record view := {
  total_rows : Z;
  filtered_rows : Z;
  n_cities : Z;
  n_zips : Z;
  pager : Pager.pager;
  results : body
}.

Definition choose_table (tables : list string) : M string :=
  if bool_decide ("records_norm" ∈ tables) then mret "records_norm"
  else if bool_decide ("records" ∈ tables) then mret "records"
  else stop "No 'records_norm' or 'records' table found in the database.".

(** Lines 261-275.  The table and the first download button are drawn
    before the export query is sent, the second button after it. *)
Definition results_block (con : connection) (table : string)
    (existing : gset string) (f : filters) (df : nat) : M body :=
  fr ← deref df;
  if negb (empty fr) then
    shown ← on_frames (fun h => Render.linkify_copy h df);
    page ← deref shown;
    draw ResultsHeading;;
    draw (Table page);;
    draw (PageCsv page);;
    full_df ← query con (export_query table existing f);
    full ← deref full_df;
    draw (FullCsv full);;
    mret (Results page page full)
  else
    draw (Info "No results. Adjust filters or keyword.");;
    mret (NoResults "No results. Adjust filters or keyword.").

Definition script (con : connection) (ui : widgets) : M view :=
  tables ← list_tables con;
  table ← choose_table tables;
  existing ← get_columns con table;
  city_list ← (if has existing "city" then value_list con table "city" else mret []);
  state_list ← (match state_field existing with
                | Some sf => if Py.truthy sf then value_list con table sf else mret []
                | None => mret []
                end);
  draw Heading;;
  draw (Sidebar city_list state_list);;
  let f := {| q := keyword ui;
              city := pick city_list (city_choice ui);
              state := pick state_list (state_choice ui);
              zip_like := zip_text ui |} in
  total ← count_all con table [] [];
  filtered ← count_all con table (where_clauses existing f) (params existing f);
  cities ← distinct_count con table "city";
  zips ← distinct_count con table
           (if has existing "postal_code_std" then "postal_code_std" else "postal_code");
  draw (Kpis total filtered cities zips);;
  draw Divider;;
  pg ← on_session (fun ss =>
         Pager.paginate ss filtered (page_size ui) (prev_pressed ui) (next_pressed ui));
  draw (PagerLine pg);;
  match select_list existing with
  | [] => stop "No expected columns found."
  | _ :: _ =>
      df ← query con (page_query table existing f (page_size ui) (Pager.pg_offset pg));
      b ← results_block con table existing f df;
      draw Footer;;
      mret {| total_rows := total; filtered_rows := filtered;
              n_cities := cities; n_zips := zips; pager := pg; results := b |}
  end.

(** A computation lets query failures through when every statement it
    sends that fails to execute ends it with that very exception. *)
Definition transparent (con : connection) {A} (m : M A) : Prop :=
  forall w0, exists sent,
    issued (fst (m w0)) = issued w0 ++ sent
    /\ forall s e, s ∈ sent -> read_sql con s = Raise e -> snd (m w0) = Raise e.

(** The export query is the SELECT without LIMIT and OFFSET. *)
Definition is_export (s : statement) : bool :=
  match s with SelectRows _ _ _ _ _ None => true | _ => false end.

(** The elements drawn before the page query is sent. *)
Definition early (x : element) : bool :=
  match x with
  | Heading | Sidebar _ _ | Kpis _ _ _ _ | Divider | PagerLine _ => true
  | _ => false
  end.

(** A computation of the part of the script that comes before the results
    block is orderly: it sends no export query; a statement of its own
    that fails to execute ends it with that very exception, and is the
    last it has sent; and unless it stops, all it draws are early
    elements. *)
Definition orderly (con : connection) {A} (m : M A) : Prop :=
  forall w0, exists sent drawn,
    issued (fst (m w0)) = issued w0 ++ sent
    /\ display (fst (m w0)) = display w0 ++ drawn
    /\ Forall (fun s => is_export s = false) sent
    /\ (forall s e, s ∈ sent -> read_sql con s = Raise e ->
          snd (m w0) = Raise e /\ last sent = Some s)
    /\ ((forall msg, snd (m w0) <> Halt msg) ->
        Forall (fun x => early x = true) drawn).

(** What is on the page when a statement has failed: early elements, and
    after them the heading, the table and the first download button of
    the results block if the statement is the export query, nothing
    otherwise. *)
Definition left_on_page (s : statement) (drawn : list element) : Prop :=
  exists front rest,
    drawn = front ++ rest
    /\ Forall (fun x => early x = true) front
    /\ if is_export s
       then exists shown, rest = [ResultsHeading; Table shown; PageCsv shown]
       else rest = [].

(** A computation is candid about failures when a statement of its own
    that fails to execute ends it with that very exception, is the last
    statement it has sent, and leaves on the page what [left_on_page]
    says. *)
Definition candid (con : connection) {A} (m : M A) : Prop :=
  forall w0, exists sent drawn,
    issued (fst (m w0)) = issued w0 ++ sent
    /\ display (fst (m w0)) = display w0 ++ drawn
    /\ forall s e, s ∈ sent -> read_sql con s = Raise e ->
         snd (m w0) = Raise e /\ last sent = Some s /\ left_on_page s drawn.

(** A run from a given session state. *)
Definition run (con : connection) (ss : gmap string Z) (ui : widgets)
    : world * result view :=
  script con ui {| session := ss; frames := ∅; issued := []; display := [] |}.

End App.

(** ** Sample data *)

Module Sample.
Import Filter Sqlite App.

Definition row (cells : list (string * string)) : gmap string string :=
  list_to_map cells.

(** A table in the normalized layout, and one with raw columns only. *)
Definition directory : table :=
  {| t_cols := ["name_std"; "name"; "city"; "state"; "postal_code"; "site";
                "location_link"];
     t_rows :=
       [ row [("name_std", "bright dental"); ("name", "Bright Dental");
              ("city", "San Francisco"); ("state", "CA");
              ("postal_code", "94102"); ("site", "http://bright.example")];
         row [("name", "Acme Smiles"); ("city", "Sacramento"); ("state", "CA");
              ("postal_code", "94203"); ("site", "ftp://x.com")];
         row [("name_std", "city dental"); ("city", "San Francisco");
              ("state", "CA"); ("postal_code", "94107");
              ("location_link", "https://maps.example/city")];
         row [("name_std", "maple dental"); ("city", "Ottawa"); ("state", "ON");
              ("postal_code", "K1A 0B1")] ] |}.

Definition raw_only : table :=
  {| t_cols := ["name"; "city"];
     t_rows := [ row [("name", "Acme Smiles"); ("city", "Sacramento")] ] |}.

(** A table with the normalized name column only. *)
Definition std_only : table :=
  {| t_cols := ["name_std"; "city"];
     t_rows := [ row [("name_std", "maple dental"); ("city", "Ottawa")];
                 row [("city", "Sacramento")];
                 row [("name_std", "bright dental"); ("city", "San Francisco")] ] |}.

(** The three postal codes of the ZIP scenario. *)
Definition three_zips : table :=
  {| t_cols := ["name"; "postal_code"];
     t_rows := [ row [("name", "a"); ("postal_code", "94102")];
                 row [("name", "b"); ("postal_code", "94203")];
                 row [("name", "c"); ("postal_code", "94107")] ] |}.

Definition columns_of (t : table) : gset string := list_to_set (t_cols t).

(** The row of [directory] with a Canadian postal code. *)
Definition maple : gmap string string :=
  row [("name_std", "maple dental"); ("city", "Ottawa"); ("state", "ON");
       ("postal_code", "K1A 0B1")].

Definition nothing_set : filters :=
  {| q := EmptyString; city := any; state := any; zip_like := EmptyString |}.

Definition zip_941 : filters :=
  {| q := EmptyString; city := any; state := any; zip_like := " 941 " |}.

Definition busy : filters :=
  {| q := "dental"; city := "San Francisco"; state := "CA"; zip_like := "941" |}.

Definition other_busy : filters :=
  {| q := "x' OR 1=1 --"; city := "Ottawa"; state := "ON"; zip_like := "K1A%" |}.

(** A fetched page as [pd.read_sql] returns it. *)
Definition fetched : Frame.frame :=
  [ ("Name", [Frame.CStr "Acme Smiles"; Frame.CStr "bright dental"; Frame.CStr "city dental"]);
    ("Map", [Frame.CNone; Frame.CNone; Frame.CStr "https://maps.example/city"]);
    ("Website", [Frame.CStr "ftp://x.com"; Frame.CStr "http://bright.example"; Frame.CNone]) ].

(** A connection to [directory] on which the export query fails and
    nothing else does. *)
Definition export_fails : connection :=
  {| db := {[ "records" := directory ]};
     fault := fun s => match s with
                       | Sql.SelectRows _ _ _ _ _ None =>
                           Some (Frame.DatabaseError "disk I/O error")
                       | _ => None
                       end |}.

(** A connection to [directory] on which counting fails, as it does on a
    locked or damaged file. *)
Definition locked : connection :=
  {| db := {[ "records" := directory ]};
     fault := fun s => match s with
                       | Sql.CountRows _ _ _ =>
                           Some (Frame.DatabaseError "database is locked")
                       | _ => None
                       end |}.

Definition first_visit : widgets :=
  {| keyword := EmptyString; city_choice := any; state_choice := any;
     zip_text := EmptyString; page_size := 50;
     prev_pressed := false; next_pressed := false |}.

End Sample.

(** ** Reading aids for the further properties *)

Module Reading.
Import Filter Sqlite.

(** [text] holds [q] somewhere, letters compared without regard to ASCII
    case. *)
Fixpoint contains (q text : string) : bool :=
  begins_with q text
  || match text with
     | EmptyString => false
     | String _ text' => contains q text'
     end.

(** The filter set with nothing but a keyword typed in. *)
Definition only_keyword (k : string) : filters :=
  {| q := k; city := any; state := any; zip_like := EmptyString |}.

(** What each of the four filters asks of a row, in SQLite's terms. *)
Definition keyword_test (e : gset string) (f : filters) (row : gmap string string)
    : Prop :=
  exists c text, c ∈ Schema.kw_fields e /\ row !! c = Some text
                 /\ like ("%" +:+ q f +:+ "%") text = true.

Definition city_test (f : filters) (row : gmap string string) : Prop :=
  row !! "city" = Some (city f).

Definition state_test (e : gset string) (f : filters) (row : gmap string string)
    : Prop :=
  exists sf, Schema.state_field e = Some sf /\ row !! sf = Some (state f).

Definition zip_test (e : gset string) (f : filters) (row : gmap string string)
    : Prop :=
  exists zf text, Schema.zip_field e = Some zf /\ row !! zf = Some text
                  /\ like (Py.strip (zip_like f) +:+ "%") text = true.

(** The labels of the results table, in display order. *)
Definition all_labels : list string :=
  ["Name"; "Phone"; "Address"; "City"; "State"; "ZIP"; "Country"; "Map"; "Website"].

(** The column behind each label. *)
Definition label_column (e : gset string) (label : string) : string :=
  if String.eqb label "Name"
  then (if Schema.has e "name_std" then "name_std" else "name")
  else if String.eqb label "Phone" then "phone"
  else if String.eqb label "Address" then "full_address"
  else if String.eqb label "City" then "city"
  else if String.eqb label "State" then field_name (Schema.state_field e)
  else if String.eqb label "ZIP" then field_name (Schema.zip_field e)
  else if String.eqb label "Country" then "country"
  else if String.eqb label "Map" then "location_link"
  else if String.eqb label "Website" then "site"
  else EmptyString.

(** The test and relabelling [select_list] applies to one schema entry. *)
Definition keep_present (e : gset string) (cl : option string * option string)
    : option (string * string) :=
  if Schema.present e (fst cl)
  then Some (field_name (fst cl), default "None" (snd cl)) else None.

(** The world once a statement has been answered with a frame. *)
Definition after_query (w : App.world) (s : Sql.statement) (fr : Frame.frame)
    : App.world :=
  {| App.session := App.session w;
     App.frames := <[fresh (dom (App.frames w)) := fr]> (App.frames w);
     App.issued := App.issued w ++ [s];
     App.display := App.display w |}.

(** The columns of a table of the database, none for a missing table. *)
Definition columns_in (tables : gmap string table) (t : string) : list string :=
  from_option t_cols [] (tables !! t).

(** The rows page [k] of the page query shows, out of the rows the export
    query returns, and pages 1 to [n] laid end to end. *)
Definition page_rows {A} (rows : list A) (page_size k : Z) : list A :=
  window_rows (Some (page_size, (k - 1) * page_size)) rows.

Fixpoint pages_upto {A} (rows : list A) (page_size : Z) (n : nat) : list A :=
  match n with
  | O => []
  | S n' => pages_upto rows page_size n' ++ page_rows rows page_size (Z.of_nat n)
  end.

(** The rows the page and export queries work on: kept by the WHERE
    clause, in ORDER BY order. *)
Definition result_rows (e : gset string) (f : filters) (tbl : table)
    : list (gmap string string) :=
  order_rows (Sql.order_of e (Sql.selected e))
    (filter (fun r => Is_true (keeps (where_clauses e f) (params e f) r)) (t_rows tbl)).

(** A table whose rows the script cannot order: it has a name column, and
    no column called name_std in any spelling of upper and lower case. *)
Definition stranded (tbl : table) : bool :=
  bool_decide ("name" ∈ t_cols tbl)
  && forallb (fun c => negb (same_name "name_std" c)) (t_cols tbl).

(** The table the script settles on: records_norm before records. *)
Definition working_table (tables : gmap string table) : option string :=
  if bool_decide (is_Some (tables !! "records_norm")) then Some "records_norm"
  else if bool_decide (is_Some (tables !! "records")) then Some "records"
  else None.

(** The distinct non-NULL texts of a column in ascending order, and their
    number; nothing and 0 for a column the table lacks. *)
Definition distinct_values (tbl : table) (c : string) : list string :=
  if bool_decide (c ∈ t_cols tbl)
  then @merge_sort _ text_le Sqlite.text_le_dec
         (elements (list_to_set (C := gset string) (non_null c (t_rows tbl))))
  else [].

Definition distinct_number (tbl : table) (c : string) : Z :=
  if bool_decide (c ∈ t_cols tbl)
  then Z.of_nat (size (list_to_set (C := gset string) (non_null c (t_rows tbl))))
  else 0.

(** The filter set a run works with: the text inputs as typed, the select
    boxes offering the values found in the table. *)
Definition filters_of (tbl : table) (ui : App.widgets) : filters :=
  let e : gset string := list_to_set (t_cols tbl) in
  {| q := App.keyword ui;
     city := App.pick (distinct_values tbl "city") (App.city_choice ui);
     state := App.pick (match Schema.state_field e with
                        | Some sf => distinct_values tbl sf
                        | None => []
                        end) (App.state_choice ui);
     zip_like := App.zip_text ui |}.

(** What a run over a healthy connection puts on screen. *)
Definition view_of (tbl : table) (ss : gmap string Z) (ui : App.widgets) : App.view :=
  let e : gset string := list_to_set (t_cols tbl) in
  let f := filters_of tbl ui in
  let rows := result_rows e f tbl in
  let pg := snd (Pager.paginate ss (Z.of_nat (length rows)) (App.page_size ui)
                   (App.prev_pressed ui) (App.next_pressed ui)) in
  let page := project (Sql.selected e)
                (window_rows (Some (App.page_size ui, Pager.pg_offset pg)) rows) in
  {| App.total_rows := Z.of_nat (length (t_rows tbl));
     App.filtered_rows := Z.of_nat (length rows);
     App.n_cities := distinct_number tbl "city";
     App.n_zips := distinct_number tbl
                     (if Schema.has e "postal_code_std"
                      then "postal_code_std" else "postal_code");
     App.pager := pg;
     App.results :=
       if Frame.empty page
       then App.NoResults "No results. Adjust filters or keyword."
       else App.Results (Render.linkify_frame page) (Render.linkify_frame page)
                        (project (Sql.selected e) rows) |}.

End Reading.

(** ** What a run sends and writes *)

Module Conduct.
Import Schema Filter Sql Frame Sqlite App.

(** The table a statement reads, if it names one. *)
Definition statement_table (s : statement) : option string :=
  match s with
  | TableNames => None
  | TableInfo t => Some t
  | CountRows t _ _ => Some t
  | CountDistinct t _ => Some t
  | DistinctValues t _ => Some t
  | SelectRows _ t _ _ _ _ => Some t
  end.

(** A computation is well behaved with respect to [P] when all it sends
    are statements satisfying [P] and all it writes in the session state
    is the page number. *)
Definition behaves (P : statement -> Prop) {A} (m : M A) : Prop :=
  forall w0,
    (exists sent, issued (fst (m w0)) = issued w0 ++ sent /\ Forall P sent)
    /\ (forall k, k <> "page" ->
                  session (fst (m w0)) !! k = session w0 !! k).

(** The script once the working table is known (everything after the
    table selection of lines 130-138). *)
Definition script_from_table (con : connection) (ui : widgets) (table : string)
    : M view :=
  existing ← get_columns con table;
  city_list ← (if has existing "city"
               then value_list con table "city" else mret []);
  state_list ← (match state_field existing with
                | Some sf => if Py.truthy sf then value_list con table sf
                             else mret []
                | None => mret []
                end);
  draw Heading;;
  draw (Sidebar city_list state_list);;
  let f := {| q := keyword ui;
              city := pick city_list (city_choice ui);
              state := pick state_list (state_choice ui);
              zip_like := zip_text ui |} in
  total ← count_all con table [] [];
  filtered ← count_all con table (where_clauses existing f) (params existing f);
  cities ← distinct_count con table "city";
  zips ← distinct_count con table
           (if has existing "postal_code_std"
            then "postal_code_std" else "postal_code");
  draw (Kpis total filtered cities zips);;
  draw Divider;;
  pg ← on_session (fun ss =>
         Pager.paginate ss filtered (page_size ui)
           (prev_pressed ui) (next_pressed ui));
  draw (PagerLine pg);;
  match select_list existing with
  | [] => stop "No expected columns found."
  | _ :: _ =>
      df ← query con (page_query table existing f (page_size ui)
                            (Pager.pg_offset pg));
      b ← results_block con table existing f df;
      draw Footer;;
      mret {| total_rows := total; filtered_rows := filtered;
              n_cities := cities; n_zips := zips; pager := pg;
              results := b |}
  end.

End Conduct.

(** ** The password gate (lines 9-30) *)

Module Gate.

(** A value kept in [st.session_state]. *)
Inductive value := VStr (s : string) | VBool (b : bool) | VInt (z : Z).

(** Truth value of such a value, as [not] sees it. *)
Definition truth (v : value) : bool :=
  match v with
  | VStr s => Py.truthy s
  | VBool b => b
  | VInt z => negb (z =? 0)
  end.

Inductive failure := KeyError (key : string) | AttributeError.

(** What [check_password] draws and returns. *)
Record screen := {
  input_shown : bool;      (* the password text input *)
  error_shown : bool;      (* the Wrong password message *)
  granted : bool           (* the value returned *)
}.

Section Hash.

(** [hashlib.sha256(s.encode()).hexdigest()], and the secret read from the
    environment (the empty string when the variable is not set). *)
Variable sha256_hex : string -> string.
Variable APP_PASSWORD : string.

(** The callback of the text input: it reads the key "password", records
    whether the hashes agree, and deletes the key. *)
Definition password_entered (ss : gmap string value)
    : gmap string value + failure :=
  match ss !! "password" with
  | None => inr (KeyError "password")
  | Some (VStr typed) =>
      let ok := String.eqb (sha256_hex typed) (sha256_hex APP_PASSWORD) in
      let ss1 := <["password_ok" := VBool ok]> ss in
      inl (if bool_decide (is_Some (ss1 !! "password"))
           then delete "password" ss1 else ss1)
  | Some _ => inr AttributeError
  end.

Definition check_password (ss : gmap string value) : screen :=
  match ss !! "password_ok" with
  | None => {| input_shown := true; error_shown := false; granted := false |}
  | Some v =>
      if negb (truth v)
      then {| input_shown := true; error_shown := true; granted := false |}
      else {| input_shown := false; error_shown := false; granted := true |}
  end.

(** The user submits a text: the widget stores it under its key and the
    callback runs before the script does. *)
Definition submit (typed : string) (ss : gmap string value)
    : gmap string value + failure :=
  password_entered (<["password" := VStr typed]> ss).

End Hash.

End Gate.

(** ** The one-time download (lines 76-98) *)

Module Bootstrap.

(** What the server does with the request: no connection, an error status,
    or a body that arrives in chunks and may break off with an exception.
    [length_header] is what [int(...)] makes of the Content-Length header:
    [None] when it does not parse, 0 when the header is missing. *)
Inductive response :=
| Unreachable (reason : string)
| BadStatus (reason : string)
| Body (length_header : option Z) (chunks : list (list Byte.byte))
       (broken : option string).

Inductive ending :=
| Proceed                 (* the script goes on *)
| Stopped (message : string).

(** The loop over [iter_content]: a non-empty chunk is written and
    counted; the progress bar, fed [min(1.0, wrote / total)] when [total]
    is not 0, refuses a negative value with an exception.  Returns the file
    and [None] when the chunks are used up, or the exception's text. *)
Fixpoint receive (total : Z) (chunks : list (list Byte.byte))
    (file : list Byte.byte) (wrote : Z) : list Byte.byte * option string :=
  match chunks with
  | [] => (file, None)
  | chunk :: rest =>
      match chunk with
      | [] => receive total rest file wrote
      | _ :: _ =>
          let file' := file ++ chunk in
          let wrote' := wrote + Z.of_nat (length chunk) in
          if total <? 0 then (file', Some "Progress Value has invalid value")
          else receive total rest file' wrote'
      end
  end.

(** The block guarded by [if not os.path.exists(DB_PATH)].  The file
    system is the content of data.db, if the file exists. *)
Definition bootstrap (DB_URL : string) (server : response)
    (file : option (list Byte.byte)) : option (list Byte.byte) * ending :=
  match file with
  | Some _ => (file, Proceed)
  | None =>
      if negb (Py.truthy DB_URL)
      then (None, Stopped "DB_URL is not set. Please configure it in Streamlit secrets.")
      else
        match server with
        | Unreachable reason => (None, Stopped ("Failed to download DB: " +:+ reason))
        | BadStatus reason => (None, Stopped ("Failed to download DB: " +:+ reason))
        | Body None _ _ =>
            (None, Stopped "Failed to download DB: invalid literal for int()")
        | Body (Some total) chunks broken =>
            match receive total chunks [] 0 with
            | (written, Some reason) =>
                (Some written, Stopped ("Failed to download DB: " +:+ reason))
            | (written, None) =>
                match broken with
                | Some reason =>
                    (Some written, Stopped ("Failed to download DB: " +:+ reason))
                | None => (Some written, Proceed)
                end
            end
        end
  end.

End Bootstrap.

(** * Properties *)

(** ** Pagination *)

Section PagerFacts.
Import Pager.

Lemma ceil_div_floor (R P : Z) :
  1 <= P -> (R + P - 1) / P = - ((- R) / P).
Proof.
  intros HP.
  pose proof (Z.div_mod (- R) P ltac:(lia)) as Hdm.
  pose proof (Z.mod_pos_bound (- R) P ltac:(lia)) as Hb.
  symmetry. apply (Z.div_unique_pos _ _ _ (P - 1 - (- R) mod P)); lia.
Qed.

Lemma Qceiling_ratio (R P : Z) :
  1 <= P -> Qceiling (inject_Z R / inject_Z P) = - ((- R) / P).
Proof.
  intros HP. destruct P as [|p|p]; try lia.
  unfold Qceiling, Qdiv, Qinv, Qmult, Qopp, Qfloor, inject_Z. simpl.
  now rewrite Z.mul_1_r.
Qed.

Lemma max_page_ceiling (R P : Z) :
  1 <= P -> max_page R P = Z.max 1 (Qceiling (inject_Z R / inject_Z P)).
Proof.
  intros HP. unfold max_page.
  now rewrite Qceiling_ratio, ceil_div_floor.
Qed.

Lemma max_page_pos (R P : Z) : 1 <= max_page R P.
Proof. unfold max_page. lia. Qed.

Lemma page_total (ss : gmap string Z) (p : Z) :
  ss !! "page" = Some p -> ss !!! "page" = p.
Proof. intros H. now rewrite lookup_total_alt, H. Qed.

Lemma init_page_lookup (ss : gmap string Z) :
  init_page ss !! "page" = Some (default 1 (ss !! "page")).
Proof.
  unfold init_page. destruct (ss !! "page") as [p|] eqn:E; simpl.
  - exact E.
  - apply lookup_insert_eq.
Qed.

Lemma clamped_range (p m : Z) : 1 <= m -> 1 <= clamped p m <= m.
Proof.
  intros Hm. unfold clamped.
  destruct (p >? m) eqn:E1; [ destruct (m <? 1) eqn:E2 | destruct (p <? 1) eqn:E2 ]; lia.
Qed.

Lemma clamped_max_min (p m : Z) : 1 <= m -> clamped p m = Z.max 1 (Z.min p m).
Proof.
  intros Hm. unfold clamped.
  destruct (p >? m) eqn:E1; [ destruct (m <? 1) eqn:E2 | destruct (p <? 1) eqn:E2 ]; lia.
Qed.

Lemma clamp_page_lookup (ss : gmap string Z) (p m : Z) :
  ss !! "page" = Some p -> clamp_page ss m !! "page" = Some (clamped p m).
Proof.
  intros H. unfold clamp_page, clamped. rewrite (page_total _ _ H).
  destruct (p >? m).
  - rewrite (page_total _ m) by apply lookup_insert_eq.
    destruct (m <? 1); apply lookup_insert_eq.
  - rewrite (page_total _ _ H). destruct (p <? 1); [apply lookup_insert_eq | exact H].
Qed.

Lemma press_prev_lookup (ss : gmap string Z) (p : Z) (prev : bool) :
  ss !! "page" = Some p -> press_prev ss prev !! "page" = Some (after_prev p prev).
Proof.
  intros H. unfold press_prev, after_prev. rewrite (page_total _ _ H).
  destruct (prev && (p >? 1)); [apply lookup_insert_eq | exact H].
Qed.

Lemma press_next_lookup (ss : gmap string Z) (p m : Z) (next : bool) :
  ss !! "page" = Some p -> press_next ss m next !! "page" = Some (after_next p m next).
Proof.
  intros H. unfold press_next, after_next. rewrite (page_total _ _ H).
  destruct (next && (p <? m)); [apply lookup_insert_eq | exact H].
Qed.

Lemma after_buttons_range (p m : Z) (prev next : bool) :
  1 <= p <= m -> 1 <= after_next (after_prev p prev) m next <= m.
Proof.
  intros H. unfold after_next, after_prev.
  destruct prev, next; simpl;
    repeat match goal with |- context [ ?a >? ?b ] => destruct (Z.gtb_spec a b) end;
    repeat match goal with |- context [ ?a <? ?b ] => destruct (Z.ltb_spec a b) end; lia.
Qed.

(** Everything [paginate] computes, in terms of the stored page. *)
Lemma paginate_spec (ss : gmap string Z) (R P : Z) (prev next : bool) :
  let m := max_page R P in
  let p := clamped (default 1 (ss !! "page")) m in
  let '(ss', pg) := paginate ss R P prev next in
  pg_max_page pg = m /\ pg_page_used pg = p /\ pg_offset pg = (p - 1) * P /\
  ss' !! "page" = Some (after_next (after_prev p prev) m next) /\
  pg_page_shown pg = after_next (after_prev p prev) m next.
Proof.
  simpl. unfold offset_of.
  pose proof (clamp_page_lookup _ _ (max_page R P) (init_page_lookup ss)) as Hc.
  pose proof (press_prev_lookup _ _ prev Hc) as Hp.
  pose proof (press_next_lookup _ _ (max_page R P) next Hp) as Hn.
  rewrite (page_total _ _ Hc), (page_total _ _ Hn). auto.
Qed.

End PagerFacts.

Section PagerClaims.
Import Pager.

(** C1: for a filtered row count [R >= 0] and a page size [P >= 1] the
    maximum page is [max(1, ceil(R/P))]; the page the query uses is the
    stored page clamped into [[1, maxPage]] (page 1 for a fresh session),
    and the offset is computed from that clamped page.  With 105 rows and
    a page size of 50 there are 3 pages and a stored page 4 becomes 3. *)
Theorem C1_max_page_and_clamp (ss : gmap string Z) (R P : Z) (prev next : bool) :
  0 <= R -> 1 <= P ->
  let pg := snd (paginate ss R P prev next) in
  let stored := default 1 (ss !! "page") in
  pg_max_page pg = Z.max 1 (Qceiling (inject_Z R / inject_Z P)) /\
  1 <= pg_page_used pg <= pg_max_page pg /\
  pg_page_used pg = Z.max 1 (Z.min stored (pg_max_page pg)) /\
  pg_offset pg = (pg_page_used pg - 1) * P /\
  max_page 105 50 = 3 /\
  page_used (<["page" := 4]> ∅) 105 50 = 3.
Proof.
  intros HR HP pg stored. subst pg stored.
  pose proof (paginate_spec ss R P prev next) as H. cbv zeta in H.
  destruct (paginate ss R P prev next) as [ss' pg]. simpl.
  destruct H as (Hm & Hu & Ho & _).
  pose proof (max_page_pos R P) as Hpos.
  rewrite Hm, Hu, Ho.
  repeat split.
  - now apply max_page_ceiling.
  - now apply clamped_range.
  - now apply clamped_range.
  - now apply clamped_max_min.
Qed.

Lemma C1_witness :
  let pg := snd (paginate (<["page" := 4]> ∅) 105 50 false true) in
  pg_max_page pg = Z.max 1 (Qceiling (inject_Z 105 / inject_Z 50)) /\
  1 <= pg_page_used pg <= pg_max_page pg /\
  pg_page_used pg = Z.max 1 (Z.min (default 1 ((<["page" := 4]> ∅ : gmap string Z) !! "page")) (pg_max_page pg)) /\
  pg_offset pg = (pg_page_used pg - 1) * 50 /\
  max_page 105 50 = 3 /\
  page_used (<["page" := 4]> ∅) 105 50 = 3.
Proof. apply (C1_max_page_and_clamp (<["page" := 4]> ∅) 105 50 false true); lia. Defined.

Lemma reachable_page (ss : gmap string Z) :
  reachable ss -> ss = ∅ \/ exists p, ss !! "page" = Some p /\ 1 <= p.
Proof.
  induction 1 as [|ss i _ _ _]; [now left | right].
  pose proof (paginate_spec ss (i_filtered_rows i) (i_page_size i) (i_prev i) (i_next i)) as H.
  cbv zeta in H. unfold step.
  destruct (paginate ss _ _ _ _) as [ss' pg]. simpl.
  destruct H as (_ & _ & _ & Hs & _). eexists; split; [exact Hs|].
  apply after_buttons_range, clamped_range, max_page_pos.
Qed.

(** C9: a fresh session starts on page 1; Next adds one only below the
    maximum page, Prev subtracts one only above page 1; and from every
    reachable session state the page a run uses, and the page it stores
    for the next run, lie in [[1, maxPage]]. *)
Theorem C9_pager_state_machine (ss : gmap string Z) (i : interaction) :
  reachable ss -> plausible i ->
  let m := max_page (i_filtered_rows i) (i_page_size i) in
  let p := page_used ss (i_filtered_rows i) (i_page_size i) in
  let p' := step ss i !!! "page" in
  init_page ∅ !! "page" = Some 1 /\
  1 <= p <= m /\
  1 <= p' <= m /\
  (i_prev i = false -> i_next i = true -> p' = if p <? m then p + 1 else p) /\
  (i_prev i = true -> i_next i = false -> p' = if p >? 1 then p - 1 else p) /\
  (i_prev i = false -> i_next i = false -> p' = p).
Proof.
  intros _ _ m p p'. subst m p p'. unfold page_used, step.
  pose proof (paginate_spec ss (i_filtered_rows i) (i_page_size i) false false) as H0.
  pose proof (paginate_spec ss (i_filtered_rows i) (i_page_size i) (i_prev i) (i_next i)) as H.
  cbv zeta in H0, H.
  destruct (paginate ss _ _ false false) as [ss0 pg0].
  destruct (paginate ss _ _ (i_prev i) (i_next i)) as [ss' pg]. simpl.
  destruct H0 as (_ & Hu & _). destruct H as (_ & _ & _ & Hs & _).
  rewrite Hu, (page_total _ _ Hs).
  pose proof (clamped_range (default 1 (ss !! "page")) _
                (max_page_pos (i_filtered_rows i) (i_page_size i))) as Hr.
  split; [reflexivity|]. split; [exact Hr|].
  split; [now apply after_buttons_range|].
  repeat split; intros -> ->; unfold after_next, after_prev; simpl; try reflexivity.
Qed.

Lemma C9_witness :
  let ss := step ∅ sample_interaction in
  let i := sample_interaction in
  let m := max_page (i_filtered_rows i) (i_page_size i) in
  let p := page_used ss (i_filtered_rows i) (i_page_size i) in
  let p' := step ss i !!! "page" in
  init_page ∅ !! "page" = Some 1 /\
  1 <= p <= m /\
  1 <= p' <= m /\
  (i_prev i = false -> i_next i = true -> p' = if p <? m then p + 1 else p) /\
  (i_prev i = true -> i_next i = false -> p' = if p >? 1 then p - 1 else p) /\
  (i_prev i = false -> i_next i = false -> p' = p).
Proof.
  apply (C9_pager_state_machine (step ∅ sample_interaction) sample_interaction).
  - apply reach_step; [apply reach_fresh | unfold plausible; simpl; lia].
  - unfold plausible; simpl; lia.
Defined.

End PagerClaims.

(** ** Schema and filter builder *)

(** Membership in a list written out. *)
Ltac in_list := repeat first [apply list_elem_of_here | apply list_elem_of_further].

(** Case analysis on the four guards of the builder. *)
Ltac split_guards e f :=
  destruct (Py.truthy (Filter.q f)
            && negb (bool_decide (Schema.kw_fields e = [])));
  destruct (Schema.has e "city" && Filter.differs (Filter.city f) Filter.any);
  destruct (Filter.truthy_field (Schema.state_field e)
            && Filter.differs (Filter.state f) Filter.any);
  destruct (Filter.truthy_field (Schema.zip_field e)
            && Py.truthy (Py.strip (Filter.zip_like f))).

Section FilterFacts.
Import Schema Filter.

Lemma has_elem (e : gset string) (c : string) : has e c = true <-> c ∈ e.
Proof. unfold has. apply bool_decide_eq_true. Qed.

Lemma prefer_some (e : gset string) (a b c : string) :
  prefer e a b = Some c -> (c = a \/ c = b) /\ has e c = true.
Proof.
  unfold prefer. destruct (has e a) eqn:Ha; [|destruct (has e b) eqn:Hb];
    intros [= <-]; auto.
Qed.

Lemma prefer_none (e : gset string) (a b : string) :
  prefer e a b = None -> has e a = false /\ has e b = false.
Proof.
  unfold prefer. destruct (has e a); [discriminate|].
  destruct (has e b); [discriminate|]. auto.
Qed.

Lemma kw_fields_elem (e : gset string) (c : string) :
  c ∈ kw_fields e ->
  c ∈ ["name_std"; "name"; "full_address"; "site"] /\ has e c = true.
Proof.
  unfold kw_fields. intros H. apply list_elem_of_omap in H as (oc & Hin & Hoc).
  destruct (present e oc) eqn:Hp; [|discriminate]. subst oc.
  simpl in Hp. apply andb_true_iff in Hp as [_ Hp]. split; [|exact Hp].
  apply elem_of_cons in Hin as [Hn | Hin].
  - symmetry in Hn. apply prefer_some in Hn as [[-> | ->] _]; in_list.
  - repeat (apply elem_of_cons in Hin as [[= ->] | Hin]; [in_list|]).
    now apply elem_of_nil in Hin.
Qed.

(** [build_where] block by block: what each guard appends. *)
Lemma build_where_blocks (e : gset string) (f : filters) :
  let a := active e f in
  build_where e f =
  ((if kw_on a
    then ["(" +:+ Py.join " OR " (map (fun c => c +:+ " LIKE ?") (kw_fields e)) +:+ ")"]
    else [])
   ++ (if city_on a then ["city = ?"] else [])
   ++ (if state_on a then [field_name (state_field e) +:+ " = ?"] else [])
   ++ (if zip_on a then [field_name (zip_field e) +:+ " LIKE ?"] else []),
   (if kw_on a then repeat ("%" +:+ q f +:+ "%") (length (kw_fields e)) else [])
   ++ (if city_on a then [city f] else [])
   ++ (if state_on a then [state f] else [])
   ++ (if zip_on a then [Py.strip (zip_like f) +:+ "%"] else [])).
Proof.
  unfold build_where, add_zip, add_state, add_city, add_keyword, active. simpl.
  split_guards e f; simpl; rewrite <- ?app_assoc, ?app_nil_r; reflexivity.
Qed.

(** The rendered terms are the strings the script builds. *)
Lemma where_clauses_render (e : gset string) (f : filters) :
  map render_clause (where_clauses e f) = fst (build_where e f).
Proof.
  rewrite build_where_blocks. unfold where_clauses, active. simpl.
  split_guards e f; simpl; rewrite ?map_map; reflexivity.
Qed.

Lemma where_sql_render (e : gset string) (f : filters) :
  where_sql_of (map render_clause (where_clauses e f)) = where_sql e f.
Proof. unfold where_sql. now rewrite where_clauses_render. Qed.

(** Every column a WHERE clause names is a column of the table. *)
Lemma where_columns_exist (e : gset string) (f : filters) (c : string) :
  c ∈ where_columns (where_clauses e f) -> c ∈ e.
Proof.
  unfold where_clauses, where_columns, active. simpl.
  rewrite !flat_map_app, !elem_of_app.
  intros [H | [H | [H | H]]].
  - destruct (Py.truthy (q f) && _); simpl in H; [|set_solver].
    rewrite app_nil_r, map_map in H. simpl in H. rewrite map_id in H.
    now apply has_elem, kw_fields_elem.
  - destruct (has e "city") eqn:Hc; simpl in H; [|set_solver].
    destruct (differs (city f) any); simpl in H; [|set_solver].
    apply list_elem_of_singleton in H as ->. now apply has_elem.
  - destruct (state_field e) as [sf|] eqn:Hs; simpl in H; [|set_solver].
    destruct (Py.truthy sf && differs (state f) any); simpl in H; [|set_solver].
    apply prefer_some in Hs as [_ Hs].
    apply list_elem_of_singleton in H as ->. now apply has_elem.
  - destruct (zip_field e) as [zf|] eqn:Hz; simpl in H; [|set_solver].
    destruct (Py.truthy zf && Py.truthy (Py.strip (zip_like f))); simpl in H; [|set_solver].
    apply prefer_some in Hz as [_ Hz].
    apply list_elem_of_singleton in H as ->. now apply has_elem.
Qed.

Lemma params_length (e : gset string) (f : filters) :
  length (params e f) = placeholders (where_clauses e f).
Proof.
  unfold params, placeholders, where_columns. rewrite build_where_blocks.
  unfold where_clauses, active. simpl.
  split_guards e f; simpl; rewrite ?length_app, ?app_nil_r, ?length_map, ?repeat_length; simpl; lia.
Qed.

End FilterFacts.

(** ** Placeholders in the generated text *)

Section Placeholders.
Import Schema Filter Sql.

Lemma count_char_app (c : ascii) (a b : string) :
  Py.count_char c (a +:+ b) = (Py.count_char c a + Py.count_char c b)%nat.
Proof. induction a as [|d a IH]; simpl; [reflexivity | rewrite IH; lia]. Qed.

Lemma qmarks_app (a b : string) : qmarks (a +:+ b) = (qmarks a + qmarks b)%nat.
Proof. apply count_char_app. Qed.

(** Joining with a separator free of [?] adds no placeholder. *)
Lemma qmarks_join (sep : string) (l : list string) :
  qmarks sep = O -> qmarks (Py.join sep l) = sum_list (map qmarks l).
Proof.
  intros Hsep. unfold Py.join.
  induction l as [|x [|y l] IH]; simpl in *.
  - reflexivity.
  - lia.
  - rewrite !qmarks_app, Hsep, IH. lia.
Qed.

Lemma qmarks_where_sql_of (l : list string) :
  qmarks (where_sql_of l) = sum_list (map qmarks l).
Proof.
  destruct l as [|x l]; [reflexivity|]. unfold where_sql_of.
  rewrite qmarks_app, (qmarks_join " AND ") by reflexivity. reflexivity.
Qed.

Lemma qmarks_kw_field (e : gset string) (c : string) :
  c ∈ kw_fields e -> qmarks c = O.
Proof.
  intros H. apply kw_fields_elem in H as [H _].
  repeat (apply elem_of_cons in H as [-> | H]; [reflexivity|]).
  now apply elem_of_nil in H.
Qed.

Lemma qmarks_like_group (e : gset string) (l : list string) :
  (forall c, c ∈ l -> qmarks c = O) ->
  sum_list (map qmarks (map (fun c => c +:+ " LIKE ?") l)) = length l.
Proof.
  induction l as [|c l IH]; intros H; simpl; [reflexivity|].
  rewrite qmarks_app, (H c), IH by set_solver. reflexivity.
Qed.

Lemma qmarks_prefer (e : gset string) (a b : string) :
  qmarks a = O -> qmarks b = O -> qmarks (field_name (prefer e a b)) = O.
Proof.
  intros Ha Hb. unfold prefer.
  destruct (has e a); [exact Ha|]. destruct (has e b); [exact Hb | reflexivity].
Qed.

Lemma qmarks_where_sql (e : gset string) (f : filters) :
  qmarks (where_sql e f) = length (params e f).
Proof.
  unfold where_sql, params. rewrite qmarks_where_sql_of, build_where_blocks.
  unfold active. simpl.
  pose proof (qmarks_like_group e (kw_fields e) (qmarks_kw_field e)) as Hk.
  pose proof (qmarks_prefer e "state_std" "state" eq_refl eq_refl) as Hs.
  pose proof (qmarks_prefer e "postal_code_std" "postal_code" eq_refl eq_refl) as Hz.
  fold (state_field e) in Hs. fold (zip_field e) in Hz.
  split_guards e f; simpl;
    rewrite ?qmarks_app, ?(qmarks_join " OR ") by reflexivity;
    rewrite ?Hk, ?Hs, ?Hz, ?length_app, ?repeat_length;
    change (qmarks ")") with O; simpl; lia.
Qed.

End Placeholders.

(** ** Column selection and the query texts *)

Section SqlFacts.
Import Schema Filter Sql.

Lemma selected_elem (e : gset string) (cl : string * string) :
  cl ∈ selected e ->
  fst cl ∈ ["name_std"; "name"; "phone"; "full_address"; "city"; "state_std";
            "state"; "postal_code_std"; "postal_code"; "country";
            "location_link"; "site"]
  /\ has e (fst cl) = true.
Proof.
  unfold selected. intros H. apply list_elem_of_omap in H as (x & Hin & Hx).
  destruct (present e (fst x)) eqn:Hp; [|discriminate].
  injection Hx as <-. simpl.
  destruct x as [[c|] l]; simpl in Hp; [|discriminate].
  apply andb_true_iff in Hp as [_ Hp]. split; [|exact Hp]. simpl.
  unfold select_schema in Hin.
  repeat (apply elem_of_cons in Hin as [Hin | Hin]);
    [| | | | | | | | | now apply elem_of_nil in Hin].
  - destruct (truthy_field (name_col e)); [|discriminate].
    destruct (has e "name_std"); injection Hin as -> _; set_solver.
  - injection Hin as -> _; set_solver.
  - injection Hin as -> _; set_solver.
  - injection Hin as -> _; set_solver.
  - destruct (truthy_field (state_field e)); [|discriminate].
    injection Hin as Hs _. symmetry in Hs.
    apply prefer_some in Hs as [[-> | ->] _]; set_solver.
  - destruct (truthy_field (zip_field e)); [|discriminate].
    injection Hin as Hs _. symmetry in Hs.
    apply prefer_some in Hs as [[-> | ->] _]; set_solver.
  - injection Hin as -> _; set_solver.
  - injection Hin as -> _; set_solver.
  - injection Hin as -> _; set_solver.
Qed.

(** [split(" AS ")[0]] gives back the column of a rendered select item. *)
Lemma split_head_render_sel (e : gset string) (cl : string * string) :
  cl ∈ selected e -> Py.split_head " AS " (render_sel cl) = fst cl.
Proof.
  intros H. apply selected_elem in H as [H _]. destruct cl as [c l]. simpl in H.
  unfold render_sel. simpl fst. simpl snd.
  repeat (apply elem_of_cons in H as [-> | H]; [reflexivity|]).
  now apply elem_of_nil in H.
Qed.

Lemma order_expr_render (e : gset string) :
  render_order (order_of e (selected e)) = order_expr e (select_list e).
Proof.
  unfold order_of, order_expr, select_list.
  destruct (has e "name_std" || has e "name"); [reflexivity|].
  destruct (selected e) as [|cl sel] eqn:Hsel; [reflexivity|].
  simpl. symmetry. apply (split_head_render_sel e). rewrite Hsel. set_solver.
Qed.

(** The statements carry the very texts the script assembles. *)
Lemma page_query_text (t : string) (e : gset string) (f : filters) (ps off : Z) :
  sql_text (page_query t e f ps off) = sql t e f.
Proof.
  unfold page_query, sql. simpl.
  now rewrite where_sql_render, order_expr_render.
Qed.

Lemma export_query_text (t : string) (e : gset string) (f : filters) :
  sql_text (export_query t e f)
  = full_sql (select_list e) t (where_sql e f) (order_expr e (select_list e)).
Proof.
  unfold export_query. simpl.
  now rewrite where_sql_render, order_expr_render.
Qed.

Lemma count_query_text (t : string) (e : gset string) (f : filters) :
  sql_text (count_query t e f) = count_sql t (where_sql e f).
Proof. unfold count_query. simpl. now rewrite where_sql_render. Qed.

(** The WHERE strings depend on the user's values through the guards only. *)
Lemma where_strings_by_activation (e : gset string) (f1 f2 : filters) :
  active e f1 = active e f2 -> fst (build_where e f1) = fst (build_where e f2).
Proof.
  intros H. rewrite !build_where_blocks. cbv zeta. cbn [fst]. now rewrite H.
Qed.

End SqlFacts.

(** ** The claims about the filter builder *)

Section FilterClaims.
Import Schema Filter Sql.

(** C4: a filter whose column is absent from the schema is dropped: the
    builder returns the same WHERE strings and parameters as with that
    filter unset (a keyword when none of the keyword columns is present,
    a city without a city column, a state without a state column, a ZIP
    prefix without a postal-code column), and the clause names columns of
    the schema only, so it cannot fail to resolve. *)
Theorem C4_absent_column_drops_filter (e : gset string) (f : filters) :
  build_where e f
    = build_where e (if bool_decide (kw_fields e = []) then without_keyword f else f)
  /\ build_where e f
    = build_where e (if has e "city" then f else without_city f)
  /\ build_where e f
    = build_where e (if state_field e is Some _ then f else without_state f)
  /\ build_where e f
    = build_where e (if zip_field e is Some _ then f else without_zip f)
  /\ (forall c, c ∈ where_columns (where_clauses e f) -> c ∈ e).
Proof.
  repeat split.
  - destruct (bool_decide (kw_fields e = [])) eqn:Hk; [|reflexivity].
    rewrite !build_where_blocks. unfold active. simpl.
    now rewrite Hk, !andb_false_r.
  - destruct (has e "city") eqn:Hc; [reflexivity|].
    rewrite !build_where_blocks. unfold active. simpl. now rewrite Hc.
  - destruct (state_field e) eqn:Hs; [reflexivity|].
    rewrite !build_where_blocks. unfold active. simpl. now rewrite Hs.
  - destruct (zip_field e) eqn:Hz; [reflexivity|].
    rewrite !build_where_blocks. unfold active. simpl. now rewrite Hz.
  - apply where_columns_exist.
Qed.

(** C5: two filter sets that fire the same guards under one schema give
    the same SQL text: the WHERE clause, the page query, the export query
    and the count query; the values themselves go to the parameter list. *)
Theorem C5_sql_text_independent_of_values (t : string) (e : gset string)
    (f1 f2 : filters) :
  active e f1 = active e f2 ->
  where_sql e f1 = where_sql e f2
  /\ sql t e f1 = sql t e f2
  /\ (forall ps1 off1 ps2 off2,
        sql_text (page_query t e f1 ps1 off1) = sql_text (page_query t e f2 ps2 off2))
  /\ sql_text (export_query t e f1) = sql_text (export_query t e f2)
  /\ sql_text (count_query t e f1) = sql_text (count_query t e f2).
Proof.
  intros H. pose proof (where_strings_by_activation e f1 f2 H) as Hw.
  assert (where_sql e f1 = where_sql e f2) as Hs by (unfold where_sql; now rewrite Hw).
  split; [exact Hs|]. split; [unfold sql; now rewrite Hs|].
  split; [intros; rewrite !page_query_text; unfold sql; now rewrite Hs|].
  split; [rewrite !export_query_text; now rewrite Hs|].
  rewrite !count_query_text. now rewrite Hs.
Qed.

Lemma C5_witness :
  let e := Sample.columns_of Sample.directory in
  where_sql e Sample.busy = where_sql e Sample.other_busy
  /\ sql "records" e Sample.busy = sql "records" e Sample.other_busy
  /\ (forall ps1 off1 ps2 off2,
        sql_text (page_query "records" e Sample.busy ps1 off1)
        = sql_text (page_query "records" e Sample.other_busy ps2 off2))
  /\ sql_text (export_query "records" e Sample.busy)
     = sql_text (export_query "records" e Sample.other_busy)
  /\ sql_text (count_query "records" e Sample.busy)
     = sql_text (count_query "records" e Sample.other_busy).
Proof.
  apply (C5_sql_text_independent_of_values "records"
           (Sample.columns_of Sample.directory) Sample.busy Sample.other_busy).
  vm_compute. reflexivity.
Defined.

(** C10: the WHERE clause holds as many [?] as the builder binds values:
    one pattern [%keyword%] per keyword column present, and one value each
    for the city, the state and the ZIP prefix when their guard fires. *)
Theorem C10_placeholders_match_parameters (e : gset string) (f : filters) :
  qmarks (where_sql e f) = length (params e f)
  /\ params e f
     = (if kw_on (active e f)
        then repeat ("%" +:+ q f +:+ "%") (length (kw_fields e)) else [])
       ++ (if city_on (active e f) then [city f] else [])
       ++ (if state_on (active e f) then [state f] else [])
       ++ (if zip_on (active e f) then [Py.strip (zip_like f) +:+ "%"] else []).
Proof.
  split; [apply qmarks_where_sql|].
  unfold params. now rewrite build_where_blocks.
Qed.

End FilterClaims.

(** ** Link formatting *)

Section RenderFacts.
Import Frame Render.

Lemma prefix_split (p s : string) :
  String.prefix p s = true <-> exists rest, s = p +:+ rest.
Proof.
  revert s. induction p as [|c p IH]; intros s.
  - split; [intros _; now exists s | intros _; now destruct s].
  - destruct s as [|d s]; simpl.
    + split; [discriminate | intros [r Hr]; discriminate].
    + destruct (ascii_dec c d) as [->|Hne].
      * rewrite IH. split; intros [r Hr]; exists r;
          [now rewrite Hr | now injection Hr].
      * split; [discriminate | intros [r Hr]; injection Hr as Hd _; congruence].
Qed.

Lemma is_http_split (s : string) :
  is_http s = true <->
  exists rest, s = "http://" +:+ rest \/ s = "https://" +:+ rest.
Proof.
  unfold is_http, Py.startswith. rewrite orb_true_iff, !prefix_split.
  split; [intros [[r H] | [r H]]; exists r; auto | intros [r [H | H]]; eauto].
Qed.

Lemma anchor_not_empty (u : string) : anchor u <> EmptyString.
Proof. unfold anchor. simpl. discriminate. Qed.

Lemma apply_column_absent (f : cell -> cell) (col : string) (fr : frame) :
  col ∉ labels fr -> apply_column f col fr = fr.
Proof.
  unfold apply_column, labels. induction fr as [|[l vs] fr IH]; intros H; simpl.
  - reflexivity.
  - simpl in H. apply not_elem_of_cons in H as [Hne Hin].
    destruct (String.eqb_spec l col) as [->|_]; [congruence|].
    now rewrite IH.
Qed.

Lemma linkify_column_apply (fr : frame) (col : string) :
  linkify_column fr col = apply_column link_cell col fr.
Proof.
  unfold linkify_column. destruct (bool_decide (col ∈ labels fr)) eqn:H.
  - reflexivity.
  - apply bool_decide_eq_false in H. now rewrite apply_column_absent.
Qed.

Lemma linkify_frame_columns (fr : frame) :
  linkify_frame fr = map linked_column fr.
Proof.
  unfold linkify_frame. simpl. rewrite !linkify_column_apply.
  unfold apply_column. rewrite map_map. apply map_ext. intros [l vs].
  unfold linked_column. simpl.
  destruct (String.eqb_spec l "Map") as [->|HM]; simpl.
  - reflexivity.
  - destruct (String.eqb_spec l "Website") as [->|HW]; simpl.
    + reflexivity.
    + rewrite bool_decide_eq_false_2; [reflexivity|].
      intros H. repeat (apply elem_of_cons in H as [H | H]; [congruence|]).
      now apply elem_of_nil in H.
Qed.

Lemma copy_fresh (h : gmap nat frame) (df : nat) :
  h !! snd (copy h df) = None.
Proof.
  unfold copy. simpl. apply not_elem_of_dom. apply is_fresh.
Qed.

End RenderFacts.

Section RenderClaims.
Import Frame Render.

(** C8: a cell of the Map or Website column becomes the Open link exactly
    when it is a string that begins with http:// or https://, and the
    empty string for every other value (None, a number, a string with
    another scheme such as ftp://x.com); the other columns are left as
    they are.  The link is the text <a href=, the URL between double
    quotes, target=_blank with its value between double quotes, and the
    label Open: an anchor element that opens the URL.  [linkify] works on
    a copy: the fetched frame, and every other frame object, is the same
    after the step as before. *)
Theorem C8_links_only_for_http (h : gmap nat frame) (df : nat) (fr : frame) :
  h !! df = Some fr ->
  let quote := String "034"%char EmptyString in
  let open_link := fun u : string =>
    "<a href=" +:+ quote +:+ u +:+ quote +:+ " target=" +:+ quote +:+ "_blank"
    +:+ quote +:+ ">Open</a>" in
  (forall u, link_cell u = CStr (make_link u))
  /\ (forall u, make_link u <> EmptyString <->
                exists rest, u = CStr ("http://" +:+ rest)
                             \/ u = CStr ("https://" +:+ rest))
  /\ (forall u, make_link u = EmptyString
                \/ exists s, u = CStr s /\ make_link u = anchor s)
  /\ (forall s, anchor s = open_link s)
  /\ (forall rest, make_link (CStr ("http://" +:+ rest)) = open_link ("http://" +:+ rest))
  /\ (forall rest, make_link (CStr ("https://" +:+ rest)) = open_link ("https://" +:+ rest))
  /\ (forall u, make_link u = EmptyString
                \/ exists s, u = CStr s /\ make_link u = open_link s)
  /\ make_link (CStr "ftp://x.com") = EmptyString
  /\ make_link CNone = EmptyString
  /\ (forall z, make_link (CInt z) = EmptyString)
  /\ linkify_frame Sample.fetched
     = [ ("Name", [CStr "Acme Smiles"; CStr "bright dental"; CStr "city dental"]);
         ("Map", [CStr EmptyString; CStr EmptyString;
                  CStr ("<a href=" +:+ quote +:+ "https://maps.example/city" +:+ quote
                        +:+ " target=" +:+ quote +:+ "_blank" +:+ quote
                        +:+ ">Open</a>")]);
         ("Website", [CStr EmptyString;
                      CStr ("<a href=" +:+ quote +:+ "http://bright.example" +:+ quote
                            +:+ " target=" +:+ quote +:+ "_blank" +:+ quote
                            +:+ ">Open</a>");
                      CStr EmptyString]) ]
  /\ let '(h', shown) := linkify_copy h df in
     h' !! df = Some fr
     /\ h' !! shown = Some (map linked_column fr)
     /\ (forall r, r <> shown -> h' !! r = h !! r).
Proof.
  intros Hdf quote open_link. split; [intros [|s|z]; reflexivity|].
  split.
  { intros [|s|z]; simpl.
    - split; [congruence | intros [r [H | H]]; discriminate].
    - destruct (is_http s) eqn:Hs.
      + split; [intros _ | intros _; apply anchor_not_empty].
        apply is_http_split in Hs as [r [-> | ->]]; eauto.
      + split; [congruence|]. intros [r Hr].
        assert (is_http s = true) as Ht
          by (apply is_http_split; exists r; destruct Hr as [[= ->] | [= ->]]; auto).
        congruence.
    - split; [congruence | intros [r [H | H]]; discriminate]. }
  split.
  { intros [|s|z]; simpl; auto. destruct (is_http s); eauto. }
  split; [reflexivity|].
  split.
  { intros rest. unfold make_link.
    replace (is_http ("http://" +:+ rest)) with true; [reflexivity|].
    symmetry. apply is_http_split. eauto. }
  split.
  { intros rest. unfold make_link.
    replace (is_http ("https://" +:+ rest)) with true; [reflexivity|].
    symmetry. apply is_http_split. eauto. }
  split.
  { intros [|s|z]; simpl; auto. destruct (is_http s); eauto. }
  split; [reflexivity|]. split; [reflexivity|]. split; [reflexivity|].
  split; [vm_compute; reflexivity|].
  unfold linkify_copy, linkify.
  pose proof (copy_fresh h df) as Hfresh. unfold copy in *. simpl in *.
  set (c := fresh (dom h)) in *.
  assert (c <> df) as Hne by (intros ->; congruence).
  split; [|split].
  - rewrite lookup_alter_ne, lookup_insert_ne by done. exact Hdf.
  - rewrite lookup_alter_eq, lookup_insert_eq. simpl.
    rewrite (lookup_total_correct _ _ _ Hdf). now rewrite linkify_frame_columns.
  - intros r Hr. rewrite lookup_alter_ne, lookup_insert_ne by done. reflexivity.
Qed.

Lemma C8_witness :
  let quote := String "034"%char EmptyString in
  let open_link := fun u : string =>
    "<a href=" +:+ quote +:+ u +:+ quote +:+ " target=" +:+ quote +:+ "_blank"
    +:+ quote +:+ ">Open</a>" in
  (forall u, link_cell u = CStr (make_link u))
  /\ (forall u, make_link u <> EmptyString <->
                exists rest, u = CStr ("http://" +:+ rest)
                             \/ u = CStr ("https://" +:+ rest))
  /\ (forall u, make_link u = EmptyString
                \/ exists s, u = CStr s /\ make_link u = anchor s)
  /\ (forall s, anchor s = open_link s)
  /\ (forall rest, make_link (CStr ("http://" +:+ rest)) = open_link ("http://" +:+ rest))
  /\ (forall rest, make_link (CStr ("https://" +:+ rest)) = open_link ("https://" +:+ rest))
  /\ (forall u, make_link u = EmptyString
                \/ exists s, u = CStr s /\ make_link u = open_link s)
  /\ make_link (CStr "ftp://x.com") = EmptyString
  /\ make_link CNone = EmptyString
  /\ (forall z, make_link (CInt z) = EmptyString)
  /\ linkify_frame Sample.fetched
     = [ ("Name", [CStr "Acme Smiles"; CStr "bright dental"; CStr "city dental"]);
         ("Map", [CStr EmptyString; CStr EmptyString;
                  CStr ("<a href=" +:+ quote +:+ "https://maps.example/city" +:+ quote
                        +:+ " target=" +:+ quote +:+ "_blank" +:+ quote
                        +:+ ">Open</a>")]);
         ("Website", [CStr EmptyString;
                      CStr ("<a href=" +:+ quote +:+ "http://bright.example" +:+ quote
                            +:+ " target=" +:+ quote +:+ "_blank" +:+ quote
                            +:+ ">Open</a>");
                      CStr EmptyString]) ]
  /\ let '(h', shown) := linkify_copy {[ 0%nat := Sample.fetched ]} 0%nat in
     h' !! 0%nat = Some Sample.fetched
     /\ h' !! shown = Some (map linked_column Sample.fetched)
     /\ (forall r, r <> shown -> h' !! r = ({[ 0%nat := Sample.fetched ]} : gmap nat frame) !! r).
Proof.
  apply (C8_links_only_for_http {[ 0%nat := Sample.fetched ]} 0%nat Sample.fetched).
  reflexivity.
Defined.

(** Without the copy the fetched frame itself would be rewritten. *)
Example linkify_in_place :
  fst (linkify {[ 0%nat := Sample.fetched ]} 0%nat) !! 0%nat
  = Some [ ("Name", [CStr "Acme Smiles"; CStr "bright dental"; CStr "city dental"]);
           ("Map", [CStr EmptyString; CStr EmptyString;
                    CStr (anchor "https://maps.example/city")]);
           ("Website", [CStr EmptyString; CStr (anchor "http://bright.example");
                        CStr EmptyString]) ].
Proof. vm_compute. reflexivity. Qed.

End RenderClaims.

(** ** What the statements select *)

Section SqliteFacts.
Import Schema Filter Sql Frame Sqlite.

Lemma like_percent (text : string) : like "%" text = true.
Proof.
  induction text as [|c text IH]; [reflexivity|].
  simpl in *. exact IH.
Qed.

(** A pattern without wild cards followed by [%] is a prefix test up to
    ASCII case. *)
Lemma like_prefix (z text : string) :
  has_wildcard z = false -> like (z +:+ "%") text = begins_with z text.
Proof.
  revert text. induction z as [|c z IH]; intros text Hw.
  - rewrite like_percent. now destruct text.
  - simpl in Hw. apply orb_false_iff in Hw as [Hc Hw].
    apply orb_false_iff in Hc as [Hp Hu].
    simpl. rewrite Hp, Hu.
    destruct text as [|d text]; [reflexivity|]. now rewrite IH.
Qed.

Lemma begins_with_split (z text : string) :
  begins_with z text = true <->
  exists head rest, text = head +:+ rest /\ String.length head = String.length z
                    /\ begins_with z head = true.
Proof.
  revert text. induction z as [|c z IH]; intros text.
  - split; [intros _; exists EmptyString, text; auto | now destruct text].
  - destruct text as [|d text]; simpl.
    + split; [discriminate|]. intros (h & r & Ht & Hl & _).
      destruct h; simpl in *; discriminate.
    + rewrite andb_true_iff, IH. split.
      * intros (Hc & h & r & -> & Hl & Hb). exists (String d h), r. simpl.
        rewrite Hc, Hb. auto.
      * intros (h & r & Ht & Hl & Hb). destruct h as [|d' h]; [discriminate|].
        simpl in *. injection Ht as -> ->. apply andb_true_iff in Hb as [Hc Hb].
        split; [exact Hc|]. exists h, r. auto.
Qed.

Lemma keeps_nothing_set (row : gmap string string) : keeps [] [] row = true.
Proof. reflexivity. Qed.

Lemma unknown_column_none (t : table) (cols : list string) :
  (forall c, c ∈ cols -> c ∈ t_cols t) -> unknown_column t cols = None.
Proof.
  unfold unknown_column. induction cols as [|c cols IH]; intros H; simpl.
  - reflexivity.
  - rewrite bool_decide_eq_true_2 by (apply H; set_solver). simpl.
    apply IH. intros c' Hc'. apply H. set_solver.
Qed.

Lemma unknown_column_some (t : table) (cols : list string) (c : string) :
  unknown_column t cols = Some c -> c ∈ cols /\ c ∉ t_cols t.
Proof.
  unfold unknown_column. intros H. apply find_some in H as [Hin Hc].
  split; [now apply list_elem_of_In|].
  apply negb_true_iff, bool_decide_eq_false in Hc. exact Hc.
Qed.

Lemma filter_all {A} (P : A -> Prop) `{forall x, Decision (P x)} (l : list A) :
  (forall x, P x) -> filter P l = l.
Proof.
  intros HP. induction l as [|x l IH]; [reflexivity|].
  rewrite filter_cons_True by apply HP. now rewrite IH.
Qed.

(** On a healthy connection a count over a known table whose clause
    resolves and whose values fill the placeholders is the number of rows
    the clause keeps. *)
Lemma eval_count (tables : gmap string table) (t : string) (tbl : table)
    (w : list clause) (bound : list string) :
  tables !! t = Some tbl ->
  (forall c, c ∈ where_columns w -> c ∈ t_cols tbl) ->
  placeholders w = length bound ->
  read_sql (healthy tables) (CountRows t w bound)
  = Ok [("c", [CInt (Z.of_nat (length (filter (fun r => Is_true (keeps w bound r))
                                              (t_rows tbl))))])].
Proof.
  intros Ht Hcols Hn. unfold read_sql, healthy. simpl. unfold prepare.
  rewrite Ht, (unknown_column_none _ _ Hcols).
  now rewrite bool_decide_eq_true_2.
Qed.

(** The columns of a table as the script sees them. *)
Lemma columns_of_table (tbl : table) (c : string) :
  c ∈ (list_to_set (t_cols tbl) : gset string) <-> c ∈ t_cols tbl.
Proof. apply elem_of_list_to_set. Qed.

End SqliteFacts.

(** ** Counting through the script's helpers *)

Section CountFacts.
Import Schema Filter Sql Frame Sqlite App.

Lemma count_all_ok (con : connection) (t : string) (w : list clause)
    (bound : list string) (n : Z) (w0 : world) :
  read_sql con (CountRows t w bound) = Ok [("c", [CInt n])] ->
  exists w1, count_all con t w bound w0 = (w1, Ok n)
             /\ session w1 = session w0
             /\ issued w1 = issued w0 ++ [CountRows t w bound].
Proof.
  intros H. unfold count_all, first_int, tolist, query, deref, lift.
  unfold mbind, M_bind, mret, M_ret. rewrite H. simpl.
  rewrite lookup_total_insert_eq. simpl. eauto.
Qed.

Lemma count_all_raise (con : connection) (t : string) (w : list clause)
    (bound : list string) (e : exn) (w0 : world) :
  read_sql con (CountRows t w bound) = Raise e ->
  snd (count_all con t w bound w0) = Raise e.
Proof.
  intros H. unfold count_all, query. unfold mbind, M_bind. now rewrite H.
Qed.

End CountFacts.

Section CountClaims.
Import Schema Filter Sql Frame Sqlite App.

(** C6: over one database state, with the table's columns as the schema,
    both counts succeed, the filtered count is at most the total count,
    and the two are equal when no filter is active (empty WHERE clause). *)
Theorem C6_filtered_count_at_most_total (tables : gmap string table) (t : string)
    (tbl : table) (f : filters) (w0 : world) :
  tables !! t = Some tbl ->
  let con := healthy tables in
  let e : gset string := list_to_set (t_cols tbl) in
  exists total filtered w1 w2,
    count_all con t [] [] w0 = (w1, Ok total)
    /\ count_all con t (where_clauses e f) (params e f) w1 = (w2, Ok filtered)
    /\ 0 <= filtered <= total
    /\ (where_sql e f = EmptyString -> filtered = total)
    /\ (active e f = {| kw_on := false; city_on := false; state_on := false;
                        zip_on := false |} -> where_sql e f = EmptyString).
Proof.
  intros Ht con e.
  destruct (count_all_ok con t [] [] _ w0
              (eval_count tables t tbl [] [] Ht ltac:(set_solver) eq_refl))
    as (w1 & H1 & _).
  assert (forall c, c ∈ where_columns (where_clauses e f) -> c ∈ t_cols tbl) as Hcols
    by (intros c Hc; apply columns_of_table; now apply (where_columns_exist e f)).
  destruct (count_all_ok con t _ _ _ w1
              (eval_count tables t tbl _ _ Ht Hcols (eq_sym (params_length e f))))
    as (w2 & H2 & _).
  eexists _, _, w1, w2. split; [exact H1|]. split; [exact H2|].
  split; [|split].
  - rewrite (filter_all (fun r => Is_true (keeps [] [] r)) (t_rows tbl))
      by (intros r; now rewrite keeps_nothing_set).
    pose proof (length_filter (fun r => Is_true (keeps (where_clauses e f) (params e f) r))
                  (t_rows tbl)). lia.
  - intros Hw. rewrite <- where_sql_render in Hw.
    destruct (where_clauses e f) as [|c w] eqn:Hcl; [|discriminate].
    assert (params e f = []) as ->.
    { pose proof (params_length e f) as Hl. rewrite Hcl in Hl.
      now destruct (params e f). }
    reflexivity.
  - intros Ha. unfold where_sql. rewrite build_where_blocks. cbv zeta.
    now rewrite Ha.
Qed.

Lemma C6_witness :
  let con := healthy {[ "records" := Sample.directory ]} in
  let e : gset string := list_to_set (t_cols Sample.directory) in
  exists total filtered w1 w2,
    count_all con "records" [] [] {| session := ∅; frames := ∅; issued := []; display := [] |}
      = (w1, Ok total)
    /\ count_all con "records" (where_clauses e Sample.busy) (params e Sample.busy) w1
       = (w2, Ok filtered)
    /\ 0 <= filtered <= total
    /\ (where_sql e Sample.busy = EmptyString -> filtered = total)
    /\ (active e Sample.busy = {| kw_on := false; city_on := false; state_on := false;
                                  zip_on := false |} -> where_sql e Sample.busy = EmptyString).
Proof.
  apply (C6_filtered_count_at_most_total {[ "records" := Sample.directory ]} "records"
           Sample.directory Sample.busy
               {| session := ∅; frames := ∅; issued := []; display := [] |}).
  reflexivity.
Defined.

End CountClaims.

(** ** The ZIP prefix filter *)

Section ZipFacts.
Import Schema Filter Sql Frame Sqlite.

Lemma truthy_nonempty (s : string) : Py.truthy s = true <-> s <> EmptyString.
Proof. destruct s; simpl; split; congruence. Qed.

Lemma truthy_prefer (e : gset string) (a b : string) :
  Py.truthy a = true -> Py.truthy b = true ->
  truthy_field (prefer e a b) = true <-> is_Some (prefer e a b).
Proof.
  intros Ha Hb. unfold prefer.
  destruct (has e a); [simpl; rewrite Ha; split; eauto|].
  destruct (has e b); [simpl; rewrite Hb; split; eauto|].
  simpl. split; [discriminate | intros [x Hx]; discriminate].
Qed.

Lemma zip_on_iff (e : gset string) (f : filters) :
  zip_on (active e f) = true <->
  is_Some (zip_field e) /\ Py.strip (zip_like f) <> EmptyString.
Proof.
  simpl. rewrite andb_true_iff, truthy_nonempty.
  unfold zip_field. now rewrite truthy_prefer.
Qed.

(** With only a ZIP prefix set, the clause is the single LIKE test. *)
Lemma only_zip_clauses (e : gset string) (z zf : string) :
  zip_field e = Some zf -> Py.strip z <> EmptyString ->
  where_clauses e (only_zip z) = [Only (Like zf)]
  /\ params e (only_zip z) = [Py.strip z +:+ "%"].
Proof.
  intros Hz Hs.
  assert (zip_on (active e (only_zip z)) = true) as Hon
    by (apply zip_on_iff; rewrite Hz; eauto).
  unfold params. rewrite build_where_blocks. unfold where_clauses. cbv zeta.
  rewrite Hon. simpl. rewrite !andb_false_r, Hz. simpl. auto.
Qed.

Lemma keeps_single_like (zf pat : string) (row : gmap string string) :
  keeps [Only (Like zf)] [pat] row = true <->
  exists text, row !! zf = Some text /\ like pat text = true.
Proof.
  unfold keeps. rewrite bool_decide_eq_true. simpl.
  destruct (row !! zf) as [text|]; simpl.
  - destruct (like pat text) eqn:Hl; simpl.
    + split; [intros _; eauto | reflexivity].
    + split; [discriminate|]. intros (t & Ht & Hlt).
      injection Ht as <-. congruence.
  - split; [discriminate | intros (t & Ht & _); discriminate].
Qed.

End ZipFacts.

Section ZipClaims.
Import Schema Filter Sql Frame Sqlite.

Lemma single_like_clause (e : gset string) (f : filters) :
  (exists c, Only (Like c) ∈ where_clauses e f) <-> zip_on (active e f) = true.
Proof.
  unfold where_clauses. split.
  - intros [c H]. rewrite !elem_of_app in H.
    destruct (zip_on (active e f)); [reflexivity|].
    destruct H as [H | [H | [H | H]]];
      [ destruct (kw_on _) | destruct (city_on _) | destruct (state_on _) | ];
      repeat (apply elem_of_cons in H as [H | H]; [discriminate|]);
      now apply elem_of_nil in H.
  - intros ->. eexists. rewrite !elem_of_app. do 3 right. apply list_elem_of_singleton.
    reflexivity.
Qed.

(** C7 (as the code has it): the ZIP test is in the WHERE clause exactly
    when the postal-code column exists and the trimmed input is not empty;
    for a trimmed input free of the LIKE wild cards it keeps exactly the
    rows whose postal code is not NULL and begins with the trimmed input,
    letters compared without regard to ASCII case.  The prefix 941 over
    94102, 94203, 94107 keeps 94102 and 94107. *)
Theorem C7_zip_prefix_up_to_case (e : gset string) (z zf : string) :
  zip_field e = Some zf ->
  Py.strip z <> EmptyString ->
  has_wildcard (Py.strip z) = false ->
  (forall e' f', (exists c, Only (Like c) ∈ where_clauses e' f') <->
                 is_Some (zip_field e') /\ Py.strip (zip_like f') <> EmptyString)
  /\ where_clauses e (only_zip z) = [Only (Like zf)]
  /\ params e (only_zip z) = [Py.strip z +:+ "%"]
  /\ (forall row,
        keeps (where_clauses e (only_zip z)) (params e (only_zip z)) row = true <->
        exists text, row !! zf = Some text /\ begins_with (Py.strip z) text = true)
  /\ (forall text,
        begins_with (Py.strip z) text = true <->
        exists head rest, text = head +:+ rest
                          /\ String.length head = String.length (Py.strip z)
                          /\ begins_with (Py.strip z) head = true)
  /\ (let e3 := Sample.columns_of Sample.three_zips in
      non_null "postal_code"
        (filter (fun r => Is_true (keeps (where_clauses e3 (only_zip "941"))
                                         (params e3 (only_zip "941")) r))
                (t_rows Sample.three_zips))
      = ["94102"; "94107"]).
Proof.
  intros Hz Hs Hw. destruct (only_zip_clauses e z zf Hz Hs) as [Hc Hp].
  split; [intros e' f'; now rewrite single_like_clause, zip_on_iff|].
  split; [exact Hc|]. split; [exact Hp|].
  split; [|split].
  - intros row. rewrite Hc, Hp, keeps_single_like.
    split; intros (text & Ht & Hl); exists text; split; auto.
    + now rewrite <- like_prefix.
    + now rewrite like_prefix.
  - apply begins_with_split.
  - vm_compute. reflexivity.
Qed.

Lemma C7_witness :
  let e := Sample.columns_of Sample.directory in
  (forall e' f', (exists c, Only (Like c) ∈ where_clauses e' f') <->
                 is_Some (zip_field e') /\ Py.strip (zip_like f') <> EmptyString)
  /\ where_clauses e (only_zip " 941 ") = [Only (Like "postal_code")]
  /\ params e (only_zip " 941 ") = [Py.strip " 941 " +:+ "%"]
  /\ (forall row,
        keeps (where_clauses e (only_zip " 941 ")) (params e (only_zip " 941 ")) row = true <->
        exists text, row !! "postal_code" = Some text
                     /\ begins_with (Py.strip " 941 ") text = true)
  /\ (forall text,
        begins_with (Py.strip " 941 ") text = true <->
        exists head rest, text = head +:+ rest
                          /\ String.length head = String.length (Py.strip " 941 ")
                          /\ begins_with (Py.strip " 941 ") head = true)
  /\ (let e3 := Sample.columns_of Sample.three_zips in
      non_null "postal_code"
        (filter (fun r => Is_true (keeps (where_clauses e3 (only_zip "941"))
                                         (params e3 (only_zip "941")) r))
                (t_rows Sample.three_zips))
      = ["94102"; "94107"]).
Proof.
  apply (C7_zip_prefix_up_to_case (Sample.columns_of Sample.directory)
           " 941 " "postal_code").
  - vm_compute. reflexivity.
  - vm_compute. discriminate.
  - vm_compute. reflexivity.
Defined.

(** The ZIP filter as claimed (exactly the rows whose postal code starts
    with the trimmed input) fails on letters: the input k1a keeps the row
    whose postal code is K1A 0B1, which does not start with k1a. *)
Lemma C7_counterexample :
  let e := Sample.columns_of Sample.directory in
  ~ (keeps (where_clauses e (only_zip "k1a")) (params e (only_zip "k1a"))
           Sample.maple = true
     <-> exists text, Sample.maple !! "postal_code" = Some text
                      /\ Py.startswith (Py.strip "k1a") text = true).
Proof.
  intros e [H _].
  assert (keeps (where_clauses e (only_zip "k1a")) (params e (only_zip "k1a"))
                Sample.maple = true) as Hk by (vm_compute; reflexivity).
  destruct (H Hk) as (text & Ht & Hp).
  assert (Sample.maple !! "postal_code" = Some "K1A 0B1") as Hm
    by (vm_compute; reflexivity).
  rewrite Hm in Ht. injection Ht as <-. vm_compute in Hp. discriminate.
Qed.

End ZipClaims.

(** ** Query failures *)

Section Failures.
Import Schema Filter Sql Frame Sqlite App.
Variable con : connection.

Lemma transparent_quiet {A} (m : M A) :
  (forall w0, issued (fst (m w0)) = issued w0) -> transparent con m.
Proof.
  intros H w0. exists []. rewrite app_nil_r. split; [apply H|].
  intros s e Hs. now apply elem_of_nil in Hs.
Qed.

Lemma transparent_ret {A} (a : A) : transparent con (mret a).
Proof. now apply transparent_quiet. Qed.

Lemma transparent_raise {A} (e : exn) : transparent con (raise (A := A) e).
Proof. now apply transparent_quiet. Qed.

Lemma transparent_stop {A} (msg : string) : transparent con (stop (A := A) msg).
Proof. now apply transparent_quiet. Qed.

Lemma transparent_draw (x : element) : transparent con (draw x).
Proof. now apply transparent_quiet. Qed.

Lemma transparent_lift {A} (r : result A) : transparent con (lift r).
Proof. now apply transparent_quiet. Qed.

Lemma transparent_deref (r : nat) : transparent con (deref r).
Proof. now apply transparent_quiet. Qed.

Lemma transparent_on_frames f : transparent con (on_frames f).
Proof.
  apply transparent_quiet. intros w0. unfold on_frames.
  now destruct (f (frames w0)).
Qed.

Lemma transparent_on_session {A} (f : gmap string Z -> gmap string Z * A) :
  transparent con (on_session f).
Proof.
  apply transparent_quiet. intros w0. unfold on_session.
  now destruct (f (session w0)).
Qed.

Lemma transparent_query (s : statement) : transparent con (query con s).
Proof.
  intros w0. exists [s]. unfold query.
  destruct (read_sql con s) as [fr|e|msg] eqn:Hr; simpl; (split; [reflexivity|]);
    intros s' e' Hs' Hf; apply list_elem_of_singleton in Hs'; subst s'; congruence.
Qed.

Lemma transparent_bind {A B} (m : M A) (k : A -> M B) :
  transparent con m -> (forall a, transparent con (k a)) ->
  transparent con (m ≫= k).
Proof.
  intros Hm Hk w0. destruct (Hm w0) as (n1 & Hi1 & Hr1).
  unfold mbind, M_bind. destruct (m w0) as [w1 [a|e|msg]]; simpl in *.
  - destruct (Hk a w1) as (n2 & Hi2 & Hr2). exists (n1 ++ n2).
    split; [now rewrite Hi2, Hi1, app_assoc|].
    intros s e Hs Hf. apply elem_of_app in Hs as [Hs | Hs].
    + specialize (Hr1 s e Hs Hf). discriminate.
    + exact (Hr2 s e Hs Hf).
  - exists n1. split; [exact Hi1|]. intros s e' Hs Hf.
    specialize (Hr1 s e' Hs Hf). congruence.
  - exists n1. split; [exact Hi1|]. intros s e' Hs Hf.
    specialize (Hr1 s e' Hs Hf). discriminate.
Qed.

(** The same for what is on the page when a statement fails. *)

Lemma orderly_quiet {A} (m : M A) :
  (forall w0, issued (fst (m w0)) = issued w0 /\ display (fst (m w0)) = display w0) ->
  orderly con m.
Proof.
  intros H w0. destruct (H w0) as [Hi Hd]. exists [], [].
  rewrite !app_nil_r. split; [exact Hi|]. split; [exact Hd|].
  split; [constructor|]. split; [|intros _; constructor].
  intros s e Hs. now apply elem_of_nil in Hs.
Qed.

Lemma orderly_ret {A} (a : A) : orderly con (mret a).
Proof. now apply orderly_quiet. Qed.

Lemma orderly_raise {A} (e : exn) : orderly con (raise (A := A) e).
Proof. now apply orderly_quiet. Qed.

Lemma orderly_lift {A} (r : result A) : orderly con (lift r).
Proof. now apply orderly_quiet. Qed.

Lemma orderly_deref (r : nat) : orderly con (deref r).
Proof. now apply orderly_quiet. Qed.

Lemma orderly_on_frames f : orderly con (on_frames f).
Proof.
  apply orderly_quiet. intros w0. unfold on_frames. now destruct (f (frames w0)).
Qed.

Lemma orderly_on_session {A} (f : gmap string Z -> gmap string Z * A) :
  orderly con (on_session f).
Proof.
  apply orderly_quiet. intros w0. unfold on_session. now destruct (f (session w0)).
Qed.

Lemma orderly_stop {A} (msg : string) : orderly con (stop (A := A) msg).
Proof.
  intros w0. exists [], [Error msg]. rewrite app_nil_r.
  split; [reflexivity|]. split; [reflexivity|]. split; [constructor|].
  split; [intros s e Hs; now apply elem_of_nil in Hs|].
  intros H. now destruct (H msg).
Qed.

Lemma orderly_draw (x : element) : early x = true -> orderly con (draw x).
Proof.
  intros Hx w0. exists [], [x]. rewrite app_nil_r.
  split; [reflexivity|]. split; [reflexivity|]. split; [constructor|].
  split; [intros s e Hs; now apply elem_of_nil in Hs|].
  intros _. now apply Forall_singleton.
Qed.

Lemma orderly_query (s : statement) : is_export s = false -> orderly con (query con s).
Proof.
  intros Hx w0. exists [s], []. rewrite app_nil_r. unfold query.
  destruct (read_sql con s) as [fr|e|msg] eqn:Hr; simpl;
    (split; [reflexivity|]); (split; [reflexivity|]);
    (split; [now apply Forall_singleton|]);
    (split; [|intros _; constructor]);
    intros s' e' Hs' Hf; apply list_elem_of_singleton in Hs'; subst s';
    (split; [congruence | reflexivity]).
Qed.

Lemma last_app_some {A} (l1 l2 : list A) (x : A) :
  last l2 = Some x -> last (l1 ++ l2) = Some x.
Proof.
  intros H. destruct l2 as [|y l2]; [discriminate|].
  rewrite last_app. now rewrite H.
Qed.

Lemma orderly_bind {A B} (m : M A) (k : A -> M B) :
  orderly con m -> (forall a, orderly con (k a)) -> orderly con (m ≫= k).
Proof.
  intros Hm Hk w0. destruct (Hm w0) as (s1 & d1 & Hi1 & Hd1 & Hx1 & Hr1 & He1).
  unfold mbind, M_bind. destruct (m w0) as [w1 [a|e|msg]]; simpl in *.
  - destruct (Hk a w1) as (s2 & d2 & Hi2 & Hd2 & Hx2 & Hr2 & He2).
    exists (s1 ++ s2), (d1 ++ d2).
    split; [now rewrite Hi2, Hi1, app_assoc|].
    split; [now rewrite Hd2, Hd1, app_assoc|].
    split; [now apply Forall_app|].
    split.
    + intros s e Hs Hf. apply elem_of_app in Hs as [Hs | Hs].
      * destruct (Hr1 s e Hs Hf) as [H _]. discriminate.
      * destruct (Hr2 s e Hs Hf) as [H Hl]. split; [exact H|].
        now apply last_app_some.
    + intros Hn. apply Forall_app. split; [apply He1; congruence | now apply He2].
  - exists s1, d1. split; [exact Hi1|]. split; [exact Hd1|]. split; [exact Hx1|].
    split.
    + intros s e' Hs Hf. destruct (Hr1 s e' Hs Hf) as [H Hl]. split; congruence.
    + intros _. apply He1. discriminate.
  - exists s1, d1. split; [exact Hi1|]. split; [exact Hd1|]. split; [exact Hx1|].
    split.
    + intros s e' Hs Hf. destruct (Hr1 s e' Hs Hf) as [H Hl]. discriminate.
    + intros Hn. now destruct (Hn msg).
Qed.

Lemma candid_orderly {A} (m : M A) : orderly con m -> candid con m.
Proof.
  intros Hm w0. destruct (Hm w0) as (s1 & d1 & Hi1 & Hd1 & Hx1 & Hr1 & He1).
  exists s1, d1. split; [exact Hi1|]. split; [exact Hd1|].
  intros s e Hs Hf. destruct (Hr1 s e Hs Hf) as [Hr Hl].
  split; [exact Hr|]. split; [exact Hl|].
  exists d1, []. rewrite app_nil_r. split; [reflexivity|].
  split; [apply He1; congruence|].
  rewrite Forall_forall in Hx1. now rewrite (Hx1 s Hs).
Qed.

Lemma candid_bind {A B} (m : M A) (k : A -> M B) :
  orderly con m -> (forall a, candid con (k a)) -> candid con (m ≫= k).
Proof.
  intros Hm Hk w0. destruct (Hm w0) as (s1 & d1 & Hi1 & Hd1 & Hx1 & Hr1 & He1).
  destruct (candid_orderly m Hm w0) as (s1' & d1' & Hi1' & Hd1' & Hc1).
  assert (s1' = s1) as -> by (rewrite Hi1 in Hi1'; now apply app_inv_head in Hi1').
  assert (d1' = d1) as -> by (rewrite Hd1 in Hd1'; now apply app_inv_head in Hd1').
  unfold mbind, M_bind. destruct (m w0) as [w1 [a|e|msg]]; simpl in *.
  - destruct (Hk a w1) as (s2 & d2 & Hi2 & Hd2 & Hr2).
    exists (s1 ++ s2), (d1 ++ d2).
    split; [now rewrite Hi2, Hi1, app_assoc|].
    split; [now rewrite Hd2, Hd1, app_assoc|].
    intros s e Hs Hf. apply elem_of_app in Hs as [Hs | Hs].
    + destruct (Hr1 s e Hs Hf) as [H _]. discriminate.
    + destruct (Hr2 s e Hs Hf) as (H & Hl & front & rest & -> & Hfr & Hrest).
      split; [exact H|]. split; [now apply last_app_some|].
      exists (d1 ++ front), rest. split; [now rewrite app_assoc|].
      split; [|exact Hrest]. apply Forall_app. split; [apply He1; congruence | exact Hfr].
  - exists s1, d1. split; [exact Hi1|]. split; [exact Hd1|].
    intros s e' Hs Hf. destruct (Hc1 s e' Hs Hf) as (H & Hl & Hp).
    split; [congruence | auto].
  - exists s1, d1. split; [exact Hi1|]. split; [exact Hd1|].
    intros s e' Hs Hf. destruct (Hc1 s e' Hs Hf) as (H & Hl & Hp). discriminate.
Qed.

(** The results block and what follows it: the table and the first button
    are on the page by the time the export query is sent. *)
Lemma candid_results {A} (t : string) (e : gset string) (f : filters) (df : nat)
    (g : body -> A) :
  candid con (b ← results_block con t e f df; draw Footer;; mret (g b)).
Proof.
  intros w0.
  unfold results_block, mbind, mret, M_bind, M_ret, deref, on_frames, draw, drew, query.
  destruct (empty (frames w0 !!! df)); cbn [negb].
  - exists [], [Info "No results. Adjust filters or keyword."; Footer].
    rewrite app_nil_r. cbn. split; [reflexivity|].
    split; [now rewrite <- app_assoc|].
    intros s ex Hs. now apply elem_of_nil in Hs.
  - destruct (Render.linkify_copy (frames w0) df) as [h shown]. cbn.
    destruct (read_sql con (export_query t e f)) as [full|ex|msg] eqn:Hq; cbn.
    + eexists [export_query t e f], _. split; [reflexivity|].
      split; [rewrite <- !app_assoc; reflexivity|].
      intros s ex Hs Hf. apply list_elem_of_singleton in Hs. subst s. congruence.
    + eexists [export_query t e f], _. split; [reflexivity|].
      split; [rewrite <- !app_assoc; reflexivity|].
      intros s ex' Hs Hf. apply list_elem_of_singleton in Hs. subst s.
      split; [congruence|]. split; [reflexivity|].
      exists [], [ResultsHeading; Table (h !!! shown); PageCsv (h !!! shown)].
      split; [reflexivity|]. split; [constructor|]. cbn. eauto.
    + eexists [export_query t e f], _. split; [reflexivity|].
      split; [rewrite <- !app_assoc; reflexivity|].
      intros s ex Hs Hf. apply list_elem_of_singleton in Hs. subst s. congruence.
Qed.

End Failures.

Ltac transparency :=
  repeat first
    [ apply transparent_bind; [|intros ?]
    | apply transparent_ret | apply transparent_raise | apply transparent_stop
    | apply transparent_lift | apply transparent_deref | apply transparent_draw
    | apply transparent_on_frames | apply transparent_on_session
    | apply transparent_query
    | match goal with
      | |- App.transparent _ (if ?c then _ else _) => destruct c
      | |- App.transparent _ (match ?x with _ => _ end) => destruct x
      end ].

Ltac orderliness :=
  repeat first
    [ apply orderly_bind; [|intros ?]
    | apply orderly_ret | apply orderly_raise | apply orderly_stop
    | apply orderly_lift | apply orderly_deref
    | apply orderly_on_frames | apply orderly_on_session
    | apply orderly_draw; reflexivity
    | apply orderly_query; reflexivity
    | match goal with
      | |- App.orderly _ (if ?c then _ else _) => destruct c
      | |- App.orderly _ (match ?x with _ => _ end) => destruct x
      end ].

Section ScriptFailures.
Import Schema Filter Sql Frame Sqlite App.
Variable con : connection.

Lemma transparent_script (ui : widgets) : transparent con (script con ui).
Proof.
  unfold script, list_tables, choose_table, get_columns, value_list, count_all,
    distinct_count, results_block, first_int, tolist, get_columns.
  transparency.
Qed.

Lemma candid_script (ui : widgets) : candid con (script con ui).
Proof.
  unfold script.
  repeat (apply candid_bind;
          [ unfold list_tables, choose_table, get_columns, value_list, count_all,
              distinct_count, first_int, tolist, get_columns; solve [orderliness]
          | intros ? ]).
  destruct (select_list _).
  - apply candid_orderly, orderly_stop.
  - apply candid_bind; [apply orderly_query; reflexivity | intros df].
    apply candid_results.
Qed.

End ScriptFailures.

(** ** Ordering of the page and export queries *)

Section Ordering.
Import Schema Filter Sql Frame Sqlite.

Lemma key_leb_total (a b : option string) : key_leb a b = true \/ key_leb b a = true.
Proof.
  destruct a as [x|], b as [y|]; simpl; auto. apply String.leb_total.
Qed.

#[local] Instance row_le_total (o : order_by) : Total (row_le o).
Proof.
  intros r1 r2. unfold row_le.
  destruct (key_leb_total (sort_key o r1) (sort_key o r2)) as [-> | ->]; simpl; auto.
Qed.

(** ORDER BY returns the same rows, ascending by the key. *)
Lemma order_rows_sorted (o : order_by) (rows : list (gmap string string)) :
  Sorted (row_le o) (order_rows o rows) /\ order_rows o rows ≡ₚ rows.
Proof.
  split; [apply Sorted_merge_sort, _ | apply merge_sort_Permutation].
Qed.

(** The key of COALESCE(name_std, name): the normalized name when it is
    not NULL, else the raw one. *)
Lemma coalesce_key (row : gmap string string) :
  sort_key (Coalesce ["name_std"; "name"]) row
  = match row !! "name_std" with
    | Some n => Some n
    | None => row !! "name"
    end.
Proof.
  unfold sort_key. simpl.
  destruct (row !! "name_std") as [n|]; simpl; [reflexivity|].
  destruct (row !! "name") as [n|]; reflexivity.
Qed.

Lemma selected_columns_exist (e : gset string) (c : string) :
  c ∈ map fst (selected e) -> c ∈ e.
Proof.
  intros H. apply list_elem_of_fmap in H as (cl & -> & Hcl).
  apply has_elem. now apply selected_elem.
Qed.

Lemma same_name_refl (c : string) : same_name c c = true.
Proof.
  induction c as [|a c IH]; simpl; [reflexivity|].
  unfold same_char. now rewrite Ascii.eqb_refl.
Qed.

Lemma table_column_exact (t : table) (c : string) :
  c ∈ t_cols t -> table_column t c = Some c.
Proof. intros H. unfold table_column. now rewrite bool_decide_eq_true_2. Qed.

(** Name resolution of the page and export queries comes down to the
    ORDER BY expression: the selected and the filtered columns all exist. *)
Lemma missing_name_order (tbl : table) (f : filters) (o : order_by) :
  let e : gset string := list_to_set (t_cols tbl) in
  missing_name tbl (selected e) (where_clauses e f) o = unresolved tbl (selected e) o.
Proof.
  intros e. unfold missing_name. rewrite unknown_column_none; [reflexivity|].
  intros c Hc. apply columns_of_table. apply elem_of_app in Hc as [Hc | Hc].
  - now apply selected_columns_exist.
  - now apply (where_columns_exist e f).
Qed.

Lemma select_rows_prepare (tables : gmap string table) (t : string) (tbl : table)
    (f : filters) :
  tables !! t = Some tbl ->
  let e : gset string := list_to_set (t_cols tbl) in
  prepare tables t
    (fun t' => missing_name t' (selected e) (where_clauses e f)
                 (order_of e (selected e)))
    (placeholders (where_clauses e f)) (length (params e f))
  = match unresolved tbl (selected e) (order_of e (selected e)) with
    | Some c => Raise (no_such_column c)
    | None => Ok tbl
    end.
Proof.
  intros Ht e. unfold prepare. rewrite Ht.
  pose proof (missing_name_order tbl f (order_of e (selected e))) as Hm.
  cbv zeta in Hm. fold e in Hm. rewrite Hm.
  destruct (unresolved tbl _ _); [reflexivity|].
  now rewrite bool_decide_eq_true_2 by (symmetry; apply params_length).
Qed.

(** With both name columns each name of COALESCE(name_std, name) stands
    for the column of that name. *)
Lemma coalesce_resolves (tbl : table) (sel : list (string * string)) :
  "name_std" ∈ t_cols tbl -> "name" ∈ t_cols tbl ->
  unresolved tbl sel (Coalesce ["name_std"; "name"]) = None
  /\ resolved_order tbl sel (Coalesce ["name_std"; "name"])
     = Coalesce ["name_std"; "name"].
Proof.
  intros Hs Hn. unfold unresolved, resolved_order, resolve. simpl.
  rewrite !(table_column_exact _ _ Hs), !(table_column_exact _ _ Hn).
  split; reflexivity.
Qed.

(** With both name columns it is prepared and answers with the kept rows,
    in ascending order of the coalesced name, cut to the page. *)
Lemma page_query_both_name_columns (tables : gmap string table) (t : string)
    (tbl : table) (f : filters) (ps off : Z) :
  tables !! t = Some tbl ->
  let e : gset string := list_to_set (t_cols tbl) in
  has e "name_std" = true -> has e "name" = true ->
  read_sql (healthy tables) (page_query t e f ps off)
  = Ok (project (selected e)
          (window_rows (Some (ps, off))
             (order_rows (Coalesce ["name_std"; "name"])
                (filter (fun r => Is_true (keeps (where_clauses e f) (params e f) r))
                        (t_rows tbl))))).
Proof.
  intros Ht e Hs Hn.
  pose proof (select_rows_prepare tables t tbl f Ht) as Hp. cbv zeta in Hp.
  unfold read_sql, healthy, page_query. cbn [fault db]. unfold eval.
  fold e in Hp. rewrite Hp.
  unfold order_of. rewrite Hs. cbn [orb].
  apply has_elem, columns_of_table in Hs, Hn.
  destruct (coalesce_resolves tbl (selected e) Hs Hn) as [-> ->]. reflexivity.
Qed.

End Ordering.

Section FailureClaims.
Import Schema Filter Sql Frame Sqlite App.

(** C3 (as the code has it): nothing in the script catches a failed query.
    Whenever a statement sent during a run fails to execute, the run ends
    there with that exception, unhandled: the failing statement is the
    last one sent and no error value is produced in its place.  The page
    keeps what was drawn before the failing statement and gets nothing
    more: no error message, no no-results message, no footer, no second
    download button.  If the failing statement is the export query, the
    heading of the results, the results table and the first download
    button are on the page, drawn just before it was sent; if it is any
    other statement, the page holds early elements only (title, sidebar,
    KPI cards, divider, pager line) and nothing of the results block.
    Each helper that executes a query lets the exception through in the
    same way. *)
Theorem C3_query_failure_is_unhandled (con : connection) (ss : gmap string Z)
    (ui : widgets) (s : statement) (e : exn) :
  s ∈ issued (fst (run con ss ui)) ->
  read_sql con s = Raise e ->
  snd (run con ss ui) = Raise e
  /\ last (issued (fst (run con ss ui))) = Some s
  /\ (exists front rest,
        display (fst (run con ss ui)) = front ++ rest
        /\ Forall (fun x => early x = true) front
        /\ if is_export s
           then exists shown, rest = [ResultsHeading; Table shown; PageCsv shown]
           else rest = [])
  /\ (forall x, x ∈ display (fst (run con ss ui)) ->
        x <> Footer
        /\ (forall msg, x <> Error msg /\ x <> Info msg)
        /\ (forall data, x <> FullCsv data)
        /\ (is_export s = false -> early x = true))
  /\ (forall t w bound, transparent con (count_all con t w bound))
  /\ (forall t c, transparent con (distinct_count con t c))
  /\ (forall t c, transparent con (value_list con t c))
  /\ (forall t, transparent con (get_columns con t))
  /\ transparent con (list_tables con).
Proof.
  intros Hs Hf.
  assert (snd (run con ss ui) = Raise e
          /\ last (issued (fst (run con ss ui))) = Some s
          /\ left_on_page s (display (fst (run con ss ui)))) as (Hr & Hl & Hp).
  { unfold run in *.
    destruct (candid_script con ui
                {| session := ss; frames := ∅; issued := []; display := [] |})
      as (sent & drawn & Hi & Hd & Hc).
    rewrite Hi in Hs. rewrite Hi, Hd. simpl in *. exact (Hc s e Hs Hf). }
  split; [exact Hr|]. split; [exact Hl|]. split; [exact Hp|]. split.
  { intros x Hx. destruct Hp as (front & rest & Hd & Hfront & Hrest).
    rewrite Hd in Hx. apply elem_of_app in Hx as [Hx | Hx].
    - rewrite Forall_forall in Hfront. specialize (Hfront x Hx).
      split; [intros ->; discriminate|].
      split; [intros msg; split; intros ->; discriminate|].
      split; [intros data ->; discriminate | auto].
    - destruct (is_export s).
      + destruct Hrest as [shown ->].
        repeat (apply elem_of_cons in Hx as [-> | Hx]);
          try (now apply elem_of_nil in Hx);
          (split; [discriminate|]; split; [intros msg; split; discriminate|];
           split; [intros data; discriminate | discriminate]).
      + subst rest. now apply elem_of_nil in Hx. }
  repeat split; intros;
    unfold count_all, distinct_count, value_list, get_columns, list_tables,
      first_int, tolist; transparency.
Qed.

Lemma C3_witness :
  snd (run Sample.locked ∅ Sample.first_visit)
    = Raise (DatabaseError "database is locked")
  /\ last (issued (fst (run Sample.locked ∅ Sample.first_visit)))
     = Some (CountRows "records" [] [])
  /\ (exists front rest,
        display (fst (run Sample.locked ∅ Sample.first_visit)) = front ++ rest
        /\ Forall (fun x => early x = true) front
        /\ if is_export (CountRows "records" [] [])
           then exists shown, rest = [ResultsHeading; Table shown; PageCsv shown]
           else rest = [])
  /\ (forall x, x ∈ display (fst (run Sample.locked ∅ Sample.first_visit)) ->
        x <> Footer
        /\ (forall msg, x <> Error msg /\ x <> Info msg)
        /\ (forall data, x <> FullCsv data)
        /\ (is_export (CountRows "records" [] []) = false -> early x = true))
  /\ (forall t w bound, transparent Sample.locked (count_all Sample.locked t w bound))
  /\ (forall t c, transparent Sample.locked (distinct_count Sample.locked t c))
  /\ (forall t c, transparent Sample.locked (value_list Sample.locked t c))
  /\ (forall t, transparent Sample.locked (get_columns Sample.locked t))
  /\ transparent Sample.locked (list_tables Sample.locked).
Proof.
  apply (C3_query_failure_is_unhandled Sample.locked ∅ Sample.first_visit
           (CountRows "records" [] [])).
  - apply list_elem_of_In. vm_compute. tauto.
  - reflexivity.
Defined.

(** The claim that a failed query comes back as an error value and an
    inline message fails: on a locked database the count of the KPI block
    raises, and on a table with a raw name column only the page query
    raises; either way the run ends with the exception, and the page shows
    what had been drawn by then (title and sidebar in the first run, up to
    the pager line in the second) and no message. *)
Lemma C3_counterexample :
  snd (run Sample.locked ∅ Sample.first_visit)
    = Raise (DatabaseError "database is locked")
  /\ display (fst (run Sample.locked ∅ Sample.first_visit))
     = [Heading; Sidebar ["Ottawa"; "Sacramento"; "San Francisco"] ["CA"; "ON"]]
  /\ snd (run (healthy {[ "records" := Sample.raw_only ]}) ∅ Sample.first_visit)
     = Raise (DatabaseError "no such column: name_std")
  /\ display (fst (run (healthy {[ "records" := Sample.raw_only ]}) ∅
                     Sample.first_visit))
     = [Heading; Sidebar ["Sacramento"] []; Kpis 1 1 1 0; Divider;
        PagerLine {| Pager.pg_max_page := 1; Pager.pg_page_used := 1;
                     Pager.pg_offset := 0; Pager.pg_start_row := 1;
                     Pager.pg_end_row := 1; Pager.pg_page_shown := 1 |}].
Proof. repeat split; vm_compute; reflexivity. Qed.

(** When it is the export query that fails, the table and the first
    download button are already on the page. *)
Example export_failure_leaves_table :
  snd (run Sample.export_fails ∅ Sample.first_visit)
    = Raise (DatabaseError "disk I/O error")
  /\ exists front shown,
       display (fst (run Sample.export_fails ∅ Sample.first_visit))
       = front ++ [ResultsHeading; Table shown; PageCsv shown]
       /\ forallb early front = true
       /\ column "Name" shown
          = Ok [CNone; CStr "bright dental"; CStr "city dental"; CStr "maple dental"].
Proof.
  split; [vm_compute; reflexivity|].
  eexists (take 5 (display (fst (run Sample.export_fails ∅ Sample.first_visit)))), _.
  split; [vm_compute; reflexivity|]. split; vm_compute; reflexivity.
Qed.

(** C2 (the code at the failing input): with a raw name column and no
    normalized one, the ORDER BY expression still reads
    COALESCE(name_std, name); the page query and the export query both
    fail to resolve name_std, and the run ends with that exception. *)
Theorem C2_order_by_names_missing_column :
  let e := Sample.columns_of Sample.raw_only in
  let con := healthy {[ "records" := Sample.raw_only ]} in
  name_col e = Some "name"
  /\ select_list e = ["name AS " +:+ Py.dq +:+ "Name" +:+ Py.dq;
                      "city AS " +:+ Py.dq +:+ "City" +:+ Py.dq]
  /\ order_expr e (select_list e) = "COALESCE(name_std, name)"
  /\ read_sql con (page_query "records" e Sample.nothing_set 50 0)
     = Raise (no_such_column "name_std")
  /\ read_sql con (export_query "records" e Sample.nothing_set)
     = Raise (no_such_column "name_std")
  /\ snd (run con ∅ Sample.first_visit) = Raise (no_such_column "name_std").
Proof. repeat split; vm_compute; reflexivity. Qed.

End FailureClaims.

(** * Further properties of the code *)

(** ** The pagination block beyond the clamp *)

Section PagerWindow.
Import Pager.

Lemma paginate_rows (ss : gmap string Z) (R P : Z) (prev next : bool) :
  let pg := snd (paginate ss R P prev next) in
  pg_start_row pg = (if R =? 0 then 0 else pg_offset pg + 1)
  /\ pg_end_row pg = Z.min R (pg_offset pg + P).
Proof. split; reflexivity. Qed.

Lemma max_page_covers (R P p : Z) :
  0 < R -> 1 <= P -> 1 <= p <= max_page R P -> (p - 1) * P < R.
Proof.
  intros HR HP [H1 Hm]. unfold max_page in Hm.
  pose proof (Z.mul_div_le (R + P - 1) P ltac:(lia)) as Hd.
  assert (p <= (R + P - 1) / P) as Hp.
  { destruct (Z.max_spec 1 ((R + P - 1) / P)) as [[_ E] | [Hlt E]]; rewrite E in Hm.
    - exact Hm.
    - assert (1 <= (R + P - 1) / P) by (apply Z.div_le_lower_bound; lia). lia. }
  nia.
Qed.

(** X1: the rows announced in the info line.  With rows to show, the
    offset of the page used lies inside the filtered rows, so that page is
    never empty, and the announced range [start_row..end_row] is a
    non-empty range within [1..filtered_rows] of at most [page_size] rows;
    without rows the line reads 0-0 and the offset is 0. *)
Theorem X1_info_line_range (ss : gmap string Z) (R P : Z) (prev next : bool) :
  0 <= R -> 1 <= P ->
  let pg := snd (paginate ss R P prev next) in
  0 <= pg_offset pg
  /\ (0 < R ->
      pg_offset pg < R
      /\ 1 <= pg_start_row pg <= pg_end_row pg
      /\ pg_end_row pg <= R
      /\ pg_end_row pg - pg_start_row pg + 1 <= P)
  /\ (R = 0 ->
      pg_offset pg = 0 /\ pg_start_row pg = 0 /\ pg_end_row pg = 0).
Proof.
  intros HR HP pg.
  destruct (paginate_rows ss R P prev next) as [Hs He]. fold pg in Hs, He.
  pose proof (paginate_spec ss R P prev next) as H. cbv zeta in H.
  unfold pg in *. destruct (paginate ss R P prev next) as [ss' pg']. simpl in *.
  destruct H as (Hm & Hu & Ho & _).
  pose proof (clamped_range (default 1 (ss !! "page")) _ (max_page_pos R P)) as Hr.
  set (p := clamped (default 1 (ss !! "page")) (max_page R P)) in *.
  rewrite Hs, He, Ho.
  assert (0 <= (p - 1) * P) as Hnn by nia.
  split; [exact Hnn|]. split.
  - intros Hpos. pose proof (max_page_covers R P p Hpos HP Hr) as Hc.
    remember ((p - 1) * P) as o.
    destruct (Z.eqb_spec R 0); lia.
  - intros ->. assert (max_page 0 P = 1) as Hm1.
    { unfold max_page. rewrite Z.div_small by lia. reflexivity. }
    rewrite Hm1 in Hr. assert (p = 1) as -> by lia. simpl. lia.
Qed.

Lemma X1_witness :
  let pg := snd (paginate (<["page" := 3]> ∅) 105 50 false false) in
  0 <= pg_offset pg
  /\ (0 < 105 ->
      pg_offset pg < 105
      /\ 1 <= pg_start_row pg <= pg_end_row pg
      /\ pg_end_row pg <= 105
      /\ pg_end_row pg - pg_start_row pg + 1 <= 50)
  /\ (105 = 0 ->
      pg_offset pg = 0 /\ pg_start_row pg = 0 /\ pg_end_row pg = 0).
Proof. apply (X1_info_line_range (<["page" := 3]> ∅) 105 50 false false); lia. Defined.

(** X2: the buttons act after the offset is taken.  In the run in which
    Next is pressed below the last page, the query still reads the page
    that was current (the offset is that page's), while the info line
    already prints the following page number, which is also what is stored
    for the next run; likewise for Prev above page 1.  Without a button the
    two agree. *)
Theorem X2_buttons_take_effect_next_run (ss : gmap string Z) (R P : Z) :
  0 <= R -> 1 <= P ->
  let p := page_used ss R P in
  let after_next_run := paginate ss R P false true in
  let after_prev_run := paginate ss R P true false in
  let quiet_run := paginate ss R P false false in
  pg_page_used (snd after_next_run) = p
  /\ pg_offset (snd after_next_run) = (p - 1) * P
  /\ pg_page_shown (snd after_next_run) = (if p <? max_page R P then p + 1 else p)
  /\ fst after_next_run !! "page" = Some (pg_page_shown (snd after_next_run))
  /\ pg_page_used (snd after_prev_run) = p
  /\ pg_page_shown (snd after_prev_run) = (if p >? 1 then p - 1 else p)
  /\ fst after_prev_run !! "page" = Some (pg_page_shown (snd after_prev_run))
  /\ pg_page_shown (snd quiet_run) = pg_page_used (snd quiet_run).
Proof.
  intros HR HP p nr pr qr. subst p nr pr qr. unfold page_used.
  pose proof (paginate_spec ss R P false true) as Hn.
  pose proof (paginate_spec ss R P true false) as Hp.
  pose proof (paginate_spec ss R P false false) as Hq.
  cbv zeta in Hn, Hp, Hq.
  destruct (paginate ss R P false true) as [sn pn].
  destruct (paginate ss R P true false) as [sp pp].
  destruct (paginate ss R P false false) as [sq pq]. simpl.
  destruct Hn as (_ & Hn1 & Hn2 & Hn3 & Hn4).
  destruct Hp as (_ & Hp1 & _ & Hp3 & Hp4).
  destruct Hq as (_ & Hq1 & _ & _ & Hq4).
  rewrite Hn1, Hn2, Hn3, Hn4, Hp1, Hp3, Hp4, Hq1, Hq4.
  unfold after_next, after_prev. simpl. rewrite ?andb_false_r. auto 10.
Qed.

Lemma X2_witness :
  let p := page_used ∅ 105 50 in
  let after_next_run := paginate ∅ 105 50 false true in
  let after_prev_run := paginate ∅ 105 50 true false in
  let quiet_run := paginate ∅ 105 50 false false in
  pg_page_used (snd after_next_run) = p
  /\ pg_offset (snd after_next_run) = (p - 1) * 50
  /\ pg_page_shown (snd after_next_run) = (if p <? max_page 105 50 then p + 1 else p)
  /\ fst after_next_run !! "page" = Some (pg_page_shown (snd after_next_run))
  /\ pg_page_used (snd after_prev_run) = p
  /\ pg_page_shown (snd after_prev_run) = (if p >? 1 then p - 1 else p)
  /\ fst after_prev_run !! "page" = Some (pg_page_shown (snd after_prev_run))
  /\ pg_page_shown (snd quiet_run) = pg_page_used (snd quiet_run).
Proof. apply (X2_buttons_take_effect_next_run ∅ 105 50); lia. Defined.

End PagerWindow.

Section PagerRoundTrip.
Import Pager.

Lemma step_lookup (ss : gmap string Z) (i : interaction) :
  let m := max_page (i_filtered_rows i) (i_page_size i) in
  step ss i !! "page"
  = Some (after_next (after_prev (clamped (default 1 (ss !! "page")) m) (i_prev i))
                     m (i_next i)).
Proof.
  unfold step.
  pose proof (paginate_spec ss (i_filtered_rows i) (i_page_size i)
                (i_prev i) (i_next i)) as H. cbv zeta in H.
  destruct (paginate ss _ _ _ _) as [ss' pg]. simpl. now destruct H as (_ & _ & _ & H & _).
Qed.

Lemma page_used_clamped (ss : gmap string Z) (R P : Z) :
  page_used ss R P = clamped (default 1 (ss !! "page")) (max_page R P).
Proof.
  unfold page_used. pose proof (paginate_spec ss R P false false) as H.
  cbv zeta in H. destruct (paginate ss R P false false) as [ss' pg]. simpl.
  now destruct H as (_ & H & _).
Qed.

Lemma clamped_inside (p m : Z) : 1 <= p <= m -> clamped p m = p.
Proof.
  intros H. unfold clamped.
  destruct (Z.gtb_spec p m); [lia|]. destruct (Z.ltb_spec p 1); lia.
Qed.

(** X3: with the filters and the page size unchanged, Next followed by
    Prev comes back to the page one started from unless that was the last
    page, and Prev followed by Next unless it was the first; on the last
    page Next changes nothing, and on the first page Prev changes
    nothing. *)
Theorem X3_next_prev_round_trip (ss : gmap string Z) (R P : Z) :
  0 <= R -> 1 <= P ->
  let p := page_used ss R P in
  let m := max_page R P in
  let next := {| i_filtered_rows := R; i_page_size := P;
                 i_prev := false; i_next := true |} in
  let prev := {| i_filtered_rows := R; i_page_size := P;
                 i_prev := true; i_next := false |} in
  (p < m -> step (step ss next) prev !! "page" = Some p)
  /\ (1 < p -> step (step ss prev) next !! "page" = Some p)
  /\ (p = m -> step ss next !! "page" = Some p)
  /\ (p = 1 -> step ss prev !! "page" = Some p).
Proof.
  intros HR HP p m next prev.
  pose proof (clamped_range (default 1 (ss !! "page")) _ (max_page_pos R P)) as Hr.
  pose proof (page_used_clamped ss R P) as Hp. fold p m in Hp, Hr. rewrite <- Hp in Hr.
  assert (step ss next !! "page" = Some (if p <? m then p + 1 else p)) as Hn.
  { rewrite step_lookup. simpl. fold m. rewrite <- Hp. reflexivity. }
  assert (step ss prev !! "page" = Some (if p >? 1 then p - 1 else p)) as Hv.
  { rewrite step_lookup. simpl. fold m. rewrite <- Hp.
    unfold after_next, after_prev. simpl. reflexivity. }
  repeat split.
  - intros Hlt. rewrite step_lookup, Hn. simpl. fold m.
    destruct (Z.ltb_spec p m); [|lia]. rewrite clamped_inside by lia.
    unfold after_next, after_prev. simpl.
    destruct (Z.gtb_spec (p + 1) 1); [f_equal; lia | lia].
  - intros Hgt. rewrite step_lookup, Hv. simpl. fold m.
    destruct (Z.gtb_spec p 1); [|lia]. rewrite clamped_inside by lia.
    unfold after_next, after_prev. simpl.
    destruct (Z.ltb_spec (p - 1) m); [f_equal; lia | lia].
  - intros Heq. rewrite Hn. destruct (Z.ltb_spec p m); [lia | reflexivity].
  - intros Heq. rewrite Hv. destruct (Z.gtb_spec p 1); [lia | reflexivity].
Qed.

Lemma X3_witness :
  let ss : gmap string Z := <["page" := 2]> ∅ in
  let p := page_used ss 105 50 in
  let m := max_page 105 50 in
  let next := {| i_filtered_rows := 105; i_page_size := 50;
                 i_prev := false; i_next := true |} in
  let prev := {| i_filtered_rows := 105; i_page_size := 50;
                 i_prev := true; i_next := false |} in
  (p < m -> step (step ss next) prev !! "page" = Some p)
  /\ (1 < p -> step (step ss prev) next !! "page" = Some p)
  /\ (p = m -> step ss next !! "page" = Some p)
  /\ (p = 1 -> step ss prev !! "page" = Some p).
Proof. apply (X3_next_prev_round_trip (<["page" := 2]> ∅) 105 50); lia. Defined.

End PagerRoundTrip.

(** ** What the WHERE clause asks of a row *)

Section WhereSemantics.
Import Schema Filter Sql Frame Sqlite Reading.

Lemma and3_true (a b : option bool) :
  and3 a b = Some true <-> a = Some true /\ b = Some true.
Proof. destruct a as [[|]|], b as [[|]|]; simpl; split; intros; intuition congruence. Qed.

Lemma and3_true_l (x : option bool) : and3 (Some true) x = x.
Proof. now destruct x as [[|]|]. Qed.

Lemma and3_assoc (a b c : option bool) : and3 a (and3 b c) = and3 (and3 a b) c.
Proof. now destruct a as [[|]|], b as [[|]|], c as [[|]|]. Qed.

(** Bound values are dealt out to the clauses in order. *)
Lemma eval_where_app (row : gmap string string) (w1 w2 : list clause)
    (v1 v2 : list string) :
  placeholders w1 = length v1 ->
  eval_where row (w1 ++ w2) (v1 ++ v2)
  = and3 (eval_where row w1 v1) (eval_where row w2 v2).
Proof.
  revert v1. induction w1 as [|c w1 IH]; intros v1 Hn.
  - destruct v1; [|discriminate]. simpl app.
    change (eval_where row [] []) with (Some true). now rewrite and3_true_l.
  - unfold placeholders, where_columns in Hn. simpl in Hn.
    rewrite length_app, length_map in Hn. simpl.
    set (n := length (clause_atoms c)) in *.
    rewrite take_app_le, drop_app_le by lia.
    rewrite IH, and3_assoc; [reflexivity|].
    unfold placeholders, where_columns. rewrite length_drop. lia.
Qed.

Lemma eval_where_one (row : gmap string string) (c : clause) (vs : list string) :
  length vs = length (clause_atoms c) ->
  eval_where row [c] vs = eval_clause row c vs.
Proof.
  intros H. simpl. rewrite <- H, firstn_all.
  now destruct (eval_clause row c vs) as [[|]|].
Qed.

Lemma eval_equals (row : gmap string string) (c v : string) :
  eval_clause row (Only (Equals c)) [v] = Some true <-> row !! c = Some v.
Proof.
  simpl. destruct (row !! c) as [text|]; simpl; [|split; discriminate].
  destruct (String.eqb_spec text v) as [->|Hne]; split; try congruence.
Qed.

Lemma eval_like (row : gmap string string) (c pat : string) :
  eval_clause row (Only (Like c)) [pat] = Some true <->
  exists text, row !! c = Some text /\ like pat text = true.
Proof.
  simpl. destruct (row !! c) as [text|]; simpl.
  - split; [intros [= H]; eauto | intros (t & [= <-] & H); now rewrite H].
  - split; [discriminate | intros (t & Ht & _); discriminate].
Qed.

Lemma or3_fold_true (l : list (option bool)) :
  fold_right or3 (Some false) l = Some true <-> Some true ∈ l.
Proof.
  induction l as [|x l IH]; simpl.
  - split; [discriminate | intros H; now apply elem_of_nil in H].
  - rewrite elem_of_cons, <- IH.
    destruct x as [[|]|], (fold_right or3 (Some false) l) as [[|]|]; simpl;
      split; intros; intuition congruence.
Qed.

Lemma eval_like_group (row : gmap string string) (cols : list string) (pat : string) :
  eval_clause row (AnyOf (map Like cols)) (repeat pat (length cols)) = Some true <->
  exists c text, c ∈ cols /\ row !! c = Some text /\ like pat text = true.
Proof.
  simpl. rewrite or3_fold_true. induction cols as [|c cols IH]; simpl.
  - split; [intros H; now apply elem_of_nil in H | intros (c & t & H & _)].
    now apply elem_of_nil in H.
  - rewrite elem_of_cons, IH. split.
    + intros [H | (c' & t & Hin & Hr & Hl)].
      * symmetry in H. destruct (row !! c) as [text|] eqn:Hc; [|discriminate].
        injection H as H. exists c, text. rewrite elem_of_cons. auto.
      * exists c', t. rewrite elem_of_cons. auto.
    + intros (c' & t & Hin & Hr & Hl). apply elem_of_cons in Hin as [-> | Hin].
      * left. rewrite Hr. simpl. now rewrite Hl.
      * right. eauto.
Qed.

End WhereSemantics.

Section FilterSemantics.
Import Schema Filter Sql Frame Sqlite Reading.

Lemma guarded_clause (row : gmap string string) (on : bool) (c : clause)
    (vs : list string) (P : Prop) :
  length vs = length (clause_atoms c) ->
  (eval_clause row c vs = Some true <-> P) ->
  eval_where row (if on then [c] else []) (if on then vs else []) = Some true
  <-> (on = true -> P).
Proof.
  intros Hl HP. destruct on.
  - rewrite eval_where_one, HP by exact Hl. tauto.
  - simpl. split; [discriminate | reflexivity].
Qed.

Lemma guarded_placeholders (on : bool) (c : clause) (vs : list string) :
  length vs = length (clause_atoms c) ->
  placeholders (if on then [c] else []) = length (if on then vs else []).
Proof.
  intros H. destruct on; [|reflexivity].
  unfold placeholders, where_columns. simpl. rewrite app_nil_r, length_map. now symmetry.
Qed.

Lemma truthy_field_some (oc : option string) :
  truthy_field oc = true -> exists c, oc = Some c.
Proof. destruct oc; [eauto | discriminate]. Qed.

Lemma keeps_conjunction (e : gset string) (f : filters)
    (row : gmap string string) :
  keeps (where_clauses e f) (params e f) row = true <->
  (kw_on (active e f) = true -> keyword_test e f row)
  /\ (city_on (active e f) = true -> city_test f row)
  /\ (state_on (active e f) = true -> state_test e f row)
  /\ (zip_on (active e f) = true -> zip_test e f row).
Proof.
  unfold keeps. rewrite bool_decide_eq_true.
  unfold params. rewrite build_where_blocks. cbv zeta. cbn [snd].
  unfold where_clauses.
  set (a := active e f).
  assert (length (repeat ("%" +:+ q f +:+ "%") (length (kw_fields e)))
          = length (clause_atoms (AnyOf (map Like (kw_fields e))))) as Lk
    by (simpl; now rewrite repeat_length, length_map).
  rewrite !eval_where_app, !and3_true by (now apply guarded_placeholders).
  rewrite (guarded_clause row (kw_on a) _ _ (keyword_test e f row) Lk)
    by apply eval_like_group.
  rewrite (guarded_clause row (city_on a) (Only (Equals "city")) [city f]
             (city_test f row) eq_refl)
    by apply eval_equals.
  assert (state_on a = true -> exists sf, state_field e = Some sf) as Hs.
  { intros H. apply andb_true_iff in H as [H _]. now apply truthy_field_some. }
  assert (zip_on a = true -> exists zf, zip_field e = Some zf) as Hz.
  { intros H. apply andb_true_iff in H as [H _]. now apply truthy_field_some. }
  rewrite (guarded_clause row (state_on a)
             (Only (Equals (field_name (state_field e)))) [state f]
             (row !! field_name (state_field e) = Some (state f)) eq_refl)
    by apply eval_equals.
  rewrite (guarded_clause row (zip_on a)
             (Only (Like (field_name (zip_field e)))) [Py.strip (zip_like f) +:+ "%"]
             (exists text, row !! field_name (zip_field e) = Some text
                           /\ like (Py.strip (zip_like f) +:+ "%") text = true) eq_refl)
    by apply eval_like.
  unfold state_test, zip_test.
  split; intros (Hk & Hc & Hst & Hzp); (split; [exact Hk|]); (split; [exact Hc|]); split.
  - intros Hon. destruct (Hs Hon) as [sf Hsf]. exists sf. split; [exact Hsf|].
    specialize (Hst Hon). now rewrite Hsf in Hst.
  - intros Hon. destruct (Hz Hon) as [zf Hzf]. specialize (Hzp Hon).
    rewrite Hzf in Hzp. destruct Hzp as (t & Ht & Hl). now exists zf, t.
  - intros Hon. destruct (Hst Hon) as (sf & Hsf & Hr). now rewrite Hsf.
  - intros Hon. destruct (Hzp Hon) as (zf & t & Hzf & Hr & Hl). rewrite Hzf. eauto.
Qed.

(** X4: the four filters combine with AND, each bound value reaching the
    placeholder it was meant for.  A row passes the WHERE clause exactly
    when it passes every filter whose guard fired: some keyword column
    LIKE %keyword%, city equal to the chosen city, the state column equal
    to the chosen state, and the postal-code column LIKE the trimmed
    prefix followed by %.  (A NULL in a tested column fails the test.) *)
Theorem X4_filters_conjoin (e : gset string) (f : filters)
    (row : gmap string string) :
  keeps (where_clauses e f) (params e f) row = true <->
  (kw_on (active e f) = true -> keyword_test e f row)
  /\ (city_on (active e f) = true -> city_test f row)
  /\ (state_on (active e f) = true -> state_test e f row)
  /\ (zip_on (active e f) = true -> zip_test e f row).
Proof. apply keeps_conjunction. Qed.

Lemma like_any_run (p text : string) :
  like (String "%" p) text
  = like p text
    || match text with
       | EmptyString => false
       | String _ text' => like (String "%" p) text'
       end.
Proof. destruct text; reflexivity. Qed.

Lemma like_contains (k text : string) :
  has_wildcard k = false -> like ("%" +:+ k +:+ "%") text = contains k text.
Proof.
  intros Hw. change ("%" +:+ k +:+ "%") with (String "%" (k +:+ "%")).
  induction text as [|c text IH]; rewrite like_any_run, like_prefix by exact Hw.
  - reflexivity.
  - now rewrite IH.
Qed.

Lemma contains_split (k text : string) :
  contains k text = true <->
  exists before rest, text = before +:+ rest /\ begins_with k rest = true.
Proof.
  induction text as [|c text IH].
  - simpl. rewrite orb_false_r. split.
    + intros H. now exists EmptyString, EmptyString.
    + intros (b & r & Ht & Hb). destruct b; [|discriminate]. simpl in Ht.
      rewrite Ht. exact Hb.
  - simpl. rewrite orb_true_iff, IH. split.
    + intros [H | (b & r & -> & Hb)].
      * now exists EmptyString, (String c text).
      * now exists (String c b), r.
    + intros (b & r & Ht & Hb). destruct b as [|d b]; simpl in Ht.
      * left. rewrite Ht. exact Hb.
      * injection Ht as -> ->. right. eauto.
Qed.

(** X5: with nothing but a keyword free of LIKE wild cards typed in, and
    at least one keyword column present, a row is kept exactly when one of
    the present keyword columns (the name column, full_address, site)
    holds the keyword somewhere in its text, letters compared without
    regard to ASCII case; a NULL column never matches. *)
Theorem X5_keyword_is_substring (e : gset string) (k : string)
    (row : gmap string string) :
  kw_fields e <> [] -> k <> EmptyString -> has_wildcard k = false ->
  (keeps (where_clauses e (only_keyword k)) (params e (only_keyword k)) row = true
   <-> exists c text, c ∈ kw_fields e /\ row !! c = Some text
                      /\ contains k text = true)
  /\ (forall text,
        contains k text = true <->
        exists before rest, text = before +:+ rest /\ begins_with k rest = true).
Proof.
  intros Hkw Hk Hw. split; [|intros text; apply contains_split].
  rewrite keeps_conjunction.
  assert (active e (only_keyword k)
          = {| kw_on := true; city_on := false; state_on := false; zip_on := false |})
    as ->.
  { unfold active, only_keyword. cbn [q city state zip_like].
    rewrite bool_decide_eq_false_2 by exact Hkw.
    apply truthy_nonempty in Hk. rewrite Hk.
    change (differs any any) with false. change (Py.strip EmptyString) with EmptyString.
    now rewrite !andb_false_r. }
  cbn [kw_on city_on state_on zip_on]. unfold keyword_test, only_keyword. cbn [q].
  split.
  - intros (H & _). destruct (H eq_refl) as (c & t & Hc & Hr & Hl).
    exists c, t. now rewrite <- like_contains.
  - intros (c & t & Hc & Hr & Hl). repeat split; try discriminate.
    intros _. exists c, t. now rewrite like_contains.
Qed.

Lemma X5_witness :
  let e := Sample.columns_of Sample.directory in
  (keeps (where_clauses e (only_keyword "dental")) (params e (only_keyword "dental"))
         Sample.maple = true
   <-> exists c text, c ∈ kw_fields e /\ Sample.maple !! c = Some text
                      /\ contains "dental" text = true)
  /\ (forall text,
        contains "dental" text = true <->
        exists before rest, text = before +:+ rest /\ begins_with "dental" rest = true).
Proof.
  apply (X5_keyword_is_substring (Sample.columns_of Sample.directory) "dental"
           Sample.maple).
  - vm_compute. discriminate.
  - discriminate.
  - reflexivity.
Defined.

End FilterSemantics.

(** ** The selected columns *)

Section SelectFacts.
Import Schema Filter Sql Reading.

Lemma selected_step (e : gset string) (cl : option string * option string)
    (rest : list (option string * option string)) (lab : string) (labs : list string) :
  (forall y, keep_present e cl = Some y -> snd y = lab) ->
  map snd (omap (keep_present e) rest) `sublist_of` labs ->
  map snd (omap (keep_present e) (cl :: rest)) `sublist_of` lab :: labs.
Proof.
  intros Hl Hs. simpl. destruct (keep_present e cl) as [y|] eqn:Hy; simpl.
  - rewrite (Hl y eq_refl). now apply sublist_skip.
  - now apply sublist_cons.
Qed.

Lemma keep_present_label (e : gset string) (oc : option string) (lab : string)
    (y : string * string) :
  keep_present e (oc, Some lab) = Some y -> snd y = lab.
Proof.
  unfold keep_present. simpl. destruct (present e oc); [|discriminate].
  now intros [= <-].
Qed.

Lemma keep_present_optional (e : gset string) (oc : option string) (lab : string)
    (y : string * string) :
  keep_present e (if truthy_field oc then (oc, Some lab) else (None, None)) = Some y ->
  snd y = lab.
Proof.
  destruct (truthy_field oc); [apply keep_present_label|].
  unfold keep_present. simpl. discriminate.
Qed.

Lemma selected_labels_in_order (e : gset string) :
  map snd (selected e) `sublist_of` all_labels.
Proof.
  unfold selected, select_schema, all_labels.
  change (fun cl : option string * option string =>
            if present e (fst cl)
            then Some (field_name (fst cl), default "None" (snd cl)) else None)
    with (keep_present e).
  repeat (apply selected_step;
          [ first [ apply keep_present_label | apply keep_present_optional ] | ]).
  constructor.
Qed.

Lemma selected_column_of_label (e : gset string) (c l : string) :
  (c, l) ∈ selected e -> c = label_column e l /\ has e c = true.
Proof.
  intros H. split; [|now apply (selected_elem e (c, l))].
  unfold selected in H. apply list_elem_of_omap in H as (x & Hin & Hx).
  destruct (present e (fst x)) eqn:Hp; [|discriminate]. injection Hx as <- <-.
  unfold select_schema in Hin.
  repeat (apply elem_of_cons in Hin as [-> | Hin]);
    [| | | | | | | | | now apply elem_of_nil in Hin]; try reflexivity.
  - simpl in *. destruct (truthy_field (name_col e)); [reflexivity | discriminate].
  - destruct (truthy_field (state_field e)); [reflexivity | discriminate].
  - destruct (truthy_field (zip_field e)); [reflexivity | discriminate].
Qed.

Lemma selected_intro (e : gset string) (oc : option string) (lab : string) :
  (oc, Some lab) ∈ select_schema e -> present e oc = true ->
  (field_name oc, lab) ∈ selected e.
Proof.
  intros Hin Hp. unfold selected. apply list_elem_of_omap.
  exists (oc, Some lab). split; [exact Hin|]. simpl. now rewrite Hp.
Qed.

Lemma prefer_present (e : gset string) (a b : string) :
  has e a = true \/ has e b = true ->
  exists c, prefer e a b = Some c /\ has e c = true.
Proof.
  unfold prefer. intros [H | H].
  - rewrite H. eauto.
  - destruct (has e a) eqn:Ha; [eauto|]. rewrite H. eauto.
Qed.

(** Any expected column of the table puts an entry in the select list. *)
Lemma selected_nonempty (e : gset string) (c : string) :
  c ∈ ["name_std"; "name"; "phone"; "full_address"; "city"; "state_std";
       "state"; "postal_code_std"; "postal_code"; "country";
       "location_link"; "site"] ->
  c ∈ e -> selected e <> [].
Proof.
  intros Hc Hin Hsel. apply has_elem in Hin.
  assert (forall oc lab, (oc, Some lab) ∈ select_schema e -> present e oc = true -> False)
    as Hno.
  { intros oc lab H1 H2. pose proof (selected_intro e oc lab H1 H2) as H.
    rewrite Hsel in H. now apply elem_of_nil in H. }
  assert (has e "name_std" = true \/ has e "name" = true -> False) as Hname.
  { intros H. destruct (prefer_present e "name_std" "name" H) as (n & Hn & Hh).
    apply (Hno (Some (if has e "name_std" then "name_std" else "name")) "Name").
    - unfold select_schema, name_col. rewrite Hn.
      assert (Py.truthy n = true) as Ht
        by (apply prefer_some in Hn as [[-> | ->] _]; reflexivity).
      simpl. rewrite Ht. apply list_elem_of_here.
    - simpl. destruct (has e "name_std") eqn:Hs; simpl; [exact Hs|].
      destruct H as [H | H]; [discriminate | exact H]. }
  assert (has e "state_std" = true \/ has e "state" = true -> False) as Hstate.
  { intros H. destruct (prefer_present e "state_std" "state" H) as (n & Hn & Hh).
    assert (Py.truthy n = true) as Ht
      by (apply prefer_some in Hn as [[-> | ->] _]; reflexivity).
    apply (Hno (Some n) "State").
    - unfold select_schema, state_field. rewrite Hn. simpl. rewrite Ht.
      do 4 apply list_elem_of_further. apply list_elem_of_here.
    - simpl. now rewrite Ht, Hh. }
  assert (has e "postal_code_std" = true \/ has e "postal_code" = true -> False) as Hzip.
  { intros H.
    destruct (prefer_present e "postal_code_std" "postal_code" H) as (n & Hn & Hh).
    assert (Py.truthy n = true) as Ht
      by (apply prefer_some in Hn as [[-> | ->] _]; reflexivity).
    apply (Hno (Some n) "ZIP").
    - unfold select_schema, zip_field. rewrite Hn. simpl. rewrite Ht.
      do 5 apply list_elem_of_further. apply list_elem_of_here.
    - simpl. now rewrite Ht, Hh. }
  repeat (apply elem_of_cons in Hc as [-> | Hc]); try (now apply elem_of_nil in Hc);
    try (apply Hname; auto; fail); try (apply Hstate; auto; fail);
    try (apply Hzip; auto; fail).
  - apply (Hno (Some "phone") "Phone"); [unfold select_schema; in_list | simpl; now rewrite Hin].
  - apply (Hno (Some "full_address") "Address");
      [unfold select_schema; in_list | simpl; now rewrite Hin].
  - apply (Hno (Some "city") "City"); [unfold select_schema; in_list | simpl; now rewrite Hin].
  - apply (Hno (Some "country") "Country");
      [unfold select_schema; in_list | simpl; now rewrite Hin].
  - apply (Hno (Some "location_link") "Map");
      [unfold select_schema; in_list | simpl; now rewrite Hin].
  - apply (Hno (Some "site") "Website");
      [unfold select_schema; in_list | simpl; now rewrite Hin].
Qed.

(** X6: the columns of the results table.  Their labels are distinct and
    come in the fixed display order (Name, Phone, Address, City, State,
    ZIP, Country, Map, Website, minus those whose column is missing);
    every selected column exists in the table; and each label stands for
    one column: Name for name_std when the table has it and for name
    otherwise, Map for location_link, Website for site, and so on. *)
Theorem X6_selected_columns (e : gset string) :
  NoDup (map snd (selected e))
  /\ map snd (selected e) `sublist_of` all_labels
  /\ (forall c l, (c, l) ∈ selected e -> c ∈ e /\ c = label_column e l)
  /\ length (select_list e) = length (selected e)
  /\ (selected e = [] <->
      forall c, c ∈ ["name_std"; "name"; "phone"; "full_address"; "city"; "state_std";
                     "state"; "postal_code_std"; "postal_code"; "country";
                     "location_link"; "site"] -> c ∉ e).
Proof.
  split; [|split; [|split; [|split]]].
  - apply (sublist_NoDup _ all_labels); [|apply selected_labels_in_order].
    unfold all_labels. compute_done.
  - apply selected_labels_in_order.
  - intros c l H. apply selected_column_of_label in H as [Hc Hh].
    split; [now apply has_elem | exact Hc].
  - unfold select_list. apply length_map.
  - split.
    + intros Hsel c Hc Hin. now apply (selected_nonempty e c Hc Hin).
    + intros Hnone. destruct (selected e) as [|[c l] rest] eqn:Hsel; [reflexivity|].
      exfalso. apply (Hnone c).
      * apply (selected_elem e (c, l)). rewrite Hsel. apply list_elem_of_here.
      * apply has_elem. apply (selected_elem e (c, l)). rewrite Hsel.
        apply list_elem_of_here.
Qed.

End SelectFacts.

(** ** The query helpers on a healthy connection *)

Section Helpers.
Import Schema Filter Sql Frame Sqlite App Reading.

Lemma query_ok (con : connection) (s : statement) (fr : frame) (w : world) :
  read_sql con s = Ok fr ->
  query con s w = (after_query w s fr, Ok (fresh (dom (frames w)))).
Proof. intros H. unfold query. now rewrite H. Qed.

Lemma query_raise (con : connection) (s : statement) (e : exn) (w : world) :
  read_sql con s = Raise e ->
  query con s w
  = ({| session := session w; frames := frames w; issued := issued w ++ [s];
        display := display w |},
     Raise e).
Proof. intros H. unfold query. now rewrite H. Qed.

Lemma tolist_after (label : string) (s : statement) (fr : frame) (w : world) :
  tolist label (fresh (dom (frames w))) (after_query w s fr)
  = (after_query w s fr, column label fr).
Proof.
  unfold tolist, deref, lift, mbind, M_bind. simpl.
  now rewrite lookup_total_insert_eq.
Qed.

Lemma strings_of_texts (l : list string) : strings (CStr <$> l) = l.
Proof.
  unfold strings. induction l as [|x l IH]; simpl; [reflexivity | f_equal; exact IH].
Qed.

Lemma get_columns_healthy (tables : gmap string table) (t : string) (w : world) :
  get_columns (healthy tables) t w
  = (after_query w (TableInfo t) [("name", CStr <$> columns_in tables t)],
     Ok (list_to_set (columns_in tables t))).
Proof.
  unfold get_columns, mbind, M_bind.
  rewrite (query_ok _ _ [("name", CStr <$> columns_in tables t)]) by reflexivity.
  rewrite tolist_after. simpl. now rewrite strings_of_texts.
Qed.

Lemma list_tables_healthy (tables : gmap string table) (w : world) :
  list_tables (healthy tables) w
  = (after_query w TableNames [("name", CStr <$> (map_to_list tables).*1)],
     Ok (map_to_list tables).*1).
Proof.
  unfold list_tables, mbind, M_bind.
  rewrite (query_ok _ _ [("name", CStr <$> (map_to_list tables).*1)]) by reflexivity.
  rewrite tolist_after. simpl. now rewrite strings_of_texts.
Qed.

Lemma first_int_after (s : statement) (n : Z) (w : world) :
  first_int (fresh (dom (frames w))) (after_query w s [("c", [CInt n])])
  = (after_query w s [("c", [CInt n])], Ok n).
Proof.
  unfold first_int. unfold mbind at 1. unfold M_bind. now rewrite tolist_after.
Qed.

Lemma has_columns (tables : gmap string table) (t c : string) :
  has (list_to_set (columns_in tables t)) c = bool_decide (c ∈ columns_in tables t).
Proof. unfold has. apply bool_decide_ext. apply elem_of_list_to_set. Qed.

Lemma prepare_column (tables : gmap string table) (t c : string) (tbl : table) :
  tables !! t = Some tbl -> c ∈ t_cols tbl ->
  prepare tables t (fun t' => unknown_column t' [c]) 0 0 = Ok tbl.
Proof.
  intros Ht Hc. unfold prepare. rewrite Ht.
  rewrite unknown_column_none; [reflexivity|].
  intros c' Hc'. apply list_elem_of_singleton in Hc'. now subst c'.
Qed.

(** [distinct_count] and [value_list] on a column the table has. *)
Lemma distinct_count_present (tables : gmap string table) (t c : string)
    (tbl : table) (w : world) :
  tables !! t = Some tbl -> c ∈ t_cols tbl ->
  exists w', distinct_count (healthy tables) t c w
             = (w', Ok (Z.of_nat (size (list_to_set (C := gset string)
                                          (non_null c (t_rows tbl))))))
             /\ session w' = session w
             /\ issued w' = issued w ++ [TableInfo t; CountDistinct t c].
Proof.
  intros Ht Hc. unfold distinct_count. unfold mbind at 1. unfold M_bind.
  rewrite get_columns_healthy, has_columns.
  unfold columns_in. rewrite Ht. simpl from_option.
  rewrite bool_decide_eq_true_2 by exact Hc.
  unfold mbind, M_bind.
  set (w1 := after_query w _ _).
  rewrite (query_ok _ _ [("c", [CInt (Z.of_nat (size (list_to_set (C := gset string)
                                    (non_null c (t_rows tbl)))))])]).
  - rewrite first_int_after. eexists. split; [reflexivity|].
    simpl. split; [reflexivity|]. now rewrite <- app_assoc.
  - unfold read_sql, healthy. cbn [fault db eval].
    now rewrite (prepare_column _ _ _ _ Ht Hc).
Qed.

Lemma value_list_present (tables : gmap string table) (t c : string)
    (tbl : table) (w : world) :
  tables !! t = Some tbl -> c ∈ t_cols tbl ->
  exists w', value_list (healthy tables) t c w
             = (w', Ok (merge_sort text_le
                          (elements (list_to_set (C := gset string)
                                       (non_null c (t_rows tbl))))))
             /\ session w' = session w
             /\ issued w' = issued w ++ [TableInfo t; DistinctValues t c].
Proof.
  intros Ht Hc. unfold value_list. unfold mbind at 1. unfold M_bind.
  rewrite get_columns_healthy, has_columns.
  unfold columns_in. rewrite Ht. simpl from_option.
  rewrite bool_decide_eq_true_2 by exact Hc.
  unfold mbind, M_bind.
  set (w1 := after_query w _ _).
  rewrite (query_ok _ _ [("v", CStr <$> merge_sort text_le
                                 (elements (list_to_set (C := gset string)
                                              (non_null c (t_rows tbl)))))]).
  - rewrite tolist_after. simpl. rewrite strings_of_texts.
    eexists. split; [reflexivity|].
    simpl. split; [reflexivity|]. now rewrite <- app_assoc.
  - unfold read_sql, healthy. cbn [fault db eval].
    now rewrite (prepare_column _ _ _ _ Ht Hc).
Qed.

Lemma helpers_absent (tables : gmap string table) (t c : string) (w : world) :
  c ∉ columns_in tables t ->
  distinct_count (healthy tables) t c w
  = (after_query w (TableInfo t) [("name", CStr <$> columns_in tables t)], Ok 0)
  /\ value_list (healthy tables) t c w
     = (after_query w (TableInfo t) [("name", CStr <$> columns_in tables t)], Ok []).
Proof.
  intros Hc. unfold distinct_count, value_list. unfold mbind, M_bind.
  rewrite get_columns_healthy, has_columns.
  now rewrite bool_decide_eq_false_2 by exact Hc.
Qed.

End Helpers.

Section HelperClaims.
Import Schema Filter Sql Frame Sqlite App Reading.

#[local] Instance text_le_total : Total text_le.
Proof.
  intros a b. unfold text_le.
  destruct (String.leb_total a b) as [-> | ->]; simpl; auto.
Qed.

(** X7: asked about a column the table lacks (or about a table the
    database lacks), [distinct_count] answers 0 and [value_list] the empty
    list, having sent nothing but the PRAGMA that lists the columns. *)
Theorem X7_absent_column_is_zero (tables : gmap string table) (t c : string)
    (w : world) :
  c ∉ columns_in tables t ->
  snd (distinct_count (healthy tables) t c w) = Ok 0
  /\ snd (value_list (healthy tables) t c w) = Ok []
  /\ issued (fst (distinct_count (healthy tables) t c w)) = issued w ++ [TableInfo t]
  /\ issued (fst (value_list (healthy tables) t c w)) = issued w ++ [TableInfo t].
Proof.
  intros Hc. destruct (helpers_absent tables t c w Hc) as [-> ->]. auto.
Qed.

Lemma X7_witness :
  let w := {| session := ∅; frames := ∅; issued := []; display := [] |} in
  let tables : gmap string table := {[ "records" := Sample.raw_only ]} in
  snd (distinct_count (healthy tables) "records" "postal_code" w) = Ok 0
  /\ snd (value_list (healthy tables) "records" "postal_code" w) = Ok []
  /\ issued (fst (distinct_count (healthy tables) "records" "postal_code" w))
     = issued w ++ [TableInfo "records"]
  /\ issued (fst (value_list (healthy tables) "records" "postal_code" w))
     = issued w ++ [TableInfo "records"].
Proof.
  apply (X7_absent_column_is_zero {[ "records" := Sample.raw_only ]} "records"
           "postal_code" {| session := ∅; frames := ∅; issued := []; display := [] |}).
  vm_compute. intros H. repeat (apply elem_of_cons in H as [H | H]; [discriminate|]).
  now apply elem_of_nil in H.
Defined.

Lemma non_null_elem (c v : string) (rows : list (gmap string string)) :
  v ∈ non_null c rows <-> exists row, row ∈ rows /\ row !! c = Some v.
Proof. unfold non_null. apply list_elem_of_omap. Qed.

Lemma non_null_length (c : string) (rows : list (gmap string string)) :
  (length (non_null c rows) <= length rows)%nat.
Proof.
  unfold non_null. induction rows as [|r rows IH]; csimpl; [lia|].
  destruct (r !! c); csimpl; lia.
Qed.

(** X8: on a column the table has, [value_list] lists the distinct
    non-NULL values of the column, each once, in ascending order, and
    [distinct_count] is the length of that list; it is at most the number
    of rows. *)
Theorem X8_values_and_their_count (tables : gmap string table) (t c : string)
    (tbl : table) (w : world) :
  tables !! t = Some tbl -> c ∈ t_cols tbl ->
  exists n vs,
    snd (distinct_count (healthy tables) t c w) = Ok n
    /\ snd (value_list (healthy tables) t c w) = Ok vs
    /\ n = Z.of_nat (length vs)
    /\ NoDup vs
    /\ Sorted text_le vs
    /\ (forall v, v ∈ vs <-> exists row, row ∈ t_rows tbl /\ row !! c = Some v)
    /\ n <= Z.of_nat (length (t_rows tbl)).
Proof.
  intros Ht Hc.
  destruct (distinct_count_present tables t c tbl w Ht Hc) as (w1 & -> & _).
  destruct (value_list_present tables t c tbl w Ht Hc) as (w2 & -> & _).
  set (known := list_to_set (C := gset string) (non_null c (t_rows tbl))).
  pose proof (merge_sort_Permutation text_le (elements known)) as Hperm.
  eexists _, _. split; [reflexivity|]. split; [reflexivity|].
  split; [|split; [|split; [|split]]].
  - now rewrite Hperm.
  - rewrite Hperm. apply NoDup_elements.
  - apply Sorted_merge_sort, _.
  - intros v. rewrite Hperm, elem_of_elements. unfold known.
    rewrite elem_of_list_to_set. apply non_null_elem.
  - apply inj_le. transitivity (length (non_null c (t_rows tbl)));
      [|apply non_null_length].
    apply submseteq_length, NoDup_submseteq; [apply NoDup_elements|].
    intros v. rewrite elem_of_elements. unfold known. now rewrite elem_of_list_to_set.
Qed.

Lemma X8_witness :
  exists n vs,
    snd (distinct_count (healthy {[ "records" := Sample.directory ]}) "records" "city"
           {| session := ∅; frames := ∅; issued := []; display := [] |}) = Ok n
    /\ snd (value_list (healthy {[ "records" := Sample.directory ]}) "records" "city"
              {| session := ∅; frames := ∅; issued := []; display := [] |}) = Ok vs
    /\ n = Z.of_nat (length vs)
    /\ NoDup vs
    /\ Sorted text_le vs
    /\ (forall v, v ∈ vs <->
                  exists row, row ∈ t_rows Sample.directory /\ row !! "city" = Some v)
    /\ n <= Z.of_nat (length (t_rows Sample.directory)).
Proof.
  apply (X8_values_and_their_count {[ "records" := Sample.directory ]} "records" "city"
           Sample.directory {| session := ∅; frames := ∅; issued := []; display := [] |}).
  - reflexivity.
  - simpl. in_list.
Defined.

End HelperClaims.

(** ** Pages and the export *)

Section Pages.
Import Schema Filter Sql Frame Sqlite App Reading.

Lemma page_rows_take {A} (rows : list A) (P : Z) (n : nat) :
  1 <= P ->
  page_rows rows P (Z.of_nat (S n))
  = take (Z.to_nat P) (drop (n * Z.to_nat P) rows).
Proof.
  intros HP. unfold page_rows, window_rows.
  destruct (Z.ltb_spec P 0); [lia|].
  replace (Z.to_nat ((Z.of_nat (S n) - 1) * P)) with (n * Z.to_nat P)%nat by nia.
  reflexivity.
Qed.

Lemma pages_upto_take {A} (rows : list A) (P : Z) (n : nat) :
  1 <= P -> pages_upto rows P n = take (n * Z.to_nat P) rows.
Proof.
  intros HP. induction n as [|n IH]; [reflexivity|].
  cbn [pages_upto]. rewrite IH, page_rows_take, take_take_drop by exact HP.
  f_equal. lia.
Qed.

Lemma max_page_times (R P : Z) : 0 <= R -> 1 <= P -> R <= Pager.max_page R P * P.
Proof.
  intros HR HP. unfold Pager.max_page.
  pose proof (Z.mul_succ_div_gt (R + P - 1) P ltac:(lia)) as H.
  assert ((R + P - 1) / P <= Z.max 1 ((R + P - 1) / P)) as Hm by lia.
  nia.
Qed.

(** The pages 1 to max_page cover the rows, in order, without overlap. *)
Lemma pages_cover {A} (rows : list A) (P : Z) :
  1 <= P ->
  pages_upto rows P (Z.to_nat (Pager.max_page (Z.of_nat (length rows)) P)) = rows.
Proof.
  intros HP. rewrite pages_upto_take by exact HP. apply take_ge.
  pose proof (max_page_times (Z.of_nat (length rows)) P ltac:(lia) HP) as H.
  pose proof (Pager.max_page (Z.of_nat (length rows)) P) as m.
  nia.
Qed.

Lemma find_none_all {A} (p : A -> bool) (l : list A) :
  (forall x, x ∈ l -> p x = false) -> find p l = None.
Proof.
  induction l as [|a l IH]; intros H; simpl; [reflexivity|].
  rewrite (H a) by apply list_elem_of_here.
  apply IH. intros x Hx. apply H. now apply list_elem_of_further.
Qed.

Lemma selected_label (e : gset string) (c l : string) :
  (c, l) ∈ selected e -> l ∈ all_labels.
Proof.
  intros H. apply (elem_of_sublist (map snd (selected e)));
    [|apply selected_labels_in_order].
  apply list_elem_of_fmap. now exists (c, l).
Qed.

(** A selected column that reads like a label of the result reads like
    its own label (phone and Phone, city and City, state and State,
    country and Country). *)
Lemma alias_of_selected (e : gset string) (c l c' l' : string) :
  (c, l) ∈ selected e -> (c', l') ∈ selected e -> same_name c l' = true -> c' = c.
Proof.
  intros H H' Hm.
  pose proof (selected_label e c l H) as Hl.
  pose proof (selected_label e c' l' H') as Hl'.
  apply selected_column_of_label in H as [-> _].
  apply selected_column_of_label in H' as [-> _].
  revert Hm. unfold all_labels in Hl, Hl'.
  repeat (apply elem_of_cons in Hl as [-> | Hl]); [| | | | | | | | | now apply elem_of_nil in Hl];
    (repeat (apply elem_of_cons in Hl' as [-> | Hl']);
       [| | | | | | | | | now apply elem_of_nil in Hl']);
    unfold label_column, state_field, zip_field, prefer; cbn [String.eqb Ascii.eqb Bool.eqb];
    destruct (has e "name_std"), (has e "state_std"), (has e "state"),
      (has e "postal_code_std"), (has e "postal_code");
    vm_compute; congruence.
Qed.

(** The first selected column, written alone after ORDER BY, stands for
    itself. *)
Lemma first_column_resolves (e : gset string) (tbl : table) (c l : string)
    (rest : list (string * string)) :
  e = list_to_set (t_cols tbl) -> selected e = (c, l) :: rest ->
  resolve tbl (selected e) (Column c) c = Some c.
Proof.
  intros He Hs.
  assert ((c, l) ∈ selected e) as Hin by (rewrite Hs; apply list_elem_of_here).
  unfold resolve, aliased.
  destruct (find _ (selected e)) as [[c' l']|] eqn:Hf; simpl.
  - apply find_some in Hf as [Hin' Hm]. apply list_elem_of_In in Hin'. simpl in Hm.
    f_equal. exact (alias_of_selected e c l c' l' Hin Hin' Hm).
  - apply table_column_exact, columns_of_table. rewrite <- He.
    apply has_elem. exact (proj2 (selected_elem e (c, l) Hin)).
Qed.

(** With both name columns or neither, every name of the ORDER BY
    expression stands for the column of that name. *)
Lemma order_resolves (e : gset string) (tbl : table) :
  e = list_to_set (t_cols tbl) ->
  has e "name_std" = has e "name" -> selected e <> [] ->
  unresolved tbl (selected e) (order_of e (selected e)) = None
  /\ resolved_order tbl (selected e) (order_of e (selected e))
     = order_of e (selected e).
Proof.
  intros He Hx Hsel. unfold order_of. rewrite Hx.
  destruct (has e "name") eqn:Hn; cbn [orb].
  - apply coalesce_resolves; apply columns_of_table; rewrite <- He; now apply has_elem.
  - destruct (selected e) as [|[c l] rest] eqn:Hs; [congruence|]. cbn [map hd fst].
    pose proof (first_column_resolves e tbl c l rest He Hs) as Hr. rewrite Hs in Hr.
    unfold unresolved, resolved_order. cbn [order_columns find]. rewrite Hr.
    split; reflexivity.
Qed.

(** A SELECT of the script is answered or refused according to the names
    of its ORDER BY expression. *)
Lemma select_rows_answer (tables : gmap string table) (t : string) (tbl : table)
    (f : filters) (window : option (Z * Z)) :
  tables !! t = Some tbl ->
  let e : gset string := list_to_set (t_cols tbl) in
  read_sql (healthy tables)
    (SelectRows (selected e) t (where_clauses e f) (params e f)
                (order_of e (selected e)) window)
  = match unresolved tbl (selected e) (order_of e (selected e)) with
    | Some c => Raise (no_such_column c)
    | None =>
        Ok (project (selected e)
              (window_rows window
                 (order_rows (resolved_order tbl (selected e) (order_of e (selected e)))
                    (filter (fun r => Is_true (keeps (where_clauses e f) (params e f) r))
                            (t_rows tbl)))))
    end.
Proof.
  intros Ht e.
  pose proof (select_rows_prepare tables t tbl f Ht) as Hp. cbv zeta in Hp.
  unfold read_sql, healthy. cbn [fault db]. unfold eval. fold e in Hp. rewrite Hp.
  now destruct (unresolved tbl _ _).
Qed.

Lemma select_rows_healthy (tables : gmap string table) (t : string) (tbl : table)
    (f : filters) (window : option (Z * Z)) :
  tables !! t = Some tbl ->
  let e : gset string := list_to_set (t_cols tbl) in
  has e "name_std" = has e "name" -> selected e <> [] ->
  read_sql (healthy tables)
    (SelectRows (selected e) t (where_clauses e f) (params e f)
                (order_of e (selected e)) window)
  = Ok (project (selected e) (window_rows window (result_rows e f tbl))).
Proof.
  intros Ht e Hx Hsel.
  pose proof (select_rows_answer tables t tbl f window Ht) as Hr. cbv zeta in Hr.
  fold e in Hr. rewrite Hr.
  destruct (order_resolves e tbl eq_refl Hx Hsel) as [-> ->]. reflexivity.
Qed.

End Pages.

Section PageClaims.
Import Schema Filter Sql Frame Sqlite App Reading.

Lemma result_rows_length (e : gset string) (f : filters) (tbl : table) :
  length (result_rows e f tbl)
  = length (filter (fun r => Is_true (keeps (where_clauses e f) (params e f) r))
                   (t_rows tbl)).
Proof.
  unfold result_rows, order_rows. now rewrite merge_sort_Permutation.
Qed.

Lemma page_rows_bounds {A} (rows : list A) (P k : Z) :
  1 <= P ->
  Z.of_nat (length (page_rows rows P k)) <= P
  /\ (1 <= k <= Pager.max_page (Z.of_nat (length rows)) P -> rows <> [] ->
      page_rows rows P k <> []).
Proof.
  intros HP. unfold page_rows, window_rows. destruct (Z.ltb_spec P 0); [lia|].
  split.
  - rewrite length_take. lia.
  - intros Hk Hne Hnil. apply (f_equal length) in Hnil.
    rewrite length_take, length_drop in Hnil. simpl in Hnil.
    assert (0 < Z.of_nat (length rows)) as Hpos by (destruct rows; [congruence | simpl; lia]).
    pose proof (max_page_covers _ P k Hpos HP Hk) as Hc. nia.
Qed.

(** X9: pages and export agree.  Where the table has both name columns or
    neither, and something to select, the queries are prepared, each name
    of the ORDER BY expression standing for the column of that name; the
    export query returns the kept rows in ORDER BY order; page k of the page query is
    the k-th stretch of page_size rows of that same list; the count query
    gives its length; so pages 1 to max_page, laid end to end, are the
    export exactly, no row twice and none missing, every page holding at
    most page_size rows and, when there are rows at all, at least one. *)
Theorem X9_pages_make_up_the_export (tables : gmap string table) (t : string)
    (tbl : table) (f : filters) (P : Z) :
  tables !! t = Some tbl ->
  let e : gset string := list_to_set (t_cols tbl) in
  let rows := result_rows e f tbl in
  has e "name_std" = has e "name" -> selected e <> [] -> 1 <= P ->
  read_sql (healthy tables) (export_query t e f) = Ok (project (selected e) rows)
  /\ (forall k, read_sql (healthy tables) (page_query t e f P ((k - 1) * P))
                = Ok (project (selected e) (page_rows rows P k)))
  /\ read_sql (healthy tables) (count_query t e f)
     = Ok [("c", [CInt (Z.of_nat (length rows))])]
  /\ pages_upto rows P (Z.to_nat (Pager.max_page (Z.of_nat (length rows)) P)) = rows
  /\ (forall k, Z.of_nat (length (page_rows rows P k)) <= P)
  /\ (forall k, 1 <= k <= Pager.max_page (Z.of_nat (length rows)) P -> rows <> [] ->
                page_rows rows P k <> []).
Proof.
  intros Ht e rows Hx Hsel HP.
  split; [exact (select_rows_healthy tables t tbl f None Ht Hx Hsel)|].
  split; [intros k; exact (select_rows_healthy tables t tbl f _ Ht Hx Hsel)|].
  split.
  { unfold count_query, rows. rewrite result_rows_length.
    apply eval_count; [exact Ht | | symmetry; apply params_length].
    intros c Hc. apply columns_of_table. now apply (where_columns_exist e f). }
  split; [now apply pages_cover|].
  split; intros k; now apply page_rows_bounds.
Qed.

Lemma X9_witness :
  let tables : gmap string table := {[ "records" := Sample.directory ]} in
  let e : gset string := list_to_set (t_cols Sample.directory) in
  let rows := result_rows e Sample.nothing_set Sample.directory in
  read_sql (healthy tables) (export_query "records" e Sample.nothing_set)
    = Ok (project (selected e) rows)
  /\ (forall k, read_sql (healthy tables)
                  (page_query "records" e Sample.nothing_set 10 ((k - 1) * 10))
                = Ok (project (selected e) (page_rows rows 10 k)))
  /\ read_sql (healthy tables) (count_query "records" e Sample.nothing_set)
     = Ok [("c", [CInt (Z.of_nat (length rows))])]
  /\ pages_upto rows 10 (Z.to_nat (Pager.max_page (Z.of_nat (length rows)) 10)) = rows
  /\ (forall k, Z.of_nat (length (page_rows rows 10 k)) <= 10)
  /\ (forall k, 1 <= k <= Pager.max_page (Z.of_nat (length rows)) 10 -> rows <> [] ->
                page_rows rows 10 k <> []).
Proof.
  apply (X9_pages_make_up_the_export {[ "records" := Sample.directory ]} "records"
           Sample.directory Sample.nothing_set 10).
  - reflexivity.
  - vm_compute. reflexivity.
  - vm_compute. discriminate.
  - lia.
Defined.

(** No label of the result reads like name_std; the label Name reads like
    name, and stands for name_std when the table has that column. *)
Lemma no_label_like_name_std (e : gset string) :
  aliased (selected e) "name_std" = None.
Proof.
  unfold aliased. rewrite find_none_all; [reflexivity|].
  intros [c l] H. apply selected_label in H. unfold all_labels in H. simpl.
  repeat (apply elem_of_cons in H as [-> | H]; [reflexivity|]).
  now apply elem_of_nil in H.
Qed.

Lemma name_label_first (e : gset string) :
  has e "name_std" = true -> aliased (selected e) "name" = Some "name_std".
Proof.
  intros Hs. unfold aliased, selected, select_schema, name_col, prefer.
  rewrite Hs. cbn [truthy_field Py.truthy omap list_omap fst snd present andb].
  rewrite Hs. reflexivity.
Qed.

Lemma stranded_true (tbl : table) :
  stranded tbl = true <->
  "name" ∈ t_cols tbl /\ forall c, c ∈ t_cols tbl -> same_name "name_std" c = false.
Proof.
  unfold stranded. rewrite andb_true_iff, bool_decide_eq_true, forallb_forall.
  split; intros [Hn Hall]; (split; [exact Hn|]); intros c Hc.
  - apply list_elem_of_In, Hall, negb_true_iff in Hc. exact Hc.
  - apply negb_true_iff, Hall. now apply list_elem_of_In.
Qed.

(** Which name of the ORDER BY expression stands for nothing: name_std,
    on a stranded table, and none anywhere else. *)
Lemma unresolved_order (tbl : table) :
  let e : gset string := list_to_set (t_cols tbl) in
  selected e <> [] ->
  unresolved tbl (selected e) (order_of e (selected e))
  = if stranded tbl then Some "name_std" else None.
Proof.
  intros e Hsel.
  destruct (has e "name_std") eqn:Hs.
  - (* name_std is a column; name is one too, or the label Name *)
    assert ("name_std" ∈ t_cols tbl) as Hin by now apply columns_of_table, has_elem.
    replace (stranded tbl) with false.
    2:{ symmetry. apply not_true_is_false. intros Hst.
        apply stranded_true in Hst as [_ Hall].
        specialize (Hall _ Hin). now rewrite same_name_refl in Hall. }
    unfold order_of. rewrite Hs. cbn [orb].
    unfold unresolved, resolve. cbn [order_columns find].
    rewrite (table_column_exact _ _ Hin). cbn [negb bool_decide].
    rewrite bool_decide_eq_true_2 by eauto. cbn [negb].
    rewrite (name_label_first e Hs).
    destruct (table_column tbl "name"); now rewrite bool_decide_eq_true_2 by eauto.
  - destruct (has e "name") eqn:Hn.
    + (* name alone: name_std may still be a column under another spelling *)
      assert ("name" ∈ t_cols tbl) as Hin by now apply columns_of_table, has_elem.
      assert ("name_std" ∉ t_cols tbl) as Hout.
      { intros H. apply columns_of_table, has_elem in H. fold e in H. congruence. }
      unfold order_of. rewrite Hs, Hn. cbn [orb].
      unfold unresolved, resolve. cbn [order_columns find].
      rewrite (table_column_exact _ _ Hin), no_label_like_name_std.
      destruct (table_column tbl "name_std") as [c|] eqn:Hf;
        unfold table_column in Hf; rewrite (bool_decide_eq_false_2 _ Hout) in Hf.
      * rewrite !bool_decide_eq_true_2 by eauto. cbn [negb].
        replace (stranded tbl) with false; [reflexivity|].
        symmetry. apply not_true_is_false. intros Hst.
        apply stranded_true in Hst as [_ Hall].
        apply find_some in Hf as [Hc Hm]. apply list_elem_of_In in Hc.
        specialize (Hall _ Hc). congruence.
      * rewrite bool_decide_eq_false_2 by (intros [x Hx]; discriminate). cbn [negb].
        replace (stranded tbl) with true; [reflexivity|].
        symmetry. apply stranded_true. split; [exact Hin|].
        intros c Hc. apply (find_none _ _ Hf). now apply list_elem_of_In.
    + (* neither: the first selected column *)
      replace (stranded tbl) with false.
      2:{ symmetry. apply not_true_is_false. intros Hst.
          apply stranded_true in Hst as [Hin _].
          apply columns_of_table, has_elem in Hin. fold e in Hin. congruence. }
      assert (has e "name_std" = has e "name") as Hx by congruence.
      exact (proj1 (order_resolves e tbl eq_refl Hx Hsel)).
Qed.

(** With name_std and no column called name in any spelling, the name of
    COALESCE(name_std, name) that is no column stands for the label Name,
    that is for name_std again. *)
Lemma resolved_order_std_only (tbl : table) :
  let e : gset string := list_to_set (t_cols tbl) in
  has e "name_std" = true ->
  (forall c, c ∈ t_cols tbl -> same_name "name" c = false) ->
  resolved_order tbl (selected e) (order_of e (selected e))
  = Coalesce ["name_std"; "name_std"].
Proof.
  intros e Hs Hall.
  assert ("name_std" ∈ t_cols tbl) as Hin by now apply columns_of_table, has_elem.
  assert ("name" ∉ t_cols tbl) as Hout.
  { intros H. specialize (Hall _ H). now rewrite same_name_refl in Hall. }
  unfold order_of. rewrite Hs. cbn [orb].
  unfold resolved_order, resolve. cbn [omap list_omap].
  rewrite (table_column_exact _ _ Hin), (name_label_first e Hs).
  unfold table_column. rewrite (bool_decide_eq_false_2 _ Hout).
  rewrite find_none_all by exact Hall. reflexivity.
Qed.

(** X10: when the page and export queries fail.  Over an existing table
    with something to select, on a healthy connection, both queries are
    refused exactly on a stranded table: one with a name column and no
    column called name_std in any spelling; they then raise `no such
    column: name_std`.  On every other table both are answered.  In
    particular a table with name_std and no name column is answered: the
    name of COALESCE(name_std, name) that is no column of the table is
    read as the label Name of the result, which stands for name_std, and
    the rows come in the order of name_std. *)
Theorem X10_select_fails_on_stranded_table (tables : gmap string table)
    (t : string) (tbl : table) (f : filters) (P off : Z) :
  tables !! t = Some tbl ->
  let e : gset string := list_to_set (t_cols tbl) in
  let kept := filter (fun r => Is_true (keeps (where_clauses e f) (params e f) r))
                     (t_rows tbl) in
  selected e <> [] ->
  ((exists fr, read_sql (healthy tables) (page_query t e f P off) = Ok fr)
   <-> stranded tbl = false)
  /\ ((exists fr, read_sql (healthy tables) (export_query t e f) = Ok fr)
      <-> stranded tbl = false)
  /\ (stranded tbl = true ->
      read_sql (healthy tables) (page_query t e f P off)
      = Raise (no_such_column "name_std")
      /\ read_sql (healthy tables) (export_query t e f)
         = Raise (no_such_column "name_std"))
  /\ (stranded tbl = true <->
      "name" ∈ t_cols tbl
      /\ forall c, c ∈ t_cols tbl -> same_name "name_std" c = false)
  /\ (has e "name_std" = true ->
      (forall c, c ∈ t_cols tbl -> same_name "name" c = false) ->
      read_sql (healthy tables) (page_query t e f P off)
      = Ok (project (selected e)
              (window_rows (Some (P, off))
                 (order_rows (Coalesce ["name_std"; "name_std"]) kept)))
      /\ read_sql (healthy tables) (export_query t e f)
         = Ok (project (selected e)
                 (order_rows (Coalesce ["name_std"; "name_std"]) kept))).
Proof.
  intros Ht e kept Hsel.
  pose proof (unresolved_order tbl Hsel) as Hu. cbv zeta in Hu. fold e in Hu.
  assert (forall window,
            read_sql (healthy tables)
              (SelectRows (selected e) t (where_clauses e f) (params e f)
                          (order_of e (selected e)) window)
            = if stranded tbl then Raise (no_such_column "name_std")
              else Ok (project (selected e)
                         (window_rows window
                            (order_rows
                               (resolved_order tbl (selected e) (order_of e (selected e)))
                               kept)))) as Hr.
  { intros window.
    pose proof (select_rows_answer tables t tbl f window Ht) as Ha. cbv zeta in Ha.
    fold e in Ha. rewrite Ha, Hu. now destruct (stranded tbl). }
  assert (forall window,
            (exists fr, read_sql (healthy tables)
                          (SelectRows (selected e) t (where_clauses e f) (params e f)
                                      (order_of e (selected e)) window) = Ok fr)
            <-> stranded tbl = false) as Hiff.
  { intros window. rewrite Hr. destruct (stranded tbl).
    - split; [intros [fr Hfr]; discriminate | discriminate].
    - split; [reflexivity | eauto]. }
  split; [apply Hiff|]. split; [apply Hiff|].
  split.
  { intros Hst. unfold page_query, export_query. rewrite !Hr, Hst. split; reflexivity. }
  split; [apply stranded_true|].
  intros Hs Hall.
  assert (stranded tbl = false) as Hst.
  { apply not_true_is_false. intros Hst. apply stranded_true in Hst as [_ Hno].
    assert ("name_std" ∈ t_cols tbl) as Hin by now apply columns_of_table, has_elem.
    specialize (Hno _ Hin). now rewrite same_name_refl in Hno. }
  pose proof (resolved_order_std_only tbl Hs Hall) as Ho. cbv zeta in Ho. fold e in Ho.
  unfold page_query, export_query. rewrite !Hr, Hst, Ho. split; reflexivity.
Qed.

Lemma X10_witness :
  let tables : gmap string table := {[ "records" := Sample.std_only ]} in
  let e : gset string := list_to_set (t_cols Sample.std_only) in
  let kept := filter (fun r => Is_true (keeps (where_clauses e Sample.nothing_set)
                                          (params e Sample.nothing_set) r))
                     (t_rows Sample.std_only) in
  ((exists fr, read_sql (healthy tables)
                 (page_query "records" e Sample.nothing_set 50 0) = Ok fr)
   <-> stranded Sample.std_only = false)
  /\ ((exists fr, read_sql (healthy tables)
                    (export_query "records" e Sample.nothing_set) = Ok fr)
      <-> stranded Sample.std_only = false)
  /\ (stranded Sample.std_only = true ->
      read_sql (healthy tables) (page_query "records" e Sample.nothing_set 50 0)
      = Raise (no_such_column "name_std")
      /\ read_sql (healthy tables) (export_query "records" e Sample.nothing_set)
         = Raise (no_such_column "name_std"))
  /\ (stranded Sample.std_only = true <->
      "name" ∈ t_cols Sample.std_only
      /\ forall c, c ∈ t_cols Sample.std_only -> same_name "name_std" c = false)
  /\ (has e "name_std" = true ->
      (forall c, c ∈ t_cols Sample.std_only -> same_name "name" c = false) ->
      read_sql (healthy tables) (page_query "records" e Sample.nothing_set 50 0)
      = Ok (project (selected e)
              (window_rows (Some (50, 0))
                 (order_rows (Coalesce ["name_std"; "name_std"]) kept)))
      /\ read_sql (healthy tables) (export_query "records" e Sample.nothing_set)
         = Ok (project (selected e)
                 (order_rows (Coalesce ["name_std"; "name_std"]) kept))).
Proof.
  apply (X10_select_fails_on_stranded_table {[ "records" := Sample.std_only ]}
           "records" Sample.std_only Sample.nothing_set 50 0).
  - reflexivity.
  - vm_compute. discriminate.
Defined.

(** The two tables side by side: with a raw name column only the page is
    refused; with a normalized one only it comes back, rows without a
    name first, then by name. *)
Example page_of_one_name_column :
  read_sql (healthy {[ "records" := Sample.raw_only ]})
    (page_query "records" (Sample.columns_of Sample.raw_only) Sample.nothing_set 50 0)
  = Raise (DatabaseError "no such column: name_std")
  /\ read_sql (healthy {[ "records" := Sample.std_only ]})
       (page_query "records" (Sample.columns_of Sample.std_only) Sample.nothing_set 50 0)
     = Ok [ ("Name", [CNone; CStr "bright dental"; CStr "maple dental"]);
            ("City", [CStr "Sacramento"; CStr "San Francisco"; CStr "Ottawa"]) ].
Proof. split; vm_compute; reflexivity. Qed.

End PageClaims.

(** ** The results block *)

Section ResultsBlock.
Import Schema Filter Sql Frame Sqlite App Reading.

Lemma bind_ok {A B} (m : M A) (k : A -> M B) (w w' : world) (a : A) :
  m w = (w', Ok a) -> (m ≫= k) w = k a w'.
Proof. intros H. unfold mbind, M_bind. now rewrite H. Qed.

Lemma bind_raise {A B} (m : M A) (k : A -> M B) (w w' : world) (e : exn) :
  m w = (w', Raise e) -> (m ≫= k) w = (w', Raise e).
Proof. intros H. unfold mbind, M_bind. now rewrite H. Qed.

Lemma bind_halt {A B} (m : M A) (k : A -> M B) (w w' : world) (msg : string) :
  m w = (w', Halt msg) -> (m ≫= k) w = (w', Halt msg).
Proof. intros H. unfold mbind, M_bind. now rewrite H. Qed.

Lemma deref_ok (r : nat) (fr : frame) (w : world) :
  frames w !! r = Some fr -> deref r w = (w, Ok fr).
Proof. intros H. unfold deref. now rewrite (lookup_total_correct _ _ _ H). Qed.

(** The world once [df = linkify(df.copy())] has run. *)
Lemma linkify_copy_frames (h : gmap nat frame) (df : nat) (fr : frame) :
  h !! df = Some fr ->
  let shown := fresh (dom h) in
  Render.linkify_copy h df = (<[shown := Render.linkify_frame fr]> h, shown)
  /\ shown <> df.
Proof.
  intros Hdf shown.
  assert (h !! shown = None) as Hfresh by (apply not_elem_of_dom, is_fresh).
  split; [|intros Heq; rewrite Heq in Hfresh; congruence].
  unfold Render.linkify_copy, Render.copy, Render.linkify. fold shown. f_equal.
  rewrite (lookup_total_correct _ _ _ Hdf).
  apply map_eq. intros i. rewrite lookup_alter.
  destruct (decide (shown = i)) as [<-|Hne].
  - now rewrite !lookup_insert_eq.
  - now rewrite !lookup_insert_ne.
Qed.

Lemma draw_ok (x : element) (w : world) : draw x w = (drew w [x], Ok tt).
Proof. reflexivity. Qed.

Lemma results_block_empty (con : connection) (t : string) (e : gset string)
    (f : filters) (df : nat) (fr : frame) (w : world) :
  frames w !! df = Some fr -> empty fr = true ->
  results_block con t e f df w
  = (drew w [Info "No results. Adjust filters or keyword."],
     Ok (NoResults "No results. Adjust filters or keyword.")).
Proof.
  intros Hdf He. unfold results_block.
  rewrite (bind_ok _ _ _ _ _ (deref_ok df fr w Hdf)). now rewrite He.
Qed.

Lemma results_block_shown (con : connection) (t : string) (e : gset string)
    (f : filters) (df : nat) (fr : frame) (w : world) :
  frames w !! df = Some fr -> empty fr = false ->
  exists w1,
    session w1 = session w /\ issued w1 = issued w
    /\ frames w1 !! df = Some fr
    /\ display w1 = display w ++ [ResultsHeading; Table (Render.linkify_frame fr);
                                  PageCsv (Render.linkify_frame fr)]
    /\ results_block con t e f df w
       = ((x ← query con (export_query t e f);
           full ← deref x;
           draw (FullCsv full);;
           mret (Results (Render.linkify_frame fr) (Render.linkify_frame fr) full)) w1).
Proof.
  intros Hdf He. unfold results_block.
  rewrite (bind_ok _ _ _ _ _ (deref_ok df fr w Hdf)). rewrite He.
  cbn [negb]. cbv iota.
  destruct (linkify_copy_frames (frames w) df fr Hdf) as [Hl Hne]. cbv zeta in Hl.
  set (shown := fresh (dom (frames w))) in *.
  set (w1 := {| session := session w;
                frames := <[shown := Render.linkify_frame fr]> (frames w);
                issued := issued w; display := display w |}).
  set (lf := Render.linkify_frame fr).
  exists (drew w1 [ResultsHeading; Table lf; PageCsv lf]).
  split; [reflexivity|]. split; [reflexivity|].
  split; [simpl; now rewrite lookup_insert_ne|].
  split; [reflexivity|].
  assert (on_frames (fun h => Render.linkify_copy h df) w = (w1, Ok shown)) as Hon
    by (unfold on_frames; now rewrite Hl).
  rewrite (bind_ok _ _ _ _ _ Hon).
  assert (deref shown w1 = (w1, Ok lf)) as Hd
    by (apply deref_ok; simpl; apply lookup_insert_eq).
  rewrite (bind_ok _ _ _ _ _ Hd).
  rewrite (bind_ok _ _ _ _ _ (draw_ok _ _)).
  rewrite (bind_ok _ _ _ _ _ (draw_ok _ _)).
  rewrite (bind_ok _ _ _ _ _ (draw_ok _ _)).
  unfold drew. simpl. now rewrite <- !app_assoc.
Qed.

Lemma results_block_full (con : connection) (t : string) (e : gset string)
    (f : filters) (df : nat) (fr full : frame) (w : world) :
  frames w !! df = Some fr -> empty fr = false ->
  read_sql con (export_query t e f) = Ok full ->
  exists w',
    results_block con t e f df w
    = (w', Ok (Results (Render.linkify_frame fr) (Render.linkify_frame fr) full))
    /\ frames w' !! df = Some fr
    /\ session w' = session w
    /\ issued w' = issued w ++ [export_query t e f]
    /\ display w' = display w ++ [ResultsHeading; Table (Render.linkify_frame fr);
                                  PageCsv (Render.linkify_frame fr); FullCsv full].
Proof.
  intros Hdf He Hfull.
  destruct (results_block_shown con t e f df fr w Hdf He)
    as (w1 & Hs & Hi & Hf & Hd1 & ->).
  rewrite (bind_ok _ _ _ _ _ (query_ok con _ full w1 Hfull)).
  assert (deref (fresh (dom (frames w1))) (after_query w1 (export_query t e f) full)
          = (after_query w1 (export_query t e f) full, Ok full)) as Hd
    by (apply deref_ok; simpl; apply lookup_insert_eq).
  rewrite (bind_ok _ _ _ _ _ Hd).
  rewrite (bind_ok _ _ _ _ _ (draw_ok _ _)).
  eexists. split; [reflexivity|]. simpl.
  split; [|split; [exact Hs | split; [now rewrite Hi | now rewrite Hd1, <- app_assoc]]].
  rewrite lookup_insert_ne; [exact Hf|].
  intros Heq. assert (frames w1 !! fresh (dom (frames w1)) = None) as Hn
    by (apply not_elem_of_dom, is_fresh). rewrite Heq in Hn. congruence.
Qed.

Lemma results_block_fails (con : connection) (t : string) (e : gset string)
    (f : filters) (df : nat) (fr : frame) (ex : exn) (w : world) :
  frames w !! df = Some fr -> empty fr = false ->
  read_sql con (export_query t e f) = Raise ex ->
  exists w',
    results_block con t e f df w = (w', Raise ex)
    /\ session w' = session w
    /\ issued w' = issued w ++ [export_query t e f]
    /\ display w' = display w ++ [ResultsHeading; Table (Render.linkify_frame fr);
                                  PageCsv (Render.linkify_frame fr)].
Proof.
  intros Hdf He Hex.
  destruct (results_block_shown con t e f df fr w Hdf He)
    as (w1 & Hs & Hi & Hf & Hd1 & ->).
  rewrite (bind_raise _ _ _ _ _ (query_raise con _ ex w1 Hex)).
  eexists. split; [reflexivity|]. simpl.
  split; [exact Hs | split; [now rewrite Hi | exact Hd1]].
Qed.

(** X11: the results block.  On an empty page it shows the no-results
    message and sends nothing.  Otherwise the table on screen and the page
    CSV are one and the same frame, the fetched page with its Map and
    Website cells turned into links, while the export CSV is what the
    export query returns, links not applied; the fetched frame itself is
    left as it was.  The heading, the table and the page CSV button are
    drawn before the export query is sent: a failing export query ends the
    run with these three on the page and no second button. *)
Theorem X11_results_block (con : connection) (t : string) (e : gset string)
    (f : filters) (df : nat) (fr : frame) (w : world) :
  frames w !! df = Some fr ->
  (empty fr = true ->
   results_block con t e f df w
   = (drew w [Info "No results. Adjust filters or keyword."],
      Ok (NoResults "No results. Adjust filters or keyword.")))
  /\ (empty fr = false ->
      forall full, read_sql con (export_query t e f) = Ok full ->
      exists w',
        results_block con t e f df w
        = (w', Ok (Results (Render.linkify_frame fr) (Render.linkify_frame fr) full))
        /\ frames w' !! df = Some fr
        /\ issued w' = issued w ++ [export_query t e f]
        /\ display w'
           = display w ++ [ResultsHeading; Table (Render.linkify_frame fr);
                           PageCsv (Render.linkify_frame fr); FullCsv full])
  /\ (empty fr = false ->
      forall ex, read_sql con (export_query t e f) = Raise ex ->
      snd (results_block con t e f df w) = Raise ex
      /\ issued (fst (results_block con t e f df w))
         = issued w ++ [export_query t e f]
      /\ display (fst (results_block con t e f df w))
         = display w ++ [ResultsHeading; Table (Render.linkify_frame fr);
                         PageCsv (Render.linkify_frame fr)]).
Proof.
  intros Hdf. split; [now apply results_block_empty|]. split.
  - intros He full Hfull.
    destruct (results_block_full con t e f df fr full w Hdf He Hfull)
      as (w' & Hr & Hf & _ & Hi & Hd).
    exists w'. auto.
  - intros He ex Hex.
    destruct (results_block_fails con t e f df fr ex w Hdf He Hex)
      as (w' & -> & _ & Hi & Hd).
    auto.
Qed.

Lemma X11_witness :
  let w := {| session := ∅; frames := {[ 0%nat := Sample.fetched ]}; issued := [];
              display := [] |} in
  let con := healthy {[ "records" := Sample.directory ]} in
  let e := Sample.columns_of Sample.directory in
  (empty Sample.fetched = true ->
   results_block con "records" e Sample.nothing_set 0%nat w
   = (drew w [Info "No results. Adjust filters or keyword."],
      Ok (NoResults "No results. Adjust filters or keyword.")))
  /\ (empty Sample.fetched = false ->
      forall full, read_sql con (export_query "records" e Sample.nothing_set) = Ok full ->
      exists w',
        results_block con "records" e Sample.nothing_set 0%nat w
        = (w', Ok (Results (Render.linkify_frame Sample.fetched)
                           (Render.linkify_frame Sample.fetched) full))
        /\ frames w' !! 0%nat = Some Sample.fetched
        /\ issued w' = issued w ++ [export_query "records" e Sample.nothing_set]
        /\ display w'
           = display w ++ [ResultsHeading; Table (Render.linkify_frame Sample.fetched);
                           PageCsv (Render.linkify_frame Sample.fetched); FullCsv full])
  /\ (empty Sample.fetched = false ->
      forall ex, read_sql con (export_query "records" e Sample.nothing_set) = Raise ex ->
      snd (results_block con "records" e Sample.nothing_set 0%nat w) = Raise ex
      /\ issued (fst (results_block con "records" e Sample.nothing_set 0%nat w))
         = issued w ++ [export_query "records" e Sample.nothing_set]
      /\ display (fst (results_block con "records" e Sample.nothing_set 0%nat w))
         = display w ++ [ResultsHeading; Table (Render.linkify_frame Sample.fetched);
                         PageCsv (Render.linkify_frame Sample.fetched)]).
Proof.
  apply (X11_results_block (healthy {[ "records" := Sample.directory ]}) "records"
           (Sample.columns_of Sample.directory) Sample.nothing_set 0%nat Sample.fetched
           {| session := ∅; frames := {[ 0%nat := Sample.fetched ]}; issued := [];
              display := [] |}).
  reflexivity.
Defined.

End ResultsBlock.

(** ** A whole run on a healthy connection *)

Section WholeRun.
Import Schema Filter Sql Frame Sqlite App Reading.

Lemma table_names_elem (tables : gmap string table) (t : string) :
  t ∈ (map_to_list tables).*1 <-> is_Some (tables !! t).
Proof.
  rewrite list_elem_of_fmap. split.
  - intros ([k v] & -> & H). apply elem_of_map_to_list in H. simpl. eauto.
  - intros [v H]. exists (t, v). split; [reflexivity|]. now apply elem_of_map_to_list.
Qed.

Lemma choose_table_healthy (tables : gmap string table) (w : world) :
  choose_table (map_to_list tables).*1 w
  = match working_table tables with
    | Some t => (w, Ok t)
    | None =>
        (drew w [Error "No 'records_norm' or 'records' table found in the database."],
         Halt "No 'records_norm' or 'records' table found in the database.")
    end.
Proof.
  unfold choose_table, working_table.
  rewrite (bool_decide_ext _ _ (table_names_elem tables "records_norm")).
  rewrite (bool_decide_ext _ _ (table_names_elem tables "records")).
  destruct (bool_decide (is_Some (tables !! "records_norm"))); [reflexivity|].
  destruct (bool_decide (is_Some (tables !! "records"))); reflexivity.
Qed.

Lemma value_list_ok (tables : gmap string table) (t c : string) (tbl : table)
    (w : world) :
  tables !! t = Some tbl ->
  exists w', value_list (healthy tables) t c w = (w', Ok (distinct_values tbl c))
             /\ session w' = session w.
Proof.
  intros Ht. unfold distinct_values.
  destruct (bool_decide (c ∈ t_cols tbl)) eqn:Hc.
  - apply bool_decide_eq_true in Hc.
    destruct (value_list_present tables t c tbl w Ht Hc) as (w' & H & Hs & _). eauto.
  - apply bool_decide_eq_false in Hc.
    assert (c ∉ columns_in tables t) as Hc' by (unfold columns_in; now rewrite Ht).
    destruct (helpers_absent tables t c w Hc') as [_ H]. rewrite H. eauto.
Qed.

Lemma distinct_count_ok (tables : gmap string table) (t c : string) (tbl : table)
    (w : world) :
  tables !! t = Some tbl ->
  exists w', distinct_count (healthy tables) t c w = (w', Ok (distinct_number tbl c))
             /\ session w' = session w.
Proof.
  intros Ht. unfold distinct_number.
  destruct (bool_decide (c ∈ t_cols tbl)) eqn:Hc.
  - apply bool_decide_eq_true in Hc.
    destruct (distinct_count_present tables t c tbl w Ht Hc) as (w' & H & Hs & _). eauto.
  - apply bool_decide_eq_false in Hc.
    assert (c ∉ columns_in tables t) as Hc' by (unfold columns_in; now rewrite Ht).
    destruct (helpers_absent tables t c w Hc') as [H _]. rewrite H. eauto.
Qed.

Lemma count_all_healthy (tables : gmap string table) (t : string) (tbl : table)
    (e : gset string) (f : filters) (w : world) :
  tables !! t = Some tbl -> e = list_to_set (t_cols tbl) ->
  exists w', count_all (healthy tables) t (where_clauses e f) (params e f) w
             = (w', Ok (Z.of_nat (length (result_rows e f tbl))))
             /\ session w' = session w.
Proof.
  intros Ht ->. rewrite result_rows_length.
  destruct (count_all_ok (healthy tables) t _ _ _ w
              (eval_count tables t tbl _ _ Ht
                 (fun c Hc => proj1 (columns_of_table tbl c)
                                (where_columns_exist _ f c Hc))
                 (eq_sym (params_length _ f)))) as (w' & H & Hs & _).
  eauto.
Qed.

Lemma count_total_healthy (tables : gmap string table) (t : string) (tbl : table)
    (w : world) :
  tables !! t = Some tbl ->
  exists w', count_all (healthy tables) t [] [] w
             = (w', Ok (Z.of_nat (length (t_rows tbl))))
             /\ session w' = session w.
Proof.
  intros Ht.
  destruct (count_all_ok (healthy tables) t [] [] _ w
              (eval_count tables t tbl [] [] Ht ltac:(set_solver) eq_refl))
    as (w' & H & Hs & _).
  rewrite (filter_all (fun r => Is_true (keeps [] [] r)) (t_rows tbl)) in H
    by (intros r; now rewrite keeps_nothing_set).
  eauto.
Qed.

End WholeRun.

Ltac run_step H := rewrite (bind_ok _ _ _ _ _ H); cbv beta.
Ltac draw_step := rewrite (bind_ok _ _ _ _ _ (draw_ok _ _)); cbv beta.

Section WholeRunMain.
Import Schema Filter Sql Frame Sqlite App Reading.

Lemma city_list_ok (tables : gmap string table) (t : string) (tbl : table)
    (w : world) :
  tables !! t = Some tbl ->
  exists w', (if has (list_to_set (t_cols tbl)) "city"
              then value_list (healthy tables) t "city" else mret []) w
             = (w', Ok (distinct_values tbl "city"))
             /\ session w' = session w.
Proof.
  intros Ht. destruct (has _ "city") eqn:Hc.
  - now apply value_list_ok.
  - exists w. split; [|reflexivity]. unfold distinct_values.
    unfold has in Hc. apply bool_decide_eq_false in Hc. rewrite columns_of_table in Hc.
    now rewrite bool_decide_eq_false_2.
Qed.

Lemma state_list_ok (tables : gmap string table) (t : string) (tbl : table)
    (w : world) :
  tables !! t = Some tbl ->
  exists w', (match state_field (list_to_set (t_cols tbl)) with
              | Some sf => if Py.truthy sf then value_list (healthy tables) t sf
                           else mret []
              | None => mret []
              end) w
             = (w', Ok (match state_field (list_to_set (t_cols tbl)) with
                        | Some sf => distinct_values tbl sf
                        | None => []
                        end))
             /\ session w' = session w.
Proof.
  intros Ht. destruct (state_field _) as [sf|] eqn:Hs.
  - assert (Py.truthy sf = true) as ->
      by (apply prefer_some in Hs as [[-> | ->] _]; reflexivity).
    now apply value_list_ok.
  - exists w. split; reflexivity.
Qed.

Lemma run_healthy (tables : gmap string table) (t : string) (tbl : table)
    (ss : gmap string Z) (ui : widgets) :
  working_table tables = Some t -> tables !! t = Some tbl ->
  let e : gset string := list_to_set (t_cols tbl) in
  has e "name_std" = has e "name" -> selected e <> [] ->
  exists w',
    run (healthy tables) ss ui = (w', Ok (view_of tbl ss ui))
    /\ session w'
       = fst (Pager.paginate ss
                (Z.of_nat (length (result_rows e (filters_of tbl ui) tbl)))
                (page_size ui) (prev_pressed ui) (next_pressed ui)).
Proof.
  intros Hw Ht e Hx Hsel. unfold run, script.
  set (w0 := {| session := ss; frames := ∅; issued := []; display := [] |}).
  run_step (list_tables_healthy tables w0).
  set (w1 := after_query w0 _ _).
  pose proof (choose_table_healthy tables w1) as Hc. rewrite Hw in Hc.
  run_step Hc.
  run_step (get_columns_healthy tables t w1).
  set (w2 := after_query w1 _ _).
  assert (columns_in tables t = t_cols tbl) as -> by (unfold columns_in; now rewrite Ht).
  fold e.
  destruct (city_list_ok tables t tbl w2 Ht) as (w3 & H3 & S3). fold e in H3.
  run_step H3.
  destruct (state_list_ok tables t tbl w3 Ht) as (w4 & H4 & S4). fold e in H4.
  run_step H4.
  do 2 draw_step. set (w4' := drew (drew w4 _) _).
  change {| q := keyword ui;
            city := pick (distinct_values tbl "city") (city_choice ui);
            state := pick match state_field e with
                          | Some sf => distinct_values tbl sf
                          | None => []
                          end (state_choice ui);
            zip_like := zip_text ui |} with (filters_of tbl ui).
  set (f := filters_of tbl ui).
  destruct (count_total_healthy tables t tbl w4' Ht) as (w5 & H5 & S5).
  run_step H5.
  destruct (count_all_healthy tables t tbl e f w5 Ht eq_refl) as (w6 & H6 & S6).
  run_step H6.
  destruct (distinct_count_ok tables t "city" tbl w6 Ht) as (w7 & H7 & S7).
  run_step H7.
  destruct (distinct_count_ok tables t
              (if has e "postal_code_std" then "postal_code_std" else "postal_code")
              tbl w7 Ht) as (w8 & H8 & S8).
  run_step H8.
  do 2 draw_step. set (w8' := drew (drew w8 _) _).
  set (rows := result_rows e f tbl) in *.
  set (pgr := Pager.paginate ss (Z.of_nat (length rows)) (page_size ui)
                (prev_pressed ui) (next_pressed ui)).
  assert (session w8' = ss) as S
    by (unfold w8'; simpl; rewrite S8, S7, S6, S5; unfold w4'; simpl;
        rewrite S4, S3; reflexivity).
  set (w9 := {| session := fst pgr; frames := frames w8'; issued := issued w8';
                display := display w8' |}).
  assert (on_session (fun ss0 => Pager.paginate ss0 (Z.of_nat (length rows))
                                   (page_size ui) (prev_pressed ui) (next_pressed ui)) w8'
          = (w9, Ok (snd pgr))) as H9.
  { unfold on_session. rewrite S. fold pgr. now destruct pgr. }
  run_step H9.
  draw_step. set (w9' := drew w9 _).
  destruct (select_list e) as [|item items] eqn:Hlist.
  { unfold select_list in Hlist. destruct (selected e); [congruence | discriminate]. }
  set (page := project (selected e)
                 (window_rows (Some (page_size ui, Pager.pg_offset (snd pgr))) rows)).
  assert (read_sql (healthy tables)
            (page_query t e f (page_size ui) (Pager.pg_offset (snd pgr))) = Ok page)
    as Hpage by exact (select_rows_healthy tables t tbl f _ Ht Hx Hsel).
  run_step (query_ok _ _ _ w9' Hpage).
  set (w10 := after_query w9' _ _). set (df := fresh (dom (frames w9'))).
  assert (frames w10 !! df = Some page) as Hdf by (simpl; apply lookup_insert_eq).
  unfold view_of. fold e f rows pgr page.
  destruct (empty page) eqn:He.
  - run_step (results_block_empty (healthy tables) t e f df page w10 Hdf He).
    draw_step. eexists. split; [reflexivity|]. reflexivity.
  - assert (read_sql (healthy tables) (export_query t e f)
            = Ok (project (selected e) rows)) as Hfull
      by exact (select_rows_healthy tables t tbl f None Ht Hx Hsel).
    destruct (results_block_full (healthy tables) t e f df page _ w10 Hdf He Hfull)
      as (w11 & H11 & _ & S11 & _).
    run_step H11. draw_step. eexists. split; [reflexivity|]. simpl. now rewrite S11.
Qed.

End WholeRunMain.

Section WholeRunClaims.
Import Schema Filter Sql Frame Sqlite App Reading.

Lemma offset_inside (ss : gmap string Z) (R P : Z) (prev next : bool) :
  0 <= R -> 1 <= P ->
  let pg := snd (Pager.paginate ss R P prev next) in
  0 <= Pager.pg_offset pg /\ (0 < R -> Pager.pg_offset pg < R).
Proof.
  intros HR HP pg.
  pose proof (paginate_spec ss R P prev next) as H. cbv zeta in H.
  unfold pg. destruct (Pager.paginate ss R P prev next) as [ss' pg']. simpl.
  destruct H as (_ & _ & Ho & _).
  pose proof (clamped_range (default 1 (ss !! "page")) _ (max_page_pos R P)) as Hr.
  rewrite Ho. split; [nia|]. intros Hpos.
  now apply max_page_covers.
Qed.

Lemma project_column_length (sel : list (string * string))
    (rows : list (gmap string string)) (label : string) (vs : list cell) :
  (label, vs) ∈ project sel rows -> length vs = length rows.
Proof.
  unfold project. intros H. apply list_elem_of_fmap in H as (cl & [= -> ->] & _).
  apply length_map.
Qed.

Lemma empty_project (sel : list (string * string)) (rows : list (gmap string string)) :
  sel <> [] -> empty (project sel rows) = bool_decide (rows = []).
Proof.
  intros Hsel. destruct sel as [|cl sel]; [congruence|]. simpl.
  destruct rows; reflexivity.
Qed.

Lemma linkify_column_length (fr : frame) (label : string) (vs : list cell) :
  (label, vs) ∈ Render.linkify_frame fr ->
  exists vs0, (label, vs0) ∈ fr /\ length vs = length vs0.
Proof.
  rewrite linkify_frame_columns. intros H.
  apply list_elem_of_fmap in H as ([l v0] & Heq & Hin).
  unfold Render.linked_column in Heq. simpl in Heq.
  destruct (bool_decide (l ∈ ["Map"; "Website"])); injection Heq as -> ->.
  - exists v0. split; [exact Hin | apply length_map].
  - exists v0. split; [exact Hin | reflexivity].
Qed.

Lemma window_length {A} (rows : list A) (P off : Z) :
  1 <= P -> 0 <= off ->
  Z.of_nat (length (window_rows (Some (P, off)) rows)) <= P
  /\ (off < Z.of_nat (length rows) -> window_rows (Some (P, off)) rows <> []).
Proof.
  intros HP Hoff. unfold window_rows. destruct (Z.ltb_spec P 0); [lia|].
  rewrite length_take, length_drop. split; [lia|].
  intros Hlt Hnil. apply (f_equal length) in Hnil.
  rewrite length_take, length_drop in Hnil. simpl in Hnil. lia.
Qed.

(** X12: what a run shows, on a healthy connection whose working table
    has both name columns or neither and something to select, and with a
    page size of at least 1.  The run ends normally; Total Rows
    is the number of rows of the table and Rows (filtered) lies between 0
    and it; the no-results message appears exactly when no row passes the
    filters, so a page inside a non-empty result is never shown empty;
    otherwise the table on screen is the page CSV, holds between 1 and
    page_size rows, and the export CSV holds exactly Rows (filtered)
    rows. *)
Theorem X12_run_shows_consistent_numbers (tables : gmap string table) (t : string)
    (tbl : table) (ss : gmap string Z) (ui : widgets) :
  working_table tables = Some t -> tables !! t = Some tbl ->
  let e : gset string := list_to_set (t_cols tbl) in
  has e "name_std" = has e "name" -> selected e <> [] -> 1 <= page_size ui ->
  exists v,
    snd (run (healthy tables) ss ui) = Ok v
    /\ total_rows v = Z.of_nat (length (t_rows tbl))
    /\ 0 <= filtered_rows v <= total_rows v
    /\ (filtered_rows v = 0 <-> exists msg, results v = NoResults msg)
    /\ (forall shown csv full, results v = Results shown csv full ->
          shown = csv
          /\ (forall label vs, (label, vs) ∈ shown ->
                1 <= Z.of_nat (length vs) <= page_size ui)
          /\ (forall label vs, (label, vs) ∈ full ->
                Z.of_nat (length vs) = filtered_rows v)).
Proof.
  intros Hw Ht e Hx Hsel HP.
  destruct (run_healthy tables t tbl ss ui Hw Ht Hx Hsel) as (w' & Hrun & _).
  exists (view_of tbl ss ui). rewrite Hrun. split; [reflexivity|].
  unfold view_of. fold e. cbn [total_rows filtered_rows results].
  set (f := filters_of tbl ui). set (rows := result_rows e f tbl).
  set (pg := snd (Pager.paginate ss (Z.of_nat (length rows)) (page_size ui)
                    (prev_pressed ui) (next_pressed ui))).
  destruct (offset_inside ss (Z.of_nat (length rows)) (page_size ui)
              (prev_pressed ui) (next_pressed ui) ltac:(lia) HP) as [Ho1 Ho2].
  fold pg in Ho1, Ho2.
  destruct (window_length rows (page_size ui) (Pager.pg_offset pg) HP Ho1) as [Hl1 Hl2].
  set (page_rows := window_rows (Some (page_size ui, Pager.pg_offset pg)) rows) in *.
  rewrite (empty_project _ page_rows Hsel).
  assert (length rows <= length (t_rows tbl))%nat as Hle.
  { unfold rows. rewrite result_rows_length. apply length_filter. }
  split; [reflexivity|]. split; [lia|]. split.
  - split.
    + intros H0. assert (rows = []) as Hr by (destruct rows; [reflexivity | simpl in H0; lia]).
      assert (page_rows = []) as -> by (unfold page_rows; rewrite Hr; unfold window_rows;
        destruct (page_size ui <? 0); [apply drop_nil | rewrite drop_nil; apply take_nil]).
      rewrite bool_decide_eq_true_2 by reflexivity. eauto.
    + intros [msg Hm]. destruct (bool_decide (page_rows = [])) eqn:Hd; [|discriminate].
      apply bool_decide_eq_true in Hd.
      destruct (Z.eq_dec (Z.of_nat (length rows)) 0) as [E|E]; [exact E|].
      exfalso. apply Hl2; [lia | exact Hd].
  - intros shown csv full Hres.
    destruct (bool_decide (page_rows = [])) eqn:Hd; [discriminate|].
    apply bool_decide_eq_false in Hd. injection Hres as <- <- <-.
    split; [reflexivity|]. split.
    + intros label vs Hin. apply linkify_column_length in Hin as (vs0 & Hin & ->).
      apply project_column_length in Hin. rewrite Hin.
      destruct page_rows; [congruence | simpl in *; lia].
    + intros label vs Hin. apply project_column_length in Hin. now rewrite Hin.
Qed.

Lemma X12_witness :
  exists v,
    snd (run (healthy {[ "records" := Sample.directory ]}) ∅ Sample.first_visit) = Ok v
    /\ total_rows v = Z.of_nat (length (t_rows Sample.directory))
    /\ 0 <= filtered_rows v <= total_rows v
    /\ (filtered_rows v = 0 <-> exists msg, results v = NoResults msg)
    /\ (forall shown csv full, results v = Results shown csv full ->
          shown = csv
          /\ (forall label vs, (label, vs) ∈ shown ->
                1 <= Z.of_nat (length vs) <= page_size Sample.first_visit)
          /\ (forall label vs, (label, vs) ∈ full ->
                Z.of_nat (length vs) = filtered_rows v)).
Proof.
  apply (X12_run_shows_consistent_numbers {[ "records" := Sample.directory ]} "records"
           Sample.directory ∅ Sample.first_visit).
  - reflexivity.
  - reflexivity.
  - vm_compute. reflexivity.
  - vm_compute. discriminate.
  - simpl. lia.
Defined.

End WholeRunClaims.

(** ** What a run sends and what it writes *)

Section Behaviour.
Import Schema Filter Sql Frame Sqlite App Reading Conduct.
Variable P : statement -> Prop.

Lemma behaves_quiet {A} (m : M A) :
  (forall w0, issued (fst (m w0)) = issued w0 /\ session (fst (m w0)) = session w0) ->
  behaves P m.
Proof.
  intros H w0. destruct (H w0) as [Hi Hs]. split.
  - exists []. rewrite app_nil_r. split; [exact Hi | constructor].
  - intros k _. now rewrite Hs.
Qed.

Lemma behaves_ret {A} (a : A) : behaves P (mret a).
Proof. now apply behaves_quiet. Qed.

Lemma behaves_raise {A} (e : exn) : behaves P (raise (A := A) e).
Proof. now apply behaves_quiet. Qed.

Lemma behaves_stop {A} (msg : string) : behaves P (stop (A := A) msg).
Proof. now apply behaves_quiet. Qed.

Lemma behaves_draw (x : element) : behaves P (draw x).
Proof. now apply behaves_quiet. Qed.

Lemma behaves_lift {A} (r : result A) : behaves P (lift r).
Proof. now apply behaves_quiet. Qed.

Lemma behaves_deref (r : nat) : behaves P (deref r).
Proof. now apply behaves_quiet. Qed.

Lemma behaves_on_frames f : behaves P (on_frames f).
Proof.
  apply behaves_quiet. intros w0. unfold on_frames. now destruct (f (frames w0)).
Qed.

Lemma behaves_query (con : connection) (s : statement) :
  P s -> behaves P (query con s).
Proof.
  intros Hs w0. unfold query. split.
  - exists [s]. destruct (read_sql con s); simpl; (split; [reflexivity|]);
      now apply Forall_singleton.
  - intros k _. now destruct (read_sql con s).
Qed.

Lemma paginate_other_keys (ss : gmap string Z) (R Pz : Z) (prev next : bool) (k : string) :
  k <> "page" -> fst (Pager.paginate ss R Pz prev next) !! k = ss !! k.
Proof.
  intros Hk. unfold Pager.paginate. simpl.
  unfold Pager.press_next, Pager.press_prev, Pager.clamp_page, Pager.init_page.
  repeat match goal with
         | |- context [if ?c then _ else _] => destruct c
         | |- context [match ?x with Some _ => _ | None => _ end] => destruct x
         end;
    rewrite ?lookup_insert_ne by congruence; reflexivity.
Qed.

Lemma behaves_paginate (R Pz : Z) (prev next : bool) :
  behaves P (on_session (fun ss => Pager.paginate ss R Pz prev next)).
Proof.
  intros w0. unfold on_session.
  pose proof (paginate_other_keys (session w0) R Pz prev next) as H.
  destruct (Pager.paginate (session w0) R Pz prev next) as [ss' pg]. simpl in *. split.
  - exists []. rewrite app_nil_r. split; [reflexivity | constructor].
  - exact H.
Qed.

Lemma behaves_bind {A B} (m : M A) (k : A -> M B) :
  behaves P m -> (forall a, behaves P (k a)) -> behaves P (m ≫= k).
Proof.
  intros Hm Hk w0. destruct (Hm w0) as [(s1 & Hi1 & Hf1) Hs1].
  unfold mbind, M_bind. destruct (m w0) as [w1 [a|e|msg]]; simpl in *.
  - destruct (Hk a w1) as [(s2 & Hi2 & Hf2) Hs2]. split.
    + exists (s1 ++ s2). split; [now rewrite Hi2, Hi1, app_assoc|].
      now apply Forall_app.
    + intros key Hkey. now rewrite Hs2, Hs1.
  - split; [exists s1; auto | exact Hs1].
  - split; [exists s1; auto | exact Hs1].
Qed.

End Behaviour.

Ltac behaviour :=
  repeat first
    [ apply behaves_bind; [|intros ?]
    | apply behaves_ret | apply behaves_raise | apply behaves_stop
    | apply behaves_lift | apply behaves_deref | apply behaves_draw
    | apply behaves_on_frames | apply behaves_paginate
    | apply behaves_query; try done
    | match goal with
      | |- Conduct.behaves _ (if ?c then _ else _) => destruct c
      | |- Conduct.behaves _ (match ?x with _ => _ end) => destruct x
      end ].

Section ScriptBehaviour.
Import Schema Filter Sql Frame Sqlite App Reading Conduct.

Lemma script_unfold (con : connection) (ui : widgets) :
  script con ui
  = (tables ← list_tables con;
     table ← choose_table tables;
     script_from_table con ui table).
Proof. reflexivity. Qed.

Lemma behaves_from_table (con : connection) (ui : widgets) (t : string) :
  behaves (fun s => statement_table s = Some t) (script_from_table con ui t).
Proof.
  unfold script_from_table, get_columns, value_list, count_all, distinct_count,
    results_block, first_int, tolist, get_columns.
  behaviour.
Qed.

Lemma behaves_script (con : connection) (ui : widgets) :
  behaves (fun _ => True) (script con ui).
Proof.
  unfold script, list_tables, choose_table, get_columns, value_list, count_all,
    distinct_count, results_block, first_int, tolist, get_columns.
  behaviour.
Qed.

End ScriptBehaviour.

Section ConductClaims.
Import Schema Filter Sql Frame Sqlite App Reading Conduct.

(** X13: whatever the connection does and however the run ends, the only
    key of the session state a run writes is "page"; every other key (the
    password flag, say) has the value it had before. *)
Theorem X13_run_writes_page_only (con : connection) (ss : gmap string Z)
    (ui : widgets) (k : string) :
  k <> "page" -> session (fst (run con ss ui)) !! k = ss !! k.
Proof.
  intros Hk. unfold run.
  destruct (behaves_script con ui {| session := ss; frames := ∅; issued := []; display := [] |})
    as [_ H].
  now rewrite (H k Hk).
Qed.

Lemma X13_witness :
  session (fst (run Sample.locked (<["password_ok" := 1]> ∅) Sample.first_visit))
    !! "password_ok"
  = (<["password_ok" := 1]> ∅ : gmap string Z) !! "password_ok".
Proof.
  apply (X13_run_writes_page_only Sample.locked (<["password_ok" := 1]> ∅)
           Sample.first_visit "password_ok").
  discriminate.
Defined.

Lemma run_from_table (tables : gmap string table) (ss : gmap string Z)
    (ui : widgets) (t : string) :
  working_table tables = Some t ->
  run (healthy tables) ss ui
  = script_from_table (healthy tables) ui t
      (after_query {| session := ss; frames := ∅; issued := []; display := [] |} TableNames
         [("name", CStr <$> (map_to_list tables).*1)]).
Proof.
  intros Hw. unfold run. rewrite script_unfold.
  run_step (list_tables_healthy tables
      {| session := ss; frames := ∅; issued := []; display := [] |}).
  pose proof (choose_table_healthy tables
                (after_query
                    {| session := ss; frames := ∅; issued := []; display := [] |} TableNames
                   [("name", CStr <$> (map_to_list tables).*1)])) as Hc.
  rewrite Hw in Hc. now run_step Hc.
Qed.

Lemma run_about_table (tables : gmap string table) (ss : gmap string Z)
    (ui : widgets) (t : string) :
  working_table tables = Some t ->
  exists rest,
    issued (fst (run (healthy tables) ss ui)) = TableNames :: rest
    /\ Forall (fun s => statement_table s = Some t) rest.
Proof.
  intros Hw. rewrite (run_from_table tables ss ui t Hw).
  destruct (behaves_from_table (healthy tables) ui t
              (after_query {| session := ss; frames := ∅; issued := []; display := [] |} TableNames
                 [("name", CStr <$> (map_to_list tables).*1)]))
    as [(rest & Hi & Hf) _].
  exists rest. split; [exact Hi | exact Hf].
Qed.

(** X14: the working table.  On a healthy connection a run first lists the
    tables; if the database has records_norm every later statement reads
    records_norm, also when records exists as well; if it has records but
    not records_norm every later statement reads records; and if it has
    neither the run stops with the message about the missing table, having
    sent nothing else and written nothing in the session state. *)
Theorem X14_working_table (tables : gmap string table) (ss : gmap string Z)
    (ui : widgets) :
  (is_Some (tables !! "records_norm") ->
   exists rest,
     issued (fst (run (healthy tables) ss ui)) = TableNames :: rest
     /\ Forall (fun s => statement_table s = Some "records_norm") rest)
  /\ (tables !! "records_norm" = None -> is_Some (tables !! "records") ->
      exists rest,
        issued (fst (run (healthy tables) ss ui)) = TableNames :: rest
        /\ Forall (fun s => statement_table s = Some "records") rest)
  /\ (tables !! "records_norm" = None -> tables !! "records" = None ->
      snd (run (healthy tables) ss ui)
      = Halt "No 'records_norm' or 'records' table found in the database."
      /\ issued (fst (run (healthy tables) ss ui)) = [TableNames]
      /\ session (fst (run (healthy tables) ss ui)) = ss).
Proof.
  split; [|split].
  - intros Hn. apply run_about_table. unfold working_table.
    now rewrite bool_decide_eq_true_2.
  - intros Hn Hr. apply run_about_table. unfold working_table.
    rewrite bool_decide_eq_false_2 by (rewrite Hn; intros [x Hx]; discriminate).
    now rewrite bool_decide_eq_true_2.
  - intros Hn Hr. unfold run. rewrite script_unfold.
    run_step (list_tables_healthy tables
        {| session := ss; frames := ∅; issued := []; display := [] |}).
    pose proof (choose_table_healthy tables
                  (after_query
                      {| session := ss; frames := ∅; issued := []; display := [] |} TableNames
                     [("name", CStr <$> (map_to_list tables).*1)])) as Hc.
    assert (working_table tables = None) as Hw.
    { unfold working_table.
      rewrite !bool_decide_eq_false_2; [reflexivity | |];
        [rewrite Hr | rewrite Hn]; intros [x Hx]; discriminate. }
    rewrite Hw in Hc. rewrite (bind_halt _ _ _ _ _ Hc). auto.
Qed.

End ConductClaims.

(** ** The password gate *)

Section GateClaims.
Import Gate.
Variable sha256_hex : string -> string.
Variable APP_PASSWORD : string.

Lemma submit_state (typed : string) (ss : gmap string value) :
  submit sha256_hex APP_PASSWORD typed ss
  = inl (delete "password"
           (<["password_ok" := VBool (String.eqb (sha256_hex typed)
                                                 (sha256_hex APP_PASSWORD))]>
              (<["password" := VStr typed]> ss))).
Proof.
  unfold submit, password_entered. rewrite lookup_insert_eq.
  rewrite bool_decide_eq_true_2; [reflexivity|].
  rewrite lookup_insert_ne by discriminate. rewrite lookup_insert_eq. eauto.
Qed.

(** X15: the password gate.  Submitting a text always leaves the session
    state without the key "password" (the typed text is not kept), with
    "password_ok" set to whether the SHA-256 digests of the text and of the
    configured secret agree, and with every other key as it was.  After
    that [check_password] grants access exactly when the digests agree, so
    the configured secret itself always opens the gate (the empty text
    when no secret is configured) and, if the digest is injective, nothing
    else does; a refusal shows the input again with the error message.
    On a session that has not submitted anything the input is shown
    without the message, and the callback fails with a KeyError when the
    key "password" is not there. *)
Theorem X15_password_gate (typed : string) (ss : gmap string value) :
  (exists ss',
     submit sha256_hex APP_PASSWORD typed ss = inl ss'
     /\ ss' !! "password" = None
     /\ ss' !! "password_ok"
        = Some (VBool (String.eqb (sha256_hex typed) (sha256_hex APP_PASSWORD)))
     /\ (forall k, k <> "password" -> k <> "password_ok" -> ss' !! k = ss !! k)
     /\ (granted (check_password ss') = true
         <-> sha256_hex typed = sha256_hex APP_PASSWORD)
     /\ (typed = APP_PASSWORD -> granted (check_password ss') = true)
     /\ ((forall a b, sha256_hex a = sha256_hex b -> a = b) ->
         granted (check_password ss') = true -> typed = APP_PASSWORD)
     /\ (granted (check_password ss') = false ->
         input_shown (check_password ss') = true
         /\ error_shown (check_password ss') = true))
  /\ (ss !! "password_ok" = None ->
      check_password ss
      = {| input_shown := true; error_shown := false; granted := false |})
  /\ (ss !! "password" = None ->
      password_entered sha256_hex APP_PASSWORD ss = inr (KeyError "password")).
Proof.
  split; [|split].
  - eexists. split; [apply submit_state|].
    set (ok := String.eqb (sha256_hex typed) (sha256_hex APP_PASSWORD)).
    assert (forall m : gmap string value,
              delete "password" (<["password_ok" := VBool ok]> m) !! "password_ok"
              = Some (VBool ok)) as Hok
      by (intros m; rewrite lookup_delete_ne by discriminate; apply lookup_insert_eq).
    assert (granted (check_password
                       (delete "password"
                          (<["password_ok" := VBool ok]>
                             (<["password" := VStr typed]> ss)))) = ok) as Hg.
    { unfold check_password. rewrite Hok. simpl. now destruct ok. }
    split; [apply lookup_delete_eq|]. split; [apply Hok|].
    split.
    { intros k H1 H2. rewrite lookup_delete_ne by congruence.
      rewrite !lookup_insert_ne by congruence. reflexivity. }
    rewrite Hg.
    split; [unfold ok; apply String.eqb_eq|].
    split; [intros ->; unfold ok; apply String.eqb_refl|].
    split; [intros Hinj H; apply Hinj; now apply String.eqb_eq|].
    intros Hf. unfold check_password. rewrite Hok. simpl. rewrite Hf.
    simpl. auto.
  - intros H. unfold check_password. now rewrite H.
  - intros H. unfold password_entered. now rewrite H.
Qed.

End GateClaims.

(** ** The one-time download *)

Section BootstrapClaims.
Import Bootstrap.

Lemma receive_all (total : Z) (chunks : list (list Byte.byte))
    (file : list Byte.byte) (wrote : Z) :
  0 <= total -> receive total chunks file wrote = (file ++ concat chunks, None).
Proof.
  intros Ht. revert file wrote.
  induction chunks as [|chunk rest IH]; intros file wrote; simpl.
  - now rewrite app_nil_r.
  - destruct chunk as [|b chunk]; [apply IH|].
    destruct (Z.ltb_spec total 0); [lia|]. rewrite IH. now rewrite <- app_assoc.
Qed.

(** X16: the download.  When data.db exists nothing is fetched and the
    file is left alone.  Without a URL, with a server that cannot be
    reached, an error status or a Content-Length that does not parse, the
    run stops and no file is created.  A body that arrives whole (with a
    non-negative length announced) is written chunk after chunk, so the
    file is the concatenation of the chunks, and the script goes on.  A
    body that breaks off stops the run but leaves behind the file with
    what had arrived; as the file then exists, the next run does not
    download again and goes on with that partial file. *)
Theorem X16_download_once (url : string) (total : Z)
    (chunks : list (list Byte.byte)) :
  url <> EmptyString -> 0 <= total ->
  (forall any_url server content,
     bootstrap any_url server (Some content) = (Some content, Proceed))
  /\ (forall server, exists msg, bootstrap EmptyString server None = (None, Stopped msg))
  /\ (forall reason, exists msg,
        bootstrap url (Unreachable reason) None = (None, Stopped msg))
  /\ (forall reason, exists msg,
        bootstrap url (BadStatus reason) None = (None, Stopped msg))
  /\ (forall chunks' broken, exists msg,
        bootstrap url (Body None chunks' broken) None = (None, Stopped msg))
  /\ bootstrap url (Body (Some total) chunks None) None
     = (Some (concat chunks), Proceed)
  /\ (forall reason, exists msg,
        bootstrap url (Body (Some total) chunks (Some reason)) None
        = (Some (concat chunks), Stopped msg)
        /\ forall server,
             bootstrap url server
               (fst (bootstrap url (Body (Some total) chunks (Some reason)) None))
             = (Some (concat chunks), Proceed)).
Proof.
  intros Hu Ht.
  assert (negb (Py.truthy url) = false) as Hurl by (destruct url; [congruence | reflexivity]).
  split; [reflexivity|]. split; [intros server; eexists; reflexivity|].
  unfold bootstrap. rewrite Hurl.
  split; [intros; eexists; reflexivity|]. split; [intros; eexists; reflexivity|].
  split; [intros; eexists; reflexivity|].
  rewrite (receive_all total chunks [] 0 Ht). simpl.
  split; [reflexivity|]. intros reason. eexists. split; reflexivity.
Qed.

Lemma X16_witness :
  (forall any_url server content,
     bootstrap any_url server (Some content) = (Some content, Proceed))
  /\ (forall server, exists msg, bootstrap EmptyString server None = (None, Stopped msg))
  /\ (forall reason, exists msg,
        bootstrap "https://example.org/data.db" (Unreachable reason) None
        = (None, Stopped msg))
  /\ (forall reason, exists msg,
        bootstrap "https://example.org/data.db" (BadStatus reason) None
        = (None, Stopped msg))
  /\ (forall chunks' broken, exists msg,
        bootstrap "https://example.org/data.db" (Body None chunks' broken) None
        = (None, Stopped msg))
  /\ bootstrap "https://example.org/data.db"
       (Body (Some 3) [[Byte.x53; Byte.x51]; []; [Byte.x4c]] None) None
     = (Some (concat [[Byte.x53; Byte.x51]; []; [Byte.x4c]]), Proceed)
  /\ (forall reason, exists msg,
        bootstrap "https://example.org/data.db"
          (Body (Some 3) [[Byte.x53; Byte.x51]; []; [Byte.x4c]] (Some reason)) None
        = (Some (concat [[Byte.x53; Byte.x51]; []; [Byte.x4c]]), Stopped msg)
        /\ forall server,
             bootstrap "https://example.org/data.db" server
               (fst (bootstrap "https://example.org/data.db"
                       (Body (Some 3) [[Byte.x53; Byte.x51]; []; [Byte.x4c]]
                             (Some reason)) None))
             = (Some (concat [[Byte.x53; Byte.x51]; []; [Byte.x4c]]), Proceed)).
Proof.
  apply (X16_download_once "https://example.org/data.db" 3
           [[Byte.x53; Byte.x51]; []; [Byte.x4c]]).
  - discriminate.
  - lia.
Defined.

End BootstrapClaims.

(** ** The shape of a linkified frame *)

Section LinkifyShape.
Import Frame Render.

Lemma anchor_is_no_url (u : string) : is_http (anchor u) = false.
Proof. reflexivity. Qed.

Lemma link_cell_twice (u : cell) : link_cell (link_cell u) = CStr EmptyString.
Proof.
  destruct u as [|s|z]; try reflexivity.
  unfold link_cell. destruct (is_http s); [|reflexivity].
  now rewrite anchor_is_no_url.
Qed.

Lemma linked_column_label (lv : string * list cell) :
  fst (linked_column lv) = fst lv
  /\ length (snd (linked_column lv)) = length (snd lv).
Proof.
  unfold linked_column. destruct (bool_decide (fst lv ∈ ["Map"; "Website"])); simpl.
  - split; [reflexivity | apply length_map].
  - split; reflexivity.
Qed.

Lemma lookup_linked (fr : list (string * list cell)) (i : nat)
    (lv : string * list cell) :
  map linked_column fr !! i = Some lv ->
  exists lv0, fr !! i = Some lv0 /\ lv = linked_column lv0.
Proof.
  revert i. induction fr as [|x fr IH]; intros [|i] H; simpl in H; try discriminate.
  - injection H as <-. exists x. auto.
  - apply IH in H as (lv0 & H & ->). exists lv0. auto.
Qed.

(** X17: [linkify] keeps the shape of a frame: the same labels in the
    same order and, column by column, the same number of rows, with every
    column other than Map and Website unchanged.  It is meant to run once:
    a link is not itself a URL, so a second pass would turn every cell of
    the Map and Website columns into the empty string. *)
Theorem X17_linkify_keeps_shape (fr : frame) :
  labels (linkify_frame fr) = labels fr
  /\ (forall i label vs,
        linkify_frame fr !! i = Some (label, vs) ->
        exists vs0, fr !! i = Some (label, vs0)
                    /\ length vs = length vs0
                    /\ (label ∉ ["Map"; "Website"] -> vs = vs0))
  /\ (forall i label vs,
        linkify_frame (linkify_frame fr) !! i = Some (label, vs) ->
        label ∈ ["Map"; "Website"] -> forall u, u ∈ vs -> u = CStr EmptyString).
Proof.
  rewrite !linkify_frame_columns. split; [|split].
  - unfold labels. rewrite map_map. apply map_ext. intros lv.
    apply linked_column_label.
  - intros i label vs H. apply lookup_linked in H as ([l v0] & Hi & Heq).
    unfold linked_column in Heq. simpl in Heq.
    destruct (bool_decide (l ∈ ["Map"; "Website"])) eqn:Hd;
      injection Heq as -> ->; exists v0.
    + split; [exact Hi|]. split; [apply length_map|].
      intros Hn. apply bool_decide_eq_true in Hd. contradiction.
    + auto.
  - intros i label vs H Hl u Hu.
    apply lookup_linked in H as (lv1 & H & Heq).
    apply lookup_linked in H as ([l v0] & _ & ->).
    unfold linked_column in Heq. simpl in Heq.
    destruct (bool_decide (l ∈ ["Map"; "Website"])) eqn:Hd; simpl in Heq.
    + rewrite Hd in Heq. injection Heq as -> ->. rewrite map_map in Hu.
      apply list_elem_of_fmap in Hu as (y & -> & _). apply link_cell_twice.
    + rewrite Hd in Heq. injection Heq as -> ->.
      apply bool_decide_eq_false in Hd. contradiction.
Qed.

End LinkifyShape.

(** ** A table with none of the expected columns *)

Section NoColumns.
Import Schema Filter Sql Frame Sqlite App Reading Conduct.

Lemma ret_ok {A} (a : A) (w : world) : (mret a : M A) w = (w, Ok a).
Proof. reflexivity. Qed.

Lemma nothing_to_filter (e : gset string) (f : filters) :
  selected e = [] -> where_clauses e f = [] /\ params e f = [].
Proof.
  intros Hsel.
  assert (forall c, c ∈ ["name_std"; "name"; "phone"; "full_address"; "city";
                         "state_std"; "state"; "postal_code_std"; "postal_code";
                         "country"; "location_link"; "site"] -> has e c = false) as Hno.
  { intros c Hc. destruct (has e c) eqn:Hh; [|reflexivity].
    exfalso. apply (selected_nonempty e c Hc); [now apply has_elem | exact Hsel]. }
  assert (active e f = {| kw_on := false; city_on := false; state_on := false;
                          zip_on := false |}) as Ha.
  { unfold active, kw_fields, name_col, state_field, zip_field, prefer, present.
    rewrite !Hno by in_list. simpl. rewrite !Hno by in_list. simpl.
    now rewrite !andb_false_r. }
  unfold params. rewrite build_where_blocks. unfold where_clauses. cbv zeta.
  rewrite Ha. auto.
Qed.

(** X18: a working table with none of the expected columns.  On a healthy
    connection the run stops with the message that no expected column was
    found, but only at the select list: by then it has listed the columns,
    counted the rows twice (the filtered count being the total, as no
    filter can apply), asked for the columns twice more on behalf of the
    two distinct counts, and stored the page number. *)
Theorem X18_no_expected_columns (tables : gmap string table) (t : string)
    (tbl : table) (ss : gmap string Z) (ui : widgets) :
  working_table tables = Some t -> tables !! t = Some tbl ->
  selected (list_to_set (t_cols tbl)) = [] ->
  snd (run (healthy tables) ss ui) = Halt "No expected columns found."
  /\ issued (fst (run (healthy tables) ss ui))
     = [TableNames; TableInfo t; CountRows t [] []; CountRows t [] [];
        TableInfo t; TableInfo t]
  /\ session (fst (run (healthy tables) ss ui))
     = fst (Pager.paginate ss (Z.of_nat (length (t_rows tbl))) (page_size ui)
              (prev_pressed ui) (next_pressed ui)).
Proof.
  intros Hw Ht Hsel. rewrite (run_from_table tables ss ui t Hw).
  set (w1 := after_query _ _ _). unfold script_from_table.
  run_step (get_columns_healthy tables t w1).
  set (w2 := after_query w1 _ _).
  assert (columns_in tables t = t_cols tbl) as Hcols
    by (unfold columns_in; now rewrite Ht).
  rewrite Hcols. set (e := list_to_set (t_cols tbl) : gset string) in *.
  assert (forall c, c ∈ ["city"; "state_std"; "state"; "postal_code_std"; "postal_code"] ->
                    has e c = false) as Hno.
  { intros c Hc. destruct (has e c) eqn:Hh; [|reflexivity]. exfalso.
    apply (selected_nonempty e c); [|now apply has_elem | exact Hsel].
    repeat (apply elem_of_cons in Hc as [-> | Hc]; [in_list|]).
    now apply elem_of_nil in Hc. }
  rewrite (Hno "city") by in_list.
  assert (state_field e = None) as ->
    by (unfold state_field, prefer; now rewrite !Hno by in_list).
  run_step (ret_ok (@nil string) w2). run_step (ret_ok (@nil string) w2).
  do 2 draw_step. set (w2' := drew (drew w2 _) _).
  set (f := {| q := keyword ui; city := pick [] (city_choice ui);
               state := pick [] (state_choice ui); zip_like := zip_text ui |}).
  destruct (nothing_to_filter e f Hsel) as [-> ->].
  destruct (count_all_ok (healthy tables) t [] [] _ w2'
              (eval_count tables t tbl [] [] Ht ltac:(set_solver) eq_refl))
    as (w3 & H3 & S3 & I3).
  rewrite (filter_all (fun r => Is_true (keeps [] [] r)) (t_rows tbl)) in H3
    by (intros r; now rewrite keeps_nothing_set).
  run_step H3.
  destruct (count_all_ok (healthy tables) t [] [] _ w3
              (eval_count tables t tbl [] [] Ht ltac:(set_solver) eq_refl))
    as (w4 & H4 & S4 & I4).
  rewrite (filter_all (fun r => Is_true (keeps [] [] r)) (t_rows tbl)) in H4
    by (intros r; now rewrite keeps_nothing_set).
  run_step H4.
  assert ("city" ∉ columns_in tables t) as Hc1.
  { rewrite Hcols. intros Hin. apply columns_of_table in Hin. apply has_elem in Hin.
    fold e in Hin. rewrite (Hno "city") in Hin by in_list. discriminate. }
  destruct (helpers_absent tables t "city" w4 Hc1) as [H5 _]. run_step H5.
  set (w5 := after_query w4 _ _).
  rewrite (Hno "postal_code_std") by in_list.
  assert ("postal_code" ∉ columns_in tables t) as Hc2.
  { rewrite Hcols. intros Hin. apply columns_of_table in Hin. apply has_elem in Hin.
    fold e in Hin. rewrite (Hno "postal_code") in Hin by in_list. discriminate. }
  destruct (helpers_absent tables t "postal_code" w5 Hc2) as [H6 _]. run_step H6.
  do 2 draw_step. set (w6 := drew (drew (after_query w5 _ _) _) _).
  assert (session w6 = ss) as S by (simpl; rewrite S4, S3; reflexivity).
  assert (issued w6 = [TableNames; TableInfo t; CountRows t [] []; CountRows t [] [];
                       TableInfo t; TableInfo t]) as I
    by (simpl; rewrite I4, I3; reflexivity).
  set (pgr := Pager.paginate ss (Z.of_nat (length (t_rows tbl))) (page_size ui)
                (prev_pressed ui) (next_pressed ui)).
  set (w7 := {| session := fst pgr; frames := frames w6; issued := issued w6;
                display := display w6 |}).
  assert (on_session (fun ss0 => Pager.paginate ss0 (Z.of_nat (length (t_rows tbl)))
                                   (page_size ui) (prev_pressed ui) (next_pressed ui)) w6
          = (w7, Ok (snd pgr))) as H7.
  { unfold on_session. rewrite S. fold pgr. now destruct pgr. }
  run_step H7. draw_step.
  assert (select_list e = []) as -> by (unfold select_list; now rewrite Hsel).
  unfold stop. cbn [fst snd]. split; [reflexivity|]. split; [exact I | reflexivity].
Qed.

Lemma X18_witness :
  let tables : gmap string table :=
    {[ "records" := {| t_cols := ["id"; "notes"]; t_rows := [Sample.row [("id", "1")]] |} ]} in
  snd (run (healthy tables) ∅ Sample.first_visit) = Halt "No expected columns found."
  /\ issued (fst (run (healthy tables) ∅ Sample.first_visit))
     = [TableNames; TableInfo "records"; CountRows "records" [] [];
        CountRows "records" [] []; TableInfo "records"; TableInfo "records"]
  /\ session (fst (run (healthy tables) ∅ Sample.first_visit))
     = fst (Pager.paginate ∅ (Z.of_nat (length [Sample.row [("id", "1")]]))
              (page_size Sample.first_visit)
              (prev_pressed Sample.first_visit) (next_pressed Sample.first_visit)).
Proof.
  apply (X18_no_expected_columns
           {[ "records" := {| t_cols := ["id"; "notes"];
                              t_rows := [Sample.row [("id", "1")]] |} ]}
           "records"
           {| t_cols := ["id"; "notes"]; t_rows := [Sample.row [("id", "1")]] |}
           ∅ Sample.first_visit).
  - reflexivity.
  - reflexivity.
  - vm_compute. reflexivity.
Defined.

End NoColumns.

(** ** Placeholders of the whole statements *)

Section StatementPlaceholders.
Import Schema Filter Sql Frame Sqlite Reading.

Lemma sum_zero (l : list string) :
  (forall s, s ∈ l -> qmarks s = O) -> sum_list (map qmarks l) = O.
Proof.
  induction l as [|x l IH]; intros H; simpl; [reflexivity|].
  rewrite (H x), IH by set_solver. reflexivity.
Qed.

Lemma qmarks_selected (e : gset string) (cl : string * string) :
  cl ∈ selected e -> qmarks (render_sel cl) = O.
Proof.
  intros H. destruct cl as [c l].
  assert (l ∈ all_labels) as Hl.
  { apply (elem_of_sublist (map snd (selected e))); [|apply selected_labels_in_order].
    apply list_elem_of_fmap. exists (c, l). auto. }
  apply selected_elem in H as [Hc _]. simpl in Hc.
  unfold render_sel. simpl fst. simpl snd. rewrite !qmarks_app.
  assert (qmarks c = O) as ->.
  { repeat (apply elem_of_cons in Hc as [-> | Hc]; [reflexivity|]).
    now apply elem_of_nil in Hc. }
  assert (qmarks l = O) as ->.
  { unfold all_labels in Hl.
    repeat (apply elem_of_cons in Hl as [-> | Hl]; [reflexivity|]).
    now apply elem_of_nil in Hl. }
  reflexivity.
Qed.

Lemma qmarks_select_list (e : gset string) :
  qmarks (Py.join ", " (select_list e)) = O.
Proof.
  rewrite (qmarks_join ", ") by reflexivity. apply sum_zero.
  intros s Hs. unfold select_list in Hs.
  apply list_elem_of_fmap in Hs as (cl & -> & Hcl). now apply (qmarks_selected e).
Qed.

Lemma qmarks_order_expr (e : gset string) :
  qmarks (order_expr e (select_list e)) = O.
Proof.
  rewrite <- order_expr_render. unfold order_of.
  destruct (has e "name_std" || has e "name"); [reflexivity|]. simpl.
  destruct (selected e) as [|[c l] rest] eqn:Hs; [reflexivity|]. simpl.
  assert ((c, l) ∈ selected e) as Hin by (rewrite Hs; apply list_elem_of_here).
  apply selected_elem in Hin as [Hc _]. simpl in Hc.
  repeat (apply elem_of_cons in Hc as [-> | Hc]; [reflexivity|]).
  now apply elem_of_nil in Hc.
Qed.

(** X19: every statement that carries bound values holds as many [?] as
    values are bound.  For either working table, the page query has the
    placeholders of its WHERE clause plus the two of LIMIT and OFFSET and
    is given [params] followed by the page size and the offset; the export
    query and the filtered count have those of the WHERE clause and are
    given [params]; no table name, column name, label or ORDER BY
    expression brings a [?] of its own. *)
Theorem X19_placeholders_of_statements (t : string) (e : gset string) (f : filters)
    (page_size offset : Z) :
  t ∈ ["records_norm"; "records"] ->
  qmarks (sql t e f) = length (sql_params (page_query t e f page_size offset))
  /\ sql_params (page_query t e f page_size offset)
     = map PStr (params e f) ++ [PInt page_size; PInt offset]
  /\ qmarks (sql_text (export_query t e f))
     = length (sql_params (export_query t e f))
  /\ qmarks (sql_text (count_query t e f))
     = length (sql_params (count_query t e f)).
Proof.
  intros Ht.
  assert (qmarks t = O) as Hq.
  { repeat (apply elem_of_cons in Ht as [-> | Ht]; [reflexivity|]).
    now apply elem_of_nil in Ht. }
  pose proof (qmarks_select_list e) as Hs.
  pose proof (qmarks_order_expr e) as Ho.
  pose proof (qmarks_where_sql e f) as Hw.
  split; [|split; [reflexivity|split]].
  - unfold sql, page_sql. rewrite !qmarks_app, Hs, Ho, Hw, Hq.
    simpl sql_params. rewrite length_app, length_map. simpl.
    change (qmarks nl) with O. change (qmarks "SELECT ") with O.
    change (qmarks "FROM ") with O. change (qmarks "ORDER BY ") with O.
    change (qmarks "LIMIT ? OFFSET ?;") with 2%nat. lia.
  - rewrite export_query_text. unfold full_sql.
    rewrite !qmarks_app, Hs, Ho, Hw, Hq. simpl sql_params. rewrite length_map.
    change (qmarks "SELECT ") with O. change (qmarks " FROM ") with O.
    change (qmarks " ") with O. change (qmarks " ORDER BY ") with O. lia.
  - rewrite count_query_text. unfold count_sql.
    rewrite !qmarks_app, Hw, Hq. simpl sql_params. rewrite length_map.
    change (qmarks "SELECT COUNT(*) AS c FROM ") with O.
    change (qmarks " ") with O. lia.
Qed.

Lemma X19_witness :
  let e := Sample.columns_of Sample.directory in
  qmarks (sql "records" e Sample.busy)
    = length (sql_params (page_query "records" e Sample.busy 50 0))
  /\ sql_params (page_query "records" e Sample.busy 50 0)
     = map PStr (params e Sample.busy) ++ [PInt 50; PInt 0]
  /\ qmarks (sql_text (export_query "records" e Sample.busy))
     = length (sql_params (export_query "records" e Sample.busy))
  /\ qmarks (sql_text (count_query "records" e Sample.busy))
     = length (sql_params (count_query "records" e Sample.busy)).
Proof.
  apply (X19_placeholders_of_statements "records"
           (Sample.columns_of Sample.directory) Sample.busy 50 0).
  in_list.
Defined.

End StatementPlaceholders.
